(** * NRMS news recommendation model: attention primitives and scorer

    A shallow embedding of [our_implementation/utils/model.py]
    (classes [SelfAttention], [AdditiveAttention] and [NRMSModel]) together
    with the part of the torch tensor library those classes call.

    Modelling choices, in one place:
    - a tensor is its shape and its contents in logical row-major order;
      strides are not represented, so [transpose] materialises its result
      and [contiguous] is the identity;
    - tensor entries are real numbers: rounding, infinities and NaN of the
      32-bit floats are outside the model; where the program would divide
      by zero (head_dim = 0) and the quotient is looked at, the statement
      assumes a non-zero divisor;
    - the random generator is the sequence of values it is going to hand
      out, with a cursor; [nn.Linear] takes its initial weights from it and
      [nn.Dropout] its keep/drop decisions;
    - a method is a function from the state (the object and the world:
      generator and standard output) to an outcome (value or exception) and
      the state it leaves behind. *)

From Stdlib Require Import String Ascii DecimalString.
From Stdlib Require Import Bool List Arith Lia ZArith Reals Lra Permutation.
Import ListNotations.
Open Scope bool_scope.

(** ** Shapes and row-major indexing *)

Fixpoint numel (sh : list nat) : nat :=
  match sh with
  | [] => 1
  | d :: ds => d * numel ds
  end.

Fixpoint ravel (sh idx : list nat) : nat :=
  match sh, idx with
  | _ :: ds, i :: js => i * numel ds + ravel ds js
  | _, _ => 0
  end.

Fixpoint unravel (sh : list nat) (k : nat) : list nat :=
  match sh with
  | [] => []
  | _ :: ds => (k / numel ds) :: unravel ds (k mod numel ds)
  end.

Fixpoint in_bounds (sh idx : list nat) : Prop :=
  match sh, idx with
  | [], [] => True
  | d :: ds, i :: js => i < d /\ in_bounds ds js
  | _, _ => False
  end.

(** ** Tensors *)

Record Tensor (A : Type) : Type := mkTensor { shape : list nat; data : list A }.

Arguments mkTensor {A} shape data.
Arguments shape {A} t.
Arguments data {A} t.

Definition wf {A} (t : Tensor A) : Prop := length (data t) = numel (shape t).

Definition tabulate {A} (sh : list nat) (f : list nat -> A) : Tensor A :=
  mkTensor sh (map (fun k => f (unravel sh k)) (seq 0 (numel sh))).

Definition get {A} (d : A) (t : Tensor A) (idx : list nat) : A :=
  nth (ravel (shape t) idx) (data t) d.

Definition tmap {A B} (f : A -> B) (t : Tensor A) : Tensor B :=
  mkTensor (shape t) (map f (data t)).

(** ** Outcomes: a value or a Python exception *)

Inductive Exn : Type :=
  RuntimeError | IndexError | ValueError | TypeError | AssertionError.

Inductive Outcome (A : Type) : Type :=
| Ok (a : A)
| Raise (e : Exn).

Arguments Ok {A} a.
Arguments Raise {A} e.

(** ** The part of torch the model calls *)

Module torch.

(** Sum of [f 0 .. f (n-1)]. *)
Fixpoint rsum (n : nat) (f : nat -> R) : R :=
  match n with
  | O => 0%R
  | S k => (rsum k f + f k)%R
  end.

(** A dimension argument may be negative; [wrap_dim] is torch's
    [maybe_wrap_dim]: a tensor without dimensions is treated as having one. *)
Definition wrap_dim (rank : nat) (d : Z) : option nat :=
  let r := Z.of_nat (Nat.max rank 1) in
  if ((- r <=? d) && (d <? r))%Z then Some (Z.to_nat (d mod r)) else None.

(** [t.size()] *)
Definition size {A} (t : Tensor A) : list nat := shape t.

(** [t.size(d)] *)
Definition size_at {A} (t : Tensor A) (d : Z) : Outcome nat :=
  match shape t with
  | [] => Raise IndexError
  | _ :: _ =>
      match wrap_dim (length (shape t)) d with
      | Some i => Ok (nth i (shape t) 0%nat)
      | None => Raise IndexError
      end
  end.

(** [t.view(sh)] with explicit sizes. *)
Definition view {A} (t : Tensor A) (sh : list nat) : Outcome (Tensor A) :=
  if numel sh =? numel (shape t) then Ok (mkTensor sh (data t))
  else Raise RuntimeError.

(** [t.view(pre..., -1)]: the last size is inferred (torch's [infer_size]). *)
Definition view_infer {A} (t : Tensor A) (pre : list nat) : Outcome (Tensor A) :=
  let newsize := numel pre in
  let n := numel (shape t) in
  if (n =? newsize) || ((0 <? newsize) && (n mod newsize =? 0)) then
    if newsize =? 0 then Raise RuntimeError
    else Ok (mkTensor (pre ++ [n / newsize]) (data t))
  else Raise RuntimeError.

(** The list [l] with positions [i] and [j] exchanged. *)
Definition swap (i j : nat) (l : list nat) : list nat :=
  map (fun k => nth (if k =? i then j else if k =? j then i else k) l 0%nat)
      (seq 0 (length l)).

(** [t.transpose(d0, d1)] *)
Definition transpose {A} (d : A) (t : Tensor A) (d0 d1 : Z) : Outcome (Tensor A) :=
  match wrap_dim (length (shape t)) d0, wrap_dim (length (shape t)) d1 with
  | Some i, Some j =>
      Ok (tabulate (swap i j (shape t)) (fun idx => get d t (swap i j idx)))
  | _, _ => Raise IndexError
  end.

(** [t.contiguous()]: contents are always kept in logical order. *)
Definition contiguous {A} (t : Tensor A) : Tensor A := t.

(** Equality of two shapes. *)
Fixpoint shape_eqb (s1 s2 : list nat) : bool :=
  match s1, s2 with
  | [], [] => true
  | a :: s1', b :: s2' => (a =? b) && shape_eqb s1' s2'
  | _, _ => false
  end.

(** [torch.matmul(a, b)] for operands of one rank (at least 2) with equal
    batch dimensions: the batched matrix product.  The broadcasting forms of
    [matmul] are not called by the model and raise here. *)
Definition matmul (a b : Tensor R) : Outcome (Tensor R) :=
  let r := length (shape a) in
  let bs := firstn (r - 2) (shape a) in
  let n := nth (r - 2) (shape a) 0%nat in
  let m := nth (r - 1) (shape a) 0%nat in
  let p := nth (r - 1) (shape b) 0%nat in
  if (2 <=? r) && (length (shape b) =? r)
     && shape_eqb (firstn (r - 2) (shape b)) bs
     && (nth (r - 2) (shape b) 0%nat =? m)
  then Ok (tabulate (bs ++ [n; p]) (fun idx =>
             let bi := firstn (r - 2) idx in
             let i := nth (r - 2) idx 0%nat in
             let j := nth (r - 1) idx 0%nat in
             rsum m (fun k => get 0 a (bi ++ [i; k]) * get 0 b (bi ++ [k; j]))%R))
  else Raise RuntimeError.

(** [torch.bmm(a, b)]: both operands must have three dimensions. *)
Definition bmm (a b : Tensor R) : Outcome (Tensor R) :=
  if (length (shape a) =? 3) && (length (shape b) =? 3) then matmul a b
  else Raise RuntimeError.

(** [t / c] for a scalar [c]. *)
Definition div_scalar (t : Tensor R) (c : R) : Tensor R := tmap (fun x => x / c)%R t.

(** [l] with position [i] replaced by [v]. *)
Fixpoint set_nth (i : nat) (v : nat) (l : list nat) : list nat :=
  match l, i with
  | [], _ => []
  | _ :: xs, O => v :: xs
  | x :: xs, S k => x :: set_nth k v xs
  end.

(** [l] with [v] inserted before position [i]. *)
Definition insert_nth (i : nat) (v : nat) (l : list nat) : list nat :=
  firstn i l ++ v :: skipn i l.

(** [l] without position [i]. *)
Definition remove_nth (i : nat) (l : list nat) : list nat :=
  firstn i l ++ skipn (S i) l.

(** [torch.softmax(t, dim)]: [exp x / sum of exp] along [dim]. *)
Definition softmax (t : Tensor R) (dim : Z) : Outcome (Tensor R) :=
  match wrap_dim (length (shape t)) dim with
  | Some i =>
      Ok (tabulate (shape t) (fun idx =>
            (exp (get 0 t idx)
             / rsum (nth i (shape t) 1%nat)
                    (fun j => exp (get 0 t (set_nth i j idx))))%R))
  | None => Raise IndexError
  end.

(** [torch.tanh(t)] *)
Definition tanh (t : Tensor R) : Tensor R := tmap Rtrigo_def.tanh t.

(** [torch.sum(t, dim)] *)
Definition sum (t : Tensor R) (dim : Z) : Outcome (Tensor R) :=
  match wrap_dim (length (shape t)) dim with
  | Some i =>
      Ok (tabulate (remove_nth i (shape t)) (fun idx =>
            rsum (nth i (shape t) 1%nat) (fun j => get 0%R t (insert_nth i j idx))))
  | None => Raise IndexError
  end.

(** [t.squeeze(dim)]: drops the dimension when its size is 1. *)
Definition squeeze {A} (t : Tensor A) (dim : Z) : Outcome (Tensor A) :=
  match wrap_dim (length (shape t)) dim with
  | Some i =>
      if (i <? length (shape t)) && (nth i (shape t) 0%nat =? 1)
      then Ok (mkTensor (remove_nth i (shape t)) (data t))
      else Ok t
  | None => Raise IndexError
  end.

(** [t.unsqueeze(dim)]: [dim] ranges over [-(rank+1) .. rank]. *)
Definition unsqueeze {A} (t : Tensor A) (dim : Z) : Outcome (Tensor A) :=
  let r := Z.of_nat (S (length (shape t))) in
  if ((- r <=? dim) && (dim <? r))%Z
  then Ok (mkTensor (insert_nth (Z.to_nat (dim mod r)) 1%nat (shape t)) (data t))
  else Raise IndexError.

(** Broadcasting of two shapes, aligned at the trailing dimension. *)
Fixpoint broadcast_rev (s1 s2 : list nat) : option (list nat) :=
  match s1, s2 with
  | [], s => Some s
  | s, [] => Some s
  | a :: s1', b :: s2' =>
      match broadcast_rev s1' s2' with
      | Some s =>
          if a =? b then Some (a :: s)
          else if a =? 1 then Some (b :: s)
          else if b =? 1 then Some (a :: s)
          else None
      | None => None
      end
  end.

Definition broadcast_shapes (s1 s2 : list nat) : option (list nat) :=
  option_map (@rev nat) (broadcast_rev (rev s1) (rev s2)).

(** The index into an operand of shape [sh] for index [idx] of the
    broadcast result. *)
Definition broadcast_index (sh idx : list nat) : list nat :=
  map (fun di => if fst di =? 1 then 0%nat else snd di)
      (combine sh (skipn (length idx - length sh) idx)).

(** [a * b], elementwise with broadcasting. *)
Definition mul (a b : Tensor R) : Outcome (Tensor R) :=
  match broadcast_shapes (shape a) (shape b) with
  | Some sh =>
      Ok (tabulate sh (fun idx =>
            (get 0 a (broadcast_index (shape a) idx)
             * get 0 b (broadcast_index (shape b) idx))%R))
  | None => Raise RuntimeError
  end.

(** *** The random generator *)

Record Generator : Type := mkGenerator { cursor : nat; draws : nat -> R }.

Definition take (n : nat) (g : Generator) : list R * Generator :=
  (map (fun k => draws g (cursor g + k)) (seq 0 n),
   mkGenerator (cursor g + n) (draws g)).

End torch.

(** ** The part of torch.nn the model calls *)

Module Linear.

Record t : Type := mk {
  in_features : nat;
  out_features : nat;
  weight : Tensor R;          (* [out_features; in_features] *)
  bias : option (Tensor R)    (* [out_features] *)
}.

(** [nn.Linear(in_features, out_features, bias)]: the initial weights are
    the next values of the generator. *)
Definition new (inf outf : nat) (with_bias : bool) (g : torch.Generator)
  : t * torch.Generator :=
  let (w, g1) := torch.take (outf * inf) g in
  if with_bias then
    let (b, g2) := torch.take outf g1 in
    (mk inf outf (mkTensor [outf; inf] w) (Some (mkTensor [outf] b)), g2)
  else (mk inf outf (mkTensor [outf; inf] w) None, g1).

(** [F.linear(x, weight, bias)]: [x . weight^T + bias] on the last axis. *)
Definition forward (l : t) (x : Tensor R) : Outcome (Tensor R) :=
  match shape x with
  | [] => Raise RuntimeError
  | _ :: _ =>
      if last (shape x) 0 =? in_features l then
        Ok (tabulate (removelast (shape x) ++ [out_features l]) (fun idx =>
              (torch.rsum (in_features l) (fun k =>
                 get 0 x (removelast idx ++ [k]) * get 0 (weight l) [last idx 0%nat; k])
               + match bias l with
                 | Some b => get 0 b [last idx 0%nat]
                 | None => 0
                 end)%R))
      else Raise RuntimeError
  end.

End Linear.

Module Dropout.

Record t : Type := mk { p : R; training : bool }.

(** [nn.Dropout(p)] *)
Definition new (p : R) : Outcome t :=
  if Rlt_dec p 0 then Raise ValueError
  else if Rlt_dec 1 p then Raise ValueError
  else Ok (mk p true).

(** [F.dropout(x, p, training)]: the input itself when [p] is 0, outside
    training or on an empty tensor; zeros when [p] is 1; otherwise each entry
    is kept, scaled by [1/(1-p)], when its draw falls below [1-p]. *)
Definition forward (dr : t) (x : Tensor R) (g : torch.Generator)
  : Tensor R * torch.Generator :=
  if training dr then
    if Req_EM_T (p dr) 0 then (x, g)
    else if numel (shape x) =? 0 then (x, g)
    else if Req_EM_T (p dr) 1 then (tmap (fun _ => 0%R) x, g)
    else
      let (u, g') := torch.take (length (data x)) g in
      (mkTensor (shape x)
         (map (fun xu => if Rlt_dec (snd xu) (1 - p dr)
                         then (fst xu / (1 - p dr))%R else 0%R)
              (combine (data x) u)), g')
  else (x, g).

End Dropout.

Module Embedding.

(** [F.embedding(ids, weight)]: row [ids[...]] of the table at every
    position; an id outside the table raises. *)
Definition forward (weight : Tensor R) (ids : Tensor Z) : Outcome (Tensor R) :=
  let V := nth 0 (shape weight) 0 in
  let E := nth 1 (shape weight) 0 in
  if forallb (fun i => (0 <=? i) && (i <? Z.of_nat V))%Z (data ids) then
    Ok (tabulate (shape ids ++ [E]) (fun idx =>
          get 0%R weight [Z.to_nat (get 0%Z ids (removelast idx)); last idx 0]))
  else Raise IndexError.

End Embedding.

(** ** Methods: state and exceptions *)

Record World : Type := mkWorld { rng : torch.Generator; stdout : list string }.

Record State (T : Type) : Type := mkState { self : T; world : World }.

Arguments mkState {T} self world.
Arguments self {T} s.
Arguments world {T} s.

Definition M (T A : Type) : Type := State T -> Outcome A * State T.

Definition ret {T A} (a : A) : M T A := fun s => (Ok a, s).

Definition bind {T A B} (m : M T A) (f : A -> M T B) : M T B :=
  fun s =>
    match m s with
    | (Ok a, s') => f a s'
    | (Raise e, s') => (Raise e, s')
    end.

Declare Scope method_scope.
Delimit Scope method_scope with method.
Notation "x <- m ;; k" := (bind m (fun x => k))
  (at level 61, m at next level, right associativity) : method_scope.
Notation "' pat <- m ;; k" := (bind m (fun x => match x with pat => k end))
  (at level 61, pat pattern, m at next level, right associativity) : method_scope.
Notation "m ;; k" := (bind m (fun _ => k))
  (at level 61, right associativity) : method_scope.
Open Scope method_scope.

(** A tensor operation that may raise. *)
Definition lift {T A} (o : Outcome A) : M T A := fun s => (o, s).

Definition get_self {T} : M T T := fun s => (Ok (self s), s).

Definition modify {T} (f : T -> T) : M T unit :=
  fun s => (Ok tt, mkState (f (self s)) (world s)).

(** An operation that consumes random draws. *)
Definition with_rng {T A} (f : torch.Generator -> A * torch.Generator) : M T A :=
  fun s =>
    let (a, g) := f (rng (world s)) in
    (Ok a, mkState (self s) (mkWorld g (stdout (world s)))).

(** [print(line)] *)
Definition print {T} (line : string) : M T unit :=
  fun s => (Ok tt, mkState (self s)
                     (mkWorld (rng (world s)) (stdout (world s) ++ [line]))).

(** A method of the sub-object selected by [proj], run on the enclosing
    object; [inj] stores the sub-object back. *)
Definition zoom {T U A} (proj : T -> U) (inj : U -> T -> T) (m : M U A) : M T A :=
  fun s =>
    let (r, s') := m (mkState (proj (self s)) (world s)) in
    (r, mkState (inj (self s') (self s)) (world s')).

(** [str(torch.Size)] *)
Definition show_nat (n : nat) : string := NilZero.string_of_uint (Nat.to_uint n).

Fixpoint show_dims (sh : list nat) : string :=
  match sh with
  | [] => ""
  | [d] => show_nat d
  | d :: ds => show_nat d ++ ", " ++ show_dims ds
  end.

Definition show_Size (sh : list nat) : string :=
  "torch.Size([" ++ show_dims sh ++ "])".

(** [a, b, c = t.size()] *)
Definition unpack3 (sh : list nat) : Outcome (nat * nat * nat) :=
  match sh with
  | [a; b; c] => Ok (a, b, c)
  | _ => Raise ValueError
  end.

(** Calling an attribute that may still be [None]. *)
Definition call (l : option Linear.t) (x : Tensor R) : Outcome (Tensor R) :=
  match l with
  | Some lin => Linear.forward lin x
  | None => Raise TypeError
  end.

(** The hyper-parameters read by the constructors. *)
Module HParams.
Record t : Type := mk {
  head_num : nat;
  head_dim : nat;
  attention_hidden_dim : nat;
  dropout : R;
  verbose : bool
}.
End HParams.

(** ** class SelfAttention *)

Module SelfAttention.

Record t : Type := mk {
  head_num : nat;
  head_dim : nat;
  output_dim : nat;
  WQ : option Linear.t;
  WK : option Linear.t;
  WV : option Linear.t;
  dropout : Dropout.t;
  verbose : bool
}.

Definition set_WQ (w : option Linear.t) (s : t) : t :=
  mk (head_num s) (head_dim s) (output_dim s) w (WK s) (WV s) (dropout s) (verbose s).
Definition set_WK (w : option Linear.t) (s : t) : t :=
  mk (head_num s) (head_dim s) (output_dim s) (WQ s) w (WV s) (dropout s) (verbose s).
Definition set_WV (w : option Linear.t) (s : t) : t :=
  mk (head_num s) (head_dim s) (output_dim s) (WQ s) (WK s) w (dropout s) (verbose s).

(** [__init__(self, hparams, verbose=False)] *)
Definition init (hparams : HParams.t) (verbose : bool) : Outcome t :=
  match Dropout.new (HParams.dropout hparams) with
  | Ok d =>
      Ok (mk (HParams.head_num hparams) (HParams.head_dim hparams)
             (HParams.head_num hparams * HParams.head_dim hparams)
             None None None d verbose)
  | Raise e => Raise e
  end.

(** [forward], lines 22-44: lazy creation of the projections, projection,
    split into heads, scaled scores and their softmax.  Returns the locals
    [attn], [V], [N] and [L] that the rest of the body reads. *)
Definition attention (Q_seq K_seq V_seq : Tensor R)
  : M t (Tensor R * Tensor R * nat * nat) :=
  self0 <- get_self ;;
  match WQ self0 with
  | None =>
      embedding_dim <- lift (torch.size_at Q_seq (-1)) ;;
      wq <- with_rng (Linear.new embedding_dim (output_dim self0) true) ;;
      modify (set_WQ (Some wq)) ;;
      wk <- with_rng (Linear.new embedding_dim (output_dim self0) true) ;;
      modify (set_WK (Some wk)) ;;
      wv <- with_rng (Linear.new embedding_dim (output_dim self0) true) ;;
      modify (set_WV (Some wv))
  | Some _ => ret tt
  end ;;
  self <- get_self ;;
  Q <- lift (call (WQ self) Q_seq) ;;
  K <- lift (call (WK self) K_seq) ;;
  V <- lift (call (WV self) V_seq) ;;
  '(N, L, _) <- lift (unpack3 (torch.size Q)) ;;
  Q <- lift (torch.view Q [N; L; head_num self; head_dim self]) ;;
  Q <- lift (torch.transpose 0%R Q 1 2) ;;
  K <- lift (torch.view K [N; L; head_num self; head_dim self]) ;;
  K <- lift (torch.transpose 0%R K 1 2) ;;
  V <- lift (torch.view V [N; L; head_num self; head_dim self]) ;;
  V <- lift (torch.transpose 0%R V 1 2) ;;
  (if verbose self then
     print ("Q shape: " ++ show_Size (shape Q)) ;;
     print ("K shape: " ++ show_Size (shape K)) ;;
     print ("V shape: " ++ show_Size (shape V))
   else ret tt) ;;
  Kt <- lift (torch.transpose 0%R K (-2) (-1)) ;;
  QK <- lift (torch.matmul Q Kt) ;;
  let scores := torch.div_scalar QK (sqrt (INR (head_dim self))) in
  attn <- lift (torch.softmax scores (-1)) ;;
  ret (attn, V, N, L).

(** [forward(self, Q_seq, K_seq, V_seq)] *)
Definition forward (Q_seq K_seq V_seq : Tensor R) : M t (Tensor R) :=
  '(attn, V, N, L) <- attention Q_seq K_seq V_seq ;;
  self <- get_self ;;
  attn <- with_rng (Dropout.forward (dropout self) attn) ;;
  output <- lift (torch.matmul attn V) ;;
  output <- lift (torch.transpose 0%R output 1 2) ;;
  output <- lift (torch.view (torch.contiguous output) [N; L; output_dim self]) ;;
  (if verbose self then
     print ("Attention shape: " ++ show_Size (shape attn)) ;;
     print ("Output shape: " ++ show_Size (shape output))
   else ret tt) ;;
  ret output.

End SelfAttention.

(** ** class AdditiveAttention *)

Module AdditiveAttention.

Record t : Type := mk {
  W : Linear.t;
  q : Linear.t;
  dropout : Dropout.t;
  verbose : bool
}.

(** [__init__(self, hparams, verbose=False)] *)
Definition init (hparams : HParams.t) (verbose : bool) (g : torch.Generator)
  : Outcome t * torch.Generator :=
  let (w, g1) := Linear.new (HParams.head_num hparams * HParams.head_dim hparams)
                            (HParams.attention_hidden_dim hparams) true g in
  let (q, g2) := Linear.new (HParams.attention_hidden_dim hparams) 1 false g1 in
  match Dropout.new (HParams.dropout hparams) with
  | Ok d => (Ok (mk w q d verbose), g2)
  | Raise e => (Raise e, g2)
  end.

(** [forward], lines 70-72: the attention weights over the positions. *)
Definition weights (x : Tensor R) : M t (Tensor R) :=
  self <- get_self ;;
  h <- lift (Linear.forward (W self) x) ;;
  let attn := torch.tanh h in
  attn <- lift (Linear.forward (q self) attn) ;;
  attn <- lift (torch.squeeze attn (-1)) ;;
  attn <- lift (torch.softmax attn 1) ;;
  lift (torch.unsqueeze attn (-1)).

(** [forward(self, x)] *)
Definition forward (x : Tensor R) : M t (Tensor R) :=
  attn <- weights x ;;
  self <- get_self ;;
  (if verbose self then
     print ("Attention weights shape: " ++ show_Size (shape attn)) ;;
     print ("Input shape: " ++ show_Size (shape x))
   else ret tt) ;;
  xa <- lift (torch.mul x attn) ;;
  output <- lift (torch.sum xa 1) ;;
  output <- with_rng (Dropout.forward (dropout self) output) ;;
  (if verbose self then
     print ("Output shape: " ++ show_Size (shape output))
   else ret tt) ;;
  ret output.

End AdditiveAttention.

(** ** class NRMSModel *)

Module NRMSModel.

Record t : Type := mk {
  embedding : Tensor R;       (* the weight of the nn.Embedding *)
  dropout : Dropout.t;
  news_self_att : SelfAttention.t;
  news_att : AdditiveAttention.t;
  user_self_att : SelfAttention.t;
  user_att : AdditiveAttention.t
}.

Definition set_news_self_att (a : SelfAttention.t) (s : t) : t :=
  mk (embedding s) (dropout s) a (news_att s) (user_self_att s) (user_att s).
Definition set_news_att (a : AdditiveAttention.t) (s : t) : t :=
  mk (embedding s) (dropout s) (news_self_att s) a (user_self_att s) (user_att s).
Definition set_user_self_att (a : SelfAttention.t) (s : t) : t :=
  mk (embedding s) (dropout s) (news_self_att s) (news_att s) a (user_att s).
Definition set_user_att (a : AdditiveAttention.t) (s : t) : t :=
  mk (embedding s) (dropout s) (news_self_att s) (news_att s) (user_self_att s) a.

(** [__init__(self, hparams, word_embeddings)]; [from_pretrained] wants a
    table with two dimensions. *)
Definition init (hparams : HParams.t) (word_embeddings : Tensor R)
                (g : torch.Generator) : Outcome t * torch.Generator :=
  if negb (length (shape word_embeddings) =? 2) then (Raise AssertionError, g) else
  match Dropout.new (HParams.dropout hparams) with
  | Raise e => (Raise e, g)
  | Ok d =>
    match SelfAttention.init hparams (HParams.verbose hparams) with
    | Raise e => (Raise e, g)
    | Ok nsa =>
      match AdditiveAttention.init hparams (HParams.verbose hparams) g with
      | (Raise e, g1) => (Raise e, g1)
      | (Ok na, g1) =>
        match SelfAttention.init hparams (HParams.verbose hparams) with
        | Raise e => (Raise e, g1)
        | Ok usa =>
          match AdditiveAttention.init hparams (HParams.verbose hparams) g1 with
          | (Raise e, g2) => (Raise e, g2)
          | (Ok ua, g2) => (Ok (mk word_embeddings d nsa na usa ua), g2)
          end
        end
      end
    end
  end.

(** [encode_news(self, news_input)] *)
Definition encode_news (news_input : Tensor Z) : M t (Tensor R) :=
  self <- get_self ;;
  x <- lift (Embedding.forward (embedding self) news_input) ;;
  x <- with_rng (Dropout.forward (dropout self) x) ;;
  x <- zoom news_self_att set_news_self_att (SelfAttention.forward x x x) ;;
  x <- zoom news_att set_news_att (AdditiveAttention.forward x) ;;
  ret x.

(** [encode_user(self, history_input)] *)
Definition encode_user (history_input : Tensor Z) : M t (Tensor R) :=
  '(N, H, L) <- lift (unpack3 (torch.size history_input)) ;;
  history_input <- lift (torch.view history_input [N * H; L]) ;;
  news_vectors <- encode_news history_input ;;
  news_vectors <- lift (torch.view_infer news_vectors [N; H]) ;;
  user_vector <- zoom user_self_att set_user_self_att
                   (SelfAttention.forward news_vectors news_vectors news_vectors) ;;
  user_vector <- zoom user_att set_user_att (AdditiveAttention.forward user_vector) ;;
  ret user_vector.

(** [forward(self, his_input, pred_input)] *)
Definition forward (his_input pred_input : Tensor Z) : M t (Tensor R) :=
  user_vector <- encode_user his_input ;;
  '(N, M, L) <- lift (unpack3 (torch.size pred_input)) ;;
  pred_input <- lift (torch.view pred_input [N * M; L]) ;;
  news_vectors <- encode_news pred_input ;;
  news_vectors <- lift (torch.view_infer news_vectors [N; M]) ;;
  u <- lift (torch.unsqueeze user_vector 2) ;;
  scores <- lift (torch.bmm news_vectors u) ;;
  scores <- lift (torch.squeeze scores (-1)) ;;
  ret scores.

End NRMSModel.

(** ** Vocabulary of the statements *)

(** [t] is the tensor of the given shape whose entry at an index is given by
    the function [f]. *)
Definition tensor2 {A} (d : A) (t : Tensor A) (a b : nat) (f : nat -> nat -> A) : Prop :=
  shape t = [a; b] /\ wf t /\
  forall i j, i < a -> j < b -> get d t [i; j] = f i j.

Definition tensor3 {A} (d : A) (t : Tensor A) (a b c : nat)
                   (f : nat -> nat -> nat -> A) : Prop :=
  shape t = [a; b; c] /\ wf t /\
  forall i j k, i < a -> j < b -> k < c -> get d t [i; j; k] = f i j k.

Definition tensor4 {A} (d : A) (t : Tensor A) (a b c e : nat)
                   (f : nat -> nat -> nat -> nat -> A) : Prop :=
  shape t = [a; b; c; e] /\ wf t /\
  forall i j k l, i < a -> j < b -> k < c -> l < e -> get d t [i; j; k; l] = f i j k l.

(** Entry [(o, k)] of the weight of a linear map and entry [o] of its bias. *)
Definition w_at (l : Linear.t) (o k : nat) : R := get 0%R (Linear.weight l) [o; k].

Definition b_at (l : Linear.t) (o : nat) : R :=
  match Linear.bias l with
  | Some b => get 0%R b [o]
  | None => 0%R
  end.

(** Dropout is switched off: evaluation mode, or probability 0. *)
Definition dropout_off (dr : Dropout.t) : Prop :=
  Dropout.training dr = false \/ Dropout.p dr = 0%R.

(** ** Multi-head self-attention as the specification words it *)

Module SpecSelfAttention.

(** Step 1: a linear projection of the rows of [X]. *)
Definition project (l : Linear.t) (E : nat) (X : Tensor R) (n i o : nat) : R :=
  (torch.rsum E (fun k => get 0 X [n; i; k] * w_at l o k) + b_at l o)%R.

(** Step 2: head [h] owns the columns [h*D .. h*D + D - 1]. *)
Definition head (D : nat) (P : nat -> nat -> nat -> R) (n h i d : nat) : R :=
  P n i (h * D + d).

(** Step 3: scaled dot-product scores, per head. *)
Definition scores (D : nat) (Qh Kh : nat -> nat -> nat -> nat -> R) (n h i j : nat) : R :=
  (torch.rsum D (fun k => Qh n h i k * Kh n h j k) / sqrt (INR D))%R.

(** Step 4: softmax along the last axis. *)
Definition normalize (L : nat) (S : nat -> nat -> nat -> nat -> R) (n h i j : nat) : R :=
  (exp (S n h i j) / torch.rsum L (fun j' => exp (S n h i j')))%R.

(** The normalized attention matrix, [batch x head_num x length x length]. *)
Definition attn (wq wk : Linear.t) (H D : nat) (Q K : Tensor R) : Tensor R :=
  let N := nth 0 (shape Q) 0 in
  let L := nth 1 (shape Q) 0 in
  let E := nth 2 (shape Q) 0 in
  tabulate [N; H; L; L] (fun idx =>
    normalize L (scores D (head D (project wq E Q)) (head D (project wk E K)))
              (nth 0 idx 0) (nth 1 idx 0) (nth 2 idx 0) (nth 3 idx 0)).

(** Steps 6 and 7: the weighted sum of the values under an attention matrix
    [a], heads recombined into one trailing dimension. *)
Definition combine (wv : Linear.t) (H D : nat) (a : Tensor R) (Q V : Tensor R)
  : Tensor R :=
  let N := nth 0 (shape Q) 0 in
  let L := nth 1 (shape Q) 0 in
  let E := nth 2 (shape Q) 0 in
  let Vh := head D (project wv E V) in
  tabulate [N; L; H * D] (fun idx =>
    let n := nth 0 idx 0 in
    let i := nth 1 idx 0 in
    let c := nth 2 idx 0 in
    torch.rsum L (fun j =>
      (get 0 a [n; (c / D)%nat; i; j] * Vh n (c / D)%nat j (c mod D)%nat)%R)).

(** Steps 1 to 7, with step 5: dropout on the normalized attention matrix. *)
Definition encode (wq wk wv : Linear.t) (H D : nat) (dr : Dropout.t)
                  (g : torch.Generator) (Q K V : Tensor R) : Tensor R :=
  combine wv H D (fst (Dropout.forward dr (attn wq wk H D Q K) g)) Q V.

End SpecSelfAttention.

(** The projections in force during a call of [SelfAttention.forward] on an
    input of width [E], with the generator as it is once they exist: the
    stored ones, or the ones the call creates. *)
Definition projections (self : SelfAttention.t) (E : nat) (g : torch.Generator)
  : option (Linear.t * Linear.t * Linear.t * torch.Generator) :=
  match SelfAttention.WQ self with
  | None =>
      let (wq, g1) := Linear.new E (SelfAttention.output_dim self) true g in
      let (wk, g2) := Linear.new E (SelfAttention.output_dim self) true g1 in
      let (wv, g3) := Linear.new E (SelfAttention.output_dim self) true g2 in
      Some (wq, wk, wv, g3)
  | Some wq =>
      match SelfAttention.WK self, SelfAttention.WV self with
      | Some wk, Some wv => Some (wq, wk, wv, g)
      | _, _ => None
      end
  end.

(** The object with its three projections stored. *)
Definition with_projections (self : SelfAttention.t) (wq wk wv : Linear.t)
  : SelfAttention.t :=
  SelfAttention.set_WV (Some wv)
    (SelfAttention.set_WK (Some wk) (SelfAttention.set_WQ (Some wq) self)).

(** A linear map from width [E] to width [F]. *)
Definition linear_dims (l : Linear.t) (E F : nat) : Prop :=
  Linear.in_features l = E /\ Linear.out_features l = F.

(** The object was built for [H] heads of width [D], and is either fresh
    (no projections yet) or holds projections created for inputs of
    width [E]. *)
Definition sa_ready (self : SelfAttention.t) (E H D : nat) : Prop :=
  SelfAttention.head_num self = H /\ SelfAttention.head_dim self = D /\
  SelfAttention.output_dim self = H * D /\
  match SelfAttention.WQ self with
  | None => True
  | Some wq =>
      exists wk wv,
        SelfAttention.WK self = Some wk /\ SelfAttention.WV self = Some wv /\
        linear_dims wq E (H * D) /\ linear_dims wk E (H * D) /\
        linear_dims wv E (H * D)
  end.

(** ** Additive attention pooling as the specification words it *)

Module SpecAdditiveAttention.

(** Step 1: feed-forward projection to the hidden width, then tanh. *)
Definition hidden (W : Linear.t) (F : nat) (x : Tensor R) (n l a : nat) : R :=
  Rtrigo_def.tanh (torch.rsum F (fun f => get 0 x [n; l; f] * w_at W a f) + b_at W a)%R.

(** Step 2: one scalar per position, by a linear map without bias. *)
Definition score (W q : Linear.t) (F A : nat) (x : Tensor R) (n l : nat) : R :=
  torch.rsum A (fun a => hidden W F x n l a * w_at q 0%nat a)%R.

(** Step 3: softmax of the scalars across the length axis. *)
Definition weight (W q : Linear.t) (F A L : nat) (x : Tensor R) (n l : nat) : R :=
  (exp (score W q F A x n l) / torch.rsum L (fun l' => exp (score W q F A x n l')))%R.

(** Step 4: the weighted sum of [x] along the length axis. *)
Definition pooled (W q : Linear.t) (F A : nat) (x : Tensor R) : Tensor R :=
  let N := nth 0 (shape x) 0 in
  let L := nth 1 (shape x) 0 in
  tabulate [N; F] (fun idx =>
    let n := nth 0 idx 0 in
    let f := nth 1 idx 0 in
    torch.rsum L (fun l => get 0 x [n; l; f] * weight W q F A L x n l)%R).

(** Step 5: dropout on the pooled output. *)
Definition pool (W q : Linear.t) (F A : nat) (dr : Dropout.t) (g : torch.Generator)
                (x : Tensor R) : Tensor R :=
  fst (Dropout.forward dr (pooled W q F A x) g).

End SpecAdditiveAttention.

(** The object was built for features of width [F] and hidden width [A]:
    [W] maps [F] to [A], [q] maps [A] to one scalar and has no bias. *)
Definition aa_ready (self : AdditiveAttention.t) (F A : nat) : Prop :=
  linear_dims (AdditiveAttention.W self) F A /\
  linear_dims (AdditiveAttention.q self) A 1 /\
  Linear.bias (AdditiveAttention.q self) = None.

(** ** Two runs of one method *)

(** Started in states whose objects are related by [R] and whose worlds are
    related by [W], the two runs return the same outcome and leave related
    states. *)
Definition agree {T A} (R : T -> T -> Prop) (W : World -> World -> Prop)
                 (m1 m2 : M T A) : Prop :=
  forall s1 s2, R (self s1) (self s2) -> W (world s1) (world s2) ->
    fst (m1 s1) = fst (m2 s2) /\
    R (self (snd (m1 s1))) (self (snd (m2 s2))) /\
    W (world (snd (m1 s1))) (world (snd (m2 s2))).

(** The two worlds have the same generator; what was printed may differ. *)
Definition same_rng (w1 w2 : World) : Prop := rng w1 = rng w2.

(** No relation between the worlds is asked for. *)
Definition any_world (w1 w2 : World) : Prop := True.

(** A relation on worlds that does not look at the standard output. *)
Definition stdout_blind (W : World -> World -> Prop) : Prop :=
  forall w1 w2 o1 o2, W w1 w2 -> W (mkWorld (rng w1) o1) (mkWorld (rng w2) o2).

(** A method that only prints. *)
Definition quiet {T} (m : M T unit) : Prop :=
  forall s, exists out, m s = (Ok tt, mkState (self s) (mkWorld (rng (world s)) out)).

(** The two objects differ at most in their [verbose] flag. *)
Definition sa_up_to_verbose (a b : SelfAttention.t) : Prop :=
  SelfAttention.head_num a = SelfAttention.head_num b /\
  SelfAttention.head_dim a = SelfAttention.head_dim b /\
  SelfAttention.output_dim a = SelfAttention.output_dim b /\
  SelfAttention.WQ a = SelfAttention.WQ b /\
  SelfAttention.WK a = SelfAttention.WK b /\
  SelfAttention.WV a = SelfAttention.WV b /\
  SelfAttention.dropout a = SelfAttention.dropout b.

Definition aa_up_to_verbose (a b : AdditiveAttention.t) : Prop :=
  AdditiveAttention.W a = AdditiveAttention.W b /\
  AdditiveAttention.q a = AdditiveAttention.q b /\
  AdditiveAttention.dropout a = AdditiveAttention.dropout b.

Definition nrms_up_to_verbose (a b : NRMSModel.t) : Prop :=
  NRMSModel.embedding a = NRMSModel.embedding b /\
  NRMSModel.dropout a = NRMSModel.dropout b /\
  sa_up_to_verbose (NRMSModel.news_self_att a) (NRMSModel.news_self_att b) /\
  aa_up_to_verbose (NRMSModel.news_att a) (NRMSModel.news_att b) /\
  sa_up_to_verbose (NRMSModel.user_self_att a) (NRMSModel.user_self_att b) /\
  aa_up_to_verbose (NRMSModel.user_att a) (NRMSModel.user_att b).

(** ** Printing *)

(** On an object that satisfies [P] the method prints nothing, and leaves
    an object that satisfies [P]. *)
Definition silent {T A} (P : T -> Prop) (m : M T A) : Prop :=
  forall s, P (self s) ->
    P (self (snd (m s))) /\ stdout (world (snd (m s))) = stdout (world s).

Definition sa_quiet (a : SelfAttention.t) : Prop := SelfAttention.verbose a = false.

Definition aa_quiet (a : AdditiveAttention.t) : Prop := AdditiveAttention.verbose a = false.

(** [hparams.verbose] was off: the four sub-modules are quiet. *)
Definition nrms_quiet (a : NRMSModel.t) : Prop :=
  sa_quiet (NRMSModel.news_self_att a) /\ aa_quiet (NRMSModel.news_att a) /\
  sa_quiet (NRMSModel.user_self_att a) /\ aa_quiet (NRMSModel.user_att a).

(** ** Repeating a call *)

(** On the object [x] the method is a function of [x] alone: whatever the
    world, it returns the same outcome, leaves [x] as it is and does not
    touch the generator. *)
Definition pure_at {T A} (x : T) (m : M T A) : Prop :=
  exists r, forall w, exists out,
    m (mkState x w) = (r, mkState x (mkWorld (rng w) out)).

(** A call of [m] settles the object: the object it leaves extends the one
    it found, and the same call on that object, or (after a normal return)
    on any extension of it, returns the same outcome and changes the object
    no more.  [I] is what is assumed of the object, [le] is the extension
    order. *)
Definition settles {T A} (I : T -> Prop) (le : T -> T -> Prop) (m : M T A) : Prop :=
  forall s, I (self s) ->
    le (self s) (self (snd (m s))) /\
    forall x',
      match fst (m s) with
      | Ok _ => le (self (snd (m s))) x'
      | Raise _ => x' = self (snd (m s))
      end ->
      forall w',
        fst (m (mkState x' w')) = fst (m s) /\
        self (snd (m (mkState x' w'))) = x'.

(** [b] is [a], possibly with the three projections created. *)
Definition sa_extends (a b : SelfAttention.t) : Prop :=
  a = b \/
  (SelfAttention.WQ a = None /\ exists wq wk wv, b = with_projections a wq wk wv).

Definition sa_dropout_off (a : SelfAttention.t) : Prop :=
  dropout_off (SelfAttention.dropout a).

Definition aa_dropout_off (a : AdditiveAttention.t) : Prop :=
  dropout_off (AdditiveAttention.dropout a).

(** Dropout is switched off in the model and in its four sub-modules. *)
Definition nrms_dropout_off (a : NRMSModel.t) : Prop :=
  dropout_off (NRMSModel.dropout a) /\
  sa_dropout_off (NRMSModel.news_self_att a) /\
  aa_dropout_off (NRMSModel.news_att a) /\
  sa_dropout_off (NRMSModel.user_self_att a) /\
  aa_dropout_off (NRMSModel.user_att a).

(** [b] is [a], possibly with projections created in its self-attention
    sub-modules. *)
Definition nrms_extends (a b : NRMSModel.t) : Prop :=
  NRMSModel.embedding a = NRMSModel.embedding b /\
  NRMSModel.dropout a = NRMSModel.dropout b /\
  sa_extends (NRMSModel.news_self_att a) (NRMSModel.news_self_att b) /\
  NRMSModel.news_att a = NRMSModel.news_att b /\
  sa_extends (NRMSModel.user_self_att a) (NRMSModel.user_self_att b) /\
  NRMSModel.user_att a = NRMSModel.user_att b.

(** Run on the object [x], the method leaves [x] as it is. *)
Definition keeps_at {T A} (x : T) (m : M T A) : Prop :=
  forall w, self (snd (m (mkState x w))) = x.

(** ** A small concrete configuration *)

Module Example.

(** A generator that hands out zeros, and an empty standard output. *)
Definition gen : torch.Generator := torch.mkGenerator 0 (fun _ => 0%R).
Definition world0 : World := mkWorld gen [].

(** Dropout in evaluation mode. *)
Definition drop : Dropout.t := Dropout.mk 0%R false.

(** A fresh self-attention with one head of width one, quiet and verbose. *)
Definition sa : SelfAttention.t := SelfAttention.mk 1 1 1 None None None drop false.
Definition sa_verbose : SelfAttention.t :=
  SelfAttention.mk 1 1 1 None None None drop true.

(** An additive attention for features of width one, hidden width one. *)
Definition lin (with_bias : bool) : Linear.t := fst (Linear.new 1 1 with_bias gen).
Definition aa : AdditiveAttention.t := AdditiveAttention.mk (lin true) (lin false) drop false.
Definition aa_verbose : AdditiveAttention.t :=
  AdditiveAttention.mk (lin true) (lin false) drop true.

(** One sequence of one position of width one. *)
Definition x : Tensor R := mkTensor [1; 1; 1] [1%R].

(** A model over a vocabulary of two tokens with embeddings of width one. *)
Definition table : Tensor R := mkTensor [2; 1] [0%R; 1%R].
Definition model : NRMSModel.t := NRMSModel.mk table drop sa aa sa aa.
Definition model_verbose : NRMSModel.t :=
  NRMSModel.mk table drop sa_verbose aa_verbose sa_verbose aa_verbose.

(** One user with a history of one item of two tokens, and two candidates. *)
Definition history : Tensor Z := mkTensor [1; 1; 2] [0%Z; 1%Z].
Definition candidates : Tensor Z := mkTensor [1; 2; 2] [0%Z; 1%Z; 1%Z; 1%Z].

(** The scenario of the specification: batch 2, length 5, embedding width 8,
    two heads of width 4, hidden width 16; the verbose flag is on. *)
Definition scenario_x : Tensor R := mkTensor [2; 5; 8] (repeat 1%R 80).
Definition scenario_sa : SelfAttention.t :=
  SelfAttention.mk 2 4 8 None None None drop true.
Definition scenario_aa : AdditiveAttention.t :=
  AdditiveAttention.mk (fst (Linear.new 8 16 true gen))
                       (fst (Linear.new 16 1 false gen)) drop true.

(** The shape of a returned tensor, or the exception. *)
Definition shape_of {T} (r : Outcome (Tensor R) * State T) : list nat + Exn :=
  match fst r with
  | Ok t => inl (shape t)
  | Raise e => inr e
  end.

End Example.

(** ** Vocabulary for the model *)

(** Every token id lies inside a vocabulary of [V] tokens. *)
Definition ids_ok (V : nat) (ids : Tensor Z) : Prop :=
  Forall (fun i => (0 <= i < Z.of_nat V)%Z) (data ids).

(** The model holds an embedding table for [V] tokens of width [E], its
    item encoder works on width [E], its user encoder on the item vectors of
    width [H * D], and both additive attentions have hidden width [A]. *)
Definition nrms_ready (m : NRMSModel.t) (V E H D A : nat) : Prop :=
  shape (NRMSModel.embedding m) = [V; E] /\
  sa_ready (NRMSModel.news_self_att m) E H D /\
  aa_ready (NRMSModel.news_att m) (H * D) A /\
  sa_ready (NRMSModel.user_self_att m) (H * D) H D /\
  aa_ready (NRMSModel.user_att m) (H * D) A.

(** Row [n] of [X'] is row [rho n] of [X] with its positions rearranged by
    [pi n]. *)
Definition gathered3 (X' X : Tensor R) (B L K : nat)
                     (rho : nat -> nat) (pi : nat -> nat -> nat) : Prop :=
  forall n l k, n < B -> l < L -> k < K ->
    get 0%R X' [n; l; k] = get 0%R X [rho n; pi n l; k].

(** [p 0, ..., p (L-1)] is a rearrangement of [0, ..., L-1]. *)
Definition permutes (L : nat) (p : nat -> nat) : Prop :=
  Permutation (map p (seq 0 L)) (seq 0 L).

(** The item vectors the model computes at inference (dropout is the
    identity): embedding lookup, self-attention with the projections
    [wq], [wk], [wv], additive pooling. *)
Definition embed (table : Tensor R) (ids : Tensor Z) : Tensor R :=
  tabulate [nth 0 (shape ids) 0; nth 1 (shape ids) 0; nth 1 (shape table) 0]
    (fun idx => get 0%R table
                  [Z.to_nat (get 0%Z ids [nth 0 idx 0; nth 1 idx 0]); nth 2 idx 0]).

Definition attend (wq wk wv : Linear.t) (H D : nat) (X : Tensor R) : Tensor R :=
  SpecSelfAttention.combine wv H D (SpecSelfAttention.attn wq wk H D X X) X X.

Definition item_vectors (m : NRMSModel.t) (wq wk wv : Linear.t) (H D A : nat)
                        (ids : Tensor Z) : Tensor R :=
  SpecAdditiveAttention.pooled
    (AdditiveAttention.W (NRMSModel.news_att m))
    (AdditiveAttention.q (NRMSModel.news_att m)) (H * D) A
    (attend wq wk wv H D (embed (NRMSModel.embedding m) ids)).

(** The token ids of every sequence rearranged: position [l] of row [n]
    receives the token at position [pi n l]. *)
Definition permute_tokens (pi : nat -> nat -> nat) (ids : Tensor Z) : Tensor Z :=
  tabulate (shape ids)
    (fun idx => get 0%Z ids [nth 0 idx 0; pi (nth 0 idx 0) (nth 1 idx 0)]).

(** The candidates of every user rearranged: slot [c] receives candidate
    [sigma c]. *)
Definition permute_candidates (sigma : nat -> nat) (pred : Tensor Z) : Tensor Z :=
  tabulate (shape pred)
    (fun idx => get 0%Z pred [nth 0 idx 0; sigma (nth 1 idx 0); nth 2 idx 0]).

(** ** What a call may change *)

(** Whatever the state it starts in and whether it returns or raises, the
    method leaves an object that is related by [le] to the one it found. *)
Definition grows {T A} (le : T -> T -> Prop) (m : M T A) : Prop :=
  forall s, le (self s) (self (snd (m s))).

(** [b] is [a], possibly with the projections of the item self-attention
    created; the user encoder is the same. *)
Definition news_extends (a b : NRMSModel.t) : Prop :=
  nrms_extends a b /\ NRMSModel.user_self_att b = NRMSModel.user_self_att a.

(** ** A model whose projections exist *)

Module Settled.

Definition sa : SelfAttention.t :=
  with_projections Example.sa (Example.lin true) (Example.lin true) (Example.lin true).

Definition model : NRMSModel.t :=
  NRMSModel.mk Example.table Example.drop sa Example.aa sa Example.aa.

End Settled.

(** The projections of both self-attentions exist and dropout is off
    everywhere: the model as it is used at inference after a first call. *)
Definition nrms_settled (m : NRMSModel.t) : Prop :=
  SelfAttention.WQ (NRMSModel.news_self_att m) <> None /\
  SelfAttention.WQ (NRMSModel.user_self_att m) <> None /\
  nrms_dropout_off m.

(** The tensor of the given shape filled with zeros. *)
Definition zeros (sh : list nat) : Tensor R := tabulate sh (fun _ => 0%R).

(** ** The user vectors at inference *)

(** The item vectors [iv] of [N * Hh] items grouped by user: what
    [view(N, H, -1)] returns. *)
Definition regroup (N Hh F : nat) (iv : Tensor R) : Tensor R :=
  tabulate [N; Hh; F]
    (fun idx => get 0%R iv [nth 0 idx 0 * Hh + nth 1 idx 0; nth 2 idx 0]).

(** The user vectors the model computes at inference from the item vectors
    [iv] of the histories: self-attention over the items of each user with
    the projections [uq], [uk], [uv], then additive pooling. *)
Definition user_vectors (m : NRMSModel.t) (uq uk uv : Linear.t) (H D A N Hh : nat)
                        (iv : Tensor R) : Tensor R :=
  SpecAdditiveAttention.pooled
    (AdditiveAttention.W (NRMSModel.user_att m))
    (AdditiveAttention.q (NRMSModel.user_att m)) (H * D) A
    (attend uq uk uv H D (regroup N Hh (H * D) iv)).

(** The items of every history rearranged: slot [h] of user [n] receives
    item [sigma n h]. *)
Definition permute_history (sigma : nat -> nat -> nat) (his : Tensor Z) : Tensor Z :=
  tabulate (shape his)
    (fun idx => get 0%Z his [nth 0 idx 0; sigma (nth 0 idx 0) (nth 1 idx 0); nth 2 idx 0]).

(** ** What the verbose mode prints *)

(** The lines [SelfAttention.forward] prints on inputs of [N] sequences of
    length [L], with [H] heads of width [D]. *)
Definition sa_lines (N L H D : nat) : list string :=
  [ "Q shape: " ++ show_Size [N; H; L; D];
    "K shape: " ++ show_Size [N; H; L; D];
    "V shape: " ++ show_Size [N; H; L; D];
    "Attention shape: " ++ show_Size [N; H; L; L];
    "Output shape: " ++ show_Size [N; L; H * D] ]%string.

(** The lines [AdditiveAttention.forward] prints on an input of shape
    [N x L x F]. *)
Definition aa_lines (N L F : nat) : list string :=
  [ "Attention weights shape: " ++ show_Size [N; L; 1];
    "Input shape: " ++ show_Size [N; L; F];
    "Output shape: " ++ show_Size [N; F] ]%string.

(** The positions of every sequence rearranged: position [l] of sequence
    [n] receives the row at position [pi n l]. *)
Definition permute_positions (pi : nat -> nat -> nat) (X : Tensor R) : Tensor R :=
  tabulate (shape X)
    (fun idx => get 0%R X [nth 0 idx 0; pi (nth 0 idx 0) (nth 1 idx 0); nth 2 idx 0]).

(** ** A configuration in training mode *)

Module Training.

(** Dropout with probability one half, switched on. *)
Definition drop : Dropout.t := Dropout.mk (1 / 2)%R true.

(** A generator whose draw number 6 is 1 and whose other draws are 1/4:
    the six weights of three fresh projections of width one are 1/4, the
    draw after them makes dropout drop, every other draw makes it keep. *)
Definition gen : torch.Generator :=
  torch.mkGenerator 0 (fun k => if k =? 6 then 1%R else (1 / 4)%R).

(** A fresh self-attention and one that holds its projections. *)
Definition sa : SelfAttention.t := SelfAttention.mk 1 1 1 None None None drop false.
Definition sa_settled : SelfAttention.t :=
  with_projections sa (Example.lin true) (Example.lin true) (Example.lin true).

Definition aa : AdditiveAttention.t :=
  AdditiveAttention.mk (Example.lin true) (Example.lin false) drop false.

(** A model whose projections exist, with dropout on everywhere. *)
Definition model : NRMSModel.t :=
  NRMSModel.mk Example.table drop sa_settled aa sa_settled aa.

End Training.

(** * Properties *)

(** ** Indexing lemmas *)

Lemma in_bounds_length sh : forall idx, in_bounds sh idx -> length idx = length sh.
Proof.
  induction sh as [|d ds IH]; intros [|i js] H; simpl in *; try tauto.
  f_equal. apply IH. tauto.
Qed.

Lemma ravel_lt sh : forall idx, in_bounds sh idx -> ravel sh idx < numel sh.
Proof.
  induction sh as [|d ds IH]; intros [|i js] H; simpl in *; try tauto; try lia.
  destruct H as [Hi Hjs]. specialize (IH _ Hjs). nia.
Qed.

Lemma unravel_ravel sh : forall idx, in_bounds sh idx -> unravel sh (ravel sh idx) = idx.
Proof.
  induction sh as [|d ds IH]; intros [|i js] H; simpl in *; try tauto.
  destruct H as [Hi Hjs].
  pose proof (ravel_lt _ _ Hjs) as Hlt.
  assert (Hq : (i * numel ds + ravel ds js) / numel ds = i).
  { rewrite Nat.add_comm, Nat.div_add by lia. rewrite Nat.div_small by lia. lia. }
  assert (Hr : (i * numel ds + ravel ds js) mod numel ds = ravel ds js).
  { rewrite Nat.add_comm, Nat.Div0.mod_add. apply Nat.mod_small; lia. }
  rewrite Hq, Hr, IH by assumption. reflexivity.
Qed.

Lemma unravel_in_bounds sh : forall k, k < numel sh -> in_bounds sh (unravel sh k).
Proof.
  induction sh as [|d ds IH]; intros k H; simpl in *; [exact I|].
  assert (Hpos : 0 < numel ds) by nia.
  split.
  - apply Nat.Div0.div_lt_upper_bound. lia.
  - apply IH. apply Nat.mod_upper_bound. lia.
Qed.

Lemma ravel_unravel sh : forall k, k < numel sh -> ravel sh (unravel sh k) = k.
Proof.
  induction sh as [|d ds IH]; intros k H; simpl in *; [lia|].
  assert (Hpos : 0 < numel ds) by nia.
  rewrite IH by (apply Nat.mod_upper_bound; lia).
  pose proof (Nat.div_mod_eq k (numel ds)). lia.
Qed.

Lemma wf_tabulate {A} sh (f : list nat -> A) : wf (tabulate sh f).
Proof. unfold wf, tabulate; simpl. now rewrite length_map, length_seq. Qed.

Lemma shape_tabulate {A} sh (f : list nat -> A) : shape (tabulate sh f) = sh.
Proof. reflexivity. Qed.

Lemma get_tabulate {A} (d : A) sh f idx :
  in_bounds sh idx -> get d (tabulate sh f) idx = f idx.
Proof.
  intros H. unfold get, tabulate; simpl.
  pose proof (ravel_lt _ _ H) as Hlt.
  rewrite nth_indep with (d' := f (unravel sh 0)) by (now rewrite length_map, length_seq).
  rewrite (map_nth (fun k => f (unravel sh k))), seq_nth by assumption.
  simpl. now rewrite unravel_ravel.
Qed.

Lemma tensor_ext {A} (d : A) (t1 t2 : Tensor A) :
  wf t1 -> wf t2 -> shape t1 = shape t2 ->
  (forall idx, in_bounds (shape t1) idx -> get d t1 idx = get d t2 idx) ->
  t1 = t2.
Proof.
  destruct t1 as [s1 d1], t2 as [s2 d2]; unfold wf, get; simpl.
  intros W1 W2 -> H. f_equal.
  apply nth_ext with (d := d) (d' := d); [congruence|].
  intros k Hk. rewrite W1 in Hk.
  specialize (H _ (unravel_in_bounds _ _ Hk)).
  now rewrite ravel_unravel in H.
Qed.

(** ** Sums *)

Lemma rsum_ext n f g : (forall k, k < n -> f k = g k) -> torch.rsum n f = torch.rsum n g.
Proof.
  induction n as [|n IH]; intros H; simpl; [reflexivity|].
  rewrite IH by (intros; apply H; lia). rewrite H by lia. reflexivity.
Qed.

(** ** Tensors given by their entries *)

Lemma tensor4_tabulate {A} (d : A) a b c e F :
  tensor4 d (tabulate [a; b; c; e] F) a b c e (fun i j k l => F [i; j; k; l]).
Proof.
  split; [reflexivity|]. split; [apply wf_tabulate|].
  intros i j k l Hi Hj Hk Hl. rewrite get_tabulate; [reflexivity|].
  simpl; tauto.
Qed.

Lemma tensor3_tabulate {A} (d : A) a b c F :
  tensor3 d (tabulate [a; b; c] F) a b c (fun i j k => F [i; j; k]).
Proof.
  split; [reflexivity|]. split; [apply wf_tabulate|].
  intros i j k Hi Hj Hk. rewrite get_tabulate; [reflexivity|].
  simpl; tauto.
Qed.

Lemma tensor2_tabulate {A} (d : A) a b F :
  tensor2 d (tabulate [a; b] F) a b (fun i j => F [i; j]).
Proof.
  split; [reflexivity|]. split; [apply wf_tabulate|].
  intros i j Hi Hj. rewrite get_tabulate; [reflexivity|].
  simpl; tauto.
Qed.

Lemma in_bounds4 a b c e idx :
  in_bounds [a; b; c; e] idx ->
  exists i j k l, idx = [i; j; k; l] /\ i < a /\ j < b /\ k < c /\ l < e.
Proof.
  destruct idx as [|i [|j [|k [|l [|x r]]]]]; simpl; try tauto.
  intros H. exists i, j, k, l. tauto.
Qed.

Lemma in_bounds3 a b c idx :
  in_bounds [a; b; c] idx -> exists i j k, idx = [i; j; k] /\ i < a /\ j < b /\ k < c.
Proof.
  destruct idx as [|i [|j [|k [|x r]]]]; simpl; try tauto.
  intros H. exists i, j, k. tauto.
Qed.

Lemma in_bounds2 a b idx :
  in_bounds [a; b] idx -> exists i j, idx = [i; j] /\ i < a /\ j < b.
Proof.
  destruct idx as [|i [|j [|x r]]]; simpl; try tauto.
  intros H. exists i, j. tauto.
Qed.

Lemma tensor4_unique {A} (d : A) t1 t2 a b c e f g :
  tensor4 d t1 a b c e f -> tensor4 d t2 a b c e g ->
  (forall i j k l, i < a -> j < b -> k < c -> l < e -> f i j k l = g i j k l) ->
  t1 = t2.
Proof.
  intros (S1 & W1 & G1) (S2 & W2 & G2) Hfg.
  apply tensor_ext with (d := d); try assumption; [congruence|].
  intros idx Hb. rewrite S1 in Hb.
  destruct (in_bounds4 _ _ _ _ _ Hb) as (i & j & k & l & -> & Hi & Hj & Hk & Hl).
  rewrite G1, G2 by assumption. auto.
Qed.

Lemma tensor3_unique {A} (d : A) t1 t2 a b c f g :
  tensor3 d t1 a b c f -> tensor3 d t2 a b c g ->
  (forall i j k, i < a -> j < b -> k < c -> f i j k = g i j k) ->
  t1 = t2.
Proof.
  intros (S1 & W1 & G1) (S2 & W2 & G2) Hfg.
  apply tensor_ext with (d := d); try assumption; [congruence|].
  intros idx Hb. rewrite S1 in Hb.
  destruct (in_bounds3 _ _ _ _ Hb) as (i & j & k & -> & Hi & Hj & Hk).
  rewrite G1, G2 by assumption. auto.
Qed.

Lemma tensor2_unique {A} (d : A) t1 t2 a b f g :
  tensor2 d t1 a b f -> tensor2 d t2 a b g ->
  (forall i j, i < a -> j < b -> f i j = g i j) ->
  t1 = t2.
Proof.
  intros (S1 & W1 & G1) (S2 & W2 & G2) Hfg.
  apply tensor_ext with (d := d); try assumption; [congruence|].
  intros idx Hb. rewrite S1 in Hb.
  destruct (in_bounds2 _ _ _ Hb) as (i & j & -> & Hi & Hj).
  rewrite G1, G2 by assumption. auto.
Qed.

Lemma tensor4_ext {A} (d : A) t a b c e f g :
  tensor4 d t a b c e f ->
  (forall i j k l, i < a -> j < b -> k < c -> l < e -> f i j k l = g i j k l) ->
  tensor4 d t a b c e g.
Proof.
  intros (S1 & W1 & G1) H. repeat split; try assumption.
  intros. rewrite G1 by assumption. auto.
Qed.

Lemma tensor3_ext {A} (d : A) t a b c f g :
  tensor3 d t a b c f ->
  (forall i j k, i < a -> j < b -> k < c -> f i j k = g i j k) ->
  tensor3 d t a b c g.
Proof.
  intros (S1 & W1 & G1) H. repeat split; try assumption.
  intros. rewrite G1 by assumption. auto.
Qed.

Lemma tensor2_ext {A} (d : A) t a b f g :
  tensor2 d t a b f ->
  (forall i j, i < a -> j < b -> f i j = g i j) ->
  tensor2 d t a b g.
Proof.
  intros (S1 & W1 & G1) H. repeat split; try assumption.
  intros. rewrite G1 by assumption. auto.
Qed.

(** ** Contracts of the tensor operations at the ranks the model uses *)

Lemma Linear_forward_3 l {x N L E f} :
  tensor3 0%R x N L E f -> Linear.in_features l = E ->
  exists y, Linear.forward l x = Ok y /\
    tensor3 0%R y N L (Linear.out_features l)
      (fun n i o => (torch.rsum E (fun k => f n i k * w_at l o k) + b_at l o)%R).
Proof.
  intros (Sx & Wx & Gx) HE. unfold Linear.forward. rewrite Sx. simpl.
  rewrite HE, Nat.eqb_refl. eexists; split; [reflexivity|].
  split; [reflexivity|]. split; [apply wf_tabulate|].
  intros n i o Hn Hi Ho. rewrite get_tabulate by (simpl; tauto).
  simpl. f_equal. apply rsum_ext. intros k Hk. rewrite Gx by assumption. reflexivity.
Qed.

Lemma view_split {t : Tensor R} {N L H D f} :
  tensor3 0%R t N L (H * D) f ->
  exists y, torch.view t [N; L; H; D] = Ok y /\
    tensor4 0%R y N L H D (fun n l h d => f n l (h * D + d)).
Proof.
  intros (St & Wt & Gt). unfold torch.view. rewrite St.
  assert (E : numel [N; L; H; D] = numel [N; L; H * D]) by (simpl; ring).
  rewrite E, Nat.eqb_refl. eexists; split; [reflexivity|].
  split; [reflexivity|]. split.
  - unfold wf in *. simpl shape. simpl data. rewrite Wt, St. symmetry. exact E.
  - intros n l h d Hn Hl Hh Hd. rewrite <- Gt by (try assumption; nia).
    unfold get. rewrite St. simpl. f_equal. ring.
Qed.

Lemma view_merge {t : Tensor R} {N L H D F f} :
  tensor4 0%R t N L H D f -> F = H * D ->
  exists y, torch.view (torch.contiguous t) [N; L; F] = Ok y /\
    tensor3 0%R y N L F (fun n l c => f n l (c / D) (c mod D)).
Proof.
  intros (St & Wt & Gt) ->. unfold torch.view, torch.contiguous. rewrite St.
  assert (E : numel [N; L; H * D] = numel [N; L; H; D]) by (simpl; ring).
  rewrite E, Nat.eqb_refl. eexists; split; [reflexivity|].
  split; [reflexivity|]. split.
  - unfold wf in *. simpl shape. simpl data. rewrite Wt, St. symmetry. exact E.
  - intros n l c Hn Hl Hc.
    assert (HD : D <> 0) by (intros ->; lia).
    rewrite <- Gt; try assumption.
    + unfold get. rewrite St. simpl. f_equal.
      pose proof (Nat.div_mod_eq c D). nia.
    + apply Nat.Div0.div_lt_upper_bound. lia.
    + apply Nat.mod_upper_bound. assumption.
Qed.

Lemma transpose_1_2 {t : Tensor R} {a b c e f} :
  tensor4 0%R t a b c e f ->
  exists y, torch.transpose 0%R t 1 2 = Ok y /\
    tensor4 0%R y a c b e (fun i j k l => f i k j l).
Proof.
  intros (St & Wt & Gt). unfold torch.transpose. rewrite St. simpl.
  eexists; split; [reflexivity|].
  split; [reflexivity|]. split; [apply wf_tabulate|].
  intros i j k l Hi Hj Hk Hl. rewrite get_tabulate by (simpl; tauto).
  simpl. apply Gt; assumption.
Qed.

Lemma transpose_m2_m1 {t : Tensor R} {a b c e f} :
  tensor4 0%R t a b c e f ->
  exists y, torch.transpose 0%R t (-2) (-1) = Ok y /\
    tensor4 0%R y a b e c (fun i j k l => f i j l k).
Proof.
  intros (St & Wt & Gt). unfold torch.transpose. rewrite St. simpl.
  eexists; split; [reflexivity|].
  split; [reflexivity|]. split; [apply wf_tabulate|].
  intros i j k l Hi Hj Hk Hl. rewrite get_tabulate by (simpl; tauto).
  simpl. apply Gt; assumption.
Qed.

Lemma matmul_4 {x y : Tensor R} {a b n m p f g} :
  tensor4 0%R x a b n m f -> tensor4 0%R y a b m p g ->
  exists z, torch.matmul x y = Ok z /\
    tensor4 0%R z a b n p
      (fun i j r c => torch.rsum m (fun k => f i j r k * g i j k c)%R).
Proof.
  intros (Sx & Wx & Gx) (Sy & Wy & Gy). unfold torch.matmul. rewrite Sx, Sy. simpl.
  rewrite !Nat.eqb_refl. simpl.
  eexists; split; [reflexivity|].
  split; [reflexivity|]. split; [apply wf_tabulate|].
  intros i j r c Hi Hj Hr Hc. rewrite get_tabulate by (simpl; tauto).
  simpl. apply rsum_ext. intros k Hk.
  rewrite Gx, Gy by assumption. reflexivity.
Qed.

Lemma get_tmap (h : R -> R) (t : Tensor R) idx :
  h 0%R = 0%R -> get 0%R (tmap h t) idx = h (get 0%R t idx).
Proof.
  intros H0. unfold get, tmap. simpl.
  rewrite <- H0 at 1. apply map_nth.
Qed.

Lemma wf_tmap {A B} (h : A -> B) (t : Tensor A) : wf t -> wf (tmap h t).
Proof. unfold wf, tmap. simpl. now rewrite length_map. Qed.

Lemma div_scalar_4 {t : Tensor R} {a b c e f} s :
  tensor4 0%R t a b c e f ->
  tensor4 0%R (torch.div_scalar t s) a b c e (fun i j k l => (f i j k l / s)%R).
Proof.
  intros (St & Wt & Gt). split; [exact St|]. split; [now apply wf_tmap|].
  intros i j k l Hi Hj Hk Hl. unfold torch.div_scalar.
  rewrite get_tmap by (unfold Rdiv; ring). now rewrite Gt.
Qed.

Lemma softmax_last_4 {t : Tensor R} {a b c e f} :
  tensor4 0%R t a b c e f ->
  exists y, torch.softmax t (-1) = Ok y /\
    tensor4 0%R y a b c e
      (fun i j k l => (exp (f i j k l) / torch.rsum e (fun l' => exp (f i j k l')))%R).
Proof.
  intros (St & Wt & Gt). unfold torch.softmax. rewrite St. simpl.
  eexists; split; [reflexivity|].
  split; [reflexivity|]. split; [apply wf_tabulate|].
  intros i j k l Hi Hj Hk Hl. rewrite get_tabulate by (simpl; tauto).
  simpl. rewrite Gt by assumption.
  rewrite (rsum_ext e (fun j0 => exp (get 0%R t [i; j; k; j0]))
                      (fun l' => exp (f i j k l'))); [reflexivity|].
  intros l' Hl'. now rewrite Gt.
Qed.

(** Dropout keeps the shape, and is the identity when switched off. *)
Lemma Dropout_forward_off dr x g :
  dropout_off dr -> Dropout.forward dr x g = (x, g).
Proof.
  intros [H|H]; unfold Dropout.forward.
  - now rewrite H.
  - destruct (Dropout.training dr); [|reflexivity].
    destruct (Req_EM_T (Dropout.p dr) 0); [reflexivity|contradiction].
Qed.

Lemma Dropout_forward_shape dr x g :
  wf x ->
  shape (fst (Dropout.forward dr x g)) = shape x /\ wf (fst (Dropout.forward dr x g)).
Proof.
  intros Wx. unfold Dropout.forward.
  destruct (Dropout.training dr); [|now split].
  destruct (Req_EM_T (Dropout.p dr) 0); [now split|].
  destruct (numel (shape x) =? 0); [now split|].
  destruct (Req_EM_T (Dropout.p dr) 1).
  - split; [reflexivity|]. now apply wf_tmap.
  - simpl. split; [reflexivity|]. unfold wf in *. simpl.
    rewrite length_map, length_combine, length_map, length_seq.
    rewrite Nat.min_id. exact Wx.
Qed.

(** ** Running a method step by step *)

Lemma bind_ok {T A B} {m : M T A} (k : A -> M T B) {s a s'} :
  m s = (Ok a, s') -> bind m k s = k a s'.
Proof. intros H. unfold bind. now rewrite H. Qed.

Lemma bind_raise {T A B} {m : M T A} (k : A -> M T B) {s e s'} :
  m s = (Raise e, s') -> bind m k s = (Raise e, s').
Proof. intros H. unfold bind. now rewrite H. Qed.

Lemma bind_lift_ok {T A B} {o : Outcome A} (k : A -> M T B) s {a} :
  o = Ok a -> bind (lift o) k s = k a s.
Proof. intros ->. reflexivity. Qed.

Lemma bind_ret {T A B} (a : A) (k : A -> M T B) s : bind (ret a) k s = k a s.
Proof. reflexivity. Qed.

Lemma bind_get_self {T B} (k : T -> M T B) s : bind get_self k s = k (self s) s.
Proof. reflexivity. Qed.

(** ** SelfAttention.forward *)

Lemma size_at_last_3 {A} (t : Tensor A) a b c :
  shape t = [a; b; c] -> torch.size_at t (-1) = Ok c.
Proof. intros H. unfold torch.size_at. rewrite H. reflexivity. Qed.

Lemma attention_lazy_init Q_seq K_seq V_seq s E wq wk wv g3 :
  SelfAttention.WQ (self s) = None ->
  torch.size_at Q_seq (-1) = Ok E ->
  projections (self s) E (rng (world s)) = Some (wq, wk, wv, g3) ->
  SelfAttention.attention Q_seq K_seq V_seq s =
  SelfAttention.attention Q_seq K_seq V_seq
    (mkState (with_projections (self s) wq wk wv) (mkWorld g3 (stdout (world s)))).
Proof.
  intros HW HS HP. unfold projections in HP. rewrite HW in HP.
  unfold SelfAttention.attention.
  rewrite !bind_get_self. cbn [self]. rewrite HW.
  erewrite bind_ok.
  2:{ rewrite (bind_lift_ok _ _ HS).
      unfold bind, with_rng, modify. cbn -[Nat.mul].
      injection HP as <- <- <- <-. reflexivity. }
  reflexivity.
Qed.

Lemma bind_print {T B} line (k : unit -> M T B) s :
  bind (print line) k s =
  k tt (mkState (self s) (mkWorld (rng (world s)) (stdout (world s) ++ [line]))).
Proof. reflexivity. Qed.

Lemma tensor3_self {t : Tensor R} {a b c} :
  shape t = [a; b; c] -> wf t -> tensor3 0%R t a b c (fun i j k => get 0%R t [i; j; k]).
Proof. intros S W. repeat split; auto. Qed.

Ltac run_op C :=
  let y := fresh "y" in
  let Hy := fresh "Hy" in
  let Ty := fresh "Ty" in
  destruct C as (y & Hy & Ty); rewrite (bind_lift_ok _ _ Hy).

(** Lines 22-44 on an object that holds its projections. *)
Lemma attention_ready Q_seq K_seq V_seq s {N L E H D wq wk wv} :
  SelfAttention.WQ (self s) = Some wq ->
  SelfAttention.WK (self s) = Some wk ->
  SelfAttention.WV (self s) = Some wv ->
  linear_dims wq E (H * D) -> linear_dims wk E (H * D) -> linear_dims wv E (H * D) ->
  SelfAttention.head_num (self s) = H -> SelfAttention.head_dim (self s) = D ->
  shape Q_seq = [N; L; E] -> wf Q_seq ->
  shape K_seq = [N; L; E] -> wf K_seq ->
  shape V_seq = [N; L; E] -> wf V_seq ->
  exists Vh s1,
    SelfAttention.attention Q_seq K_seq V_seq s
    = (Ok (SpecSelfAttention.attn wq wk H D Q_seq K_seq, Vh, N, L), s1) /\
    tensor4 0%R Vh N H L D
      (SpecSelfAttention.head D (SpecSelfAttention.project wv E V_seq)) /\
    self s1 = self s /\ rng (world s1) = rng (world s).
Proof.
  intros HWQ HWK HWV [Iq Oq] [Ik Ok_] [Iv Ov] HH HD SQ WfQ SK WfK SV WfV.
  unfold SelfAttention.attention.
  rewrite bind_get_self, HWQ, bind_ret, bind_get_self, HWQ, HWK, HWV.
  cbn [call]. rewrite HH, HD.
  run_op (Linear_forward_3 wq (tensor3_self SQ WfQ) Iq).
  run_op (Linear_forward_3 wk (tensor3_self SK WfK) Ik).
  run_op (Linear_forward_3 wv (tensor3_self SV WfV) Iv).
  rewrite Oq in Ty. rewrite Ok_ in Ty0. rewrite Ov in Ty1.
  assert (U : unpack3 (torch.size y) = Ok (N, L, H * D)).
  { unfold torch.size. destruct Ty as (-> & _). reflexivity. }
  rewrite (bind_lift_ok _ _ U).
  run_op (view_split Ty). run_op (transpose_1_2 Ty2).
  run_op (view_split Ty0). run_op (transpose_1_2 Ty4).
  run_op (view_split Ty1). run_op (transpose_1_2 Ty6).
  assert (P : forall s0 : State SelfAttention.t, exists s1,
    (if SelfAttention.verbose (self s)
     then print ("Q shape: " ++ show_Size (shape y3)) ;;
          print ("K shape: " ++ show_Size (shape y5)) ;;
          print ("V shape: " ++ show_Size (shape y7))
     else ret tt) s0 = (Ok tt, s1) /\ self s1 = self s0 /\
    rng (world s1) = rng (world s0)).
  { intros s0. destruct (SelfAttention.verbose (self s)).
    - eexists. rewrite !bind_print. unfold print. cbn. repeat split.
    - eexists. unfold ret. repeat split. }
  destruct (P s) as (s1 & Ps & Pself & Prng).
  rewrite (bind_ok _ Ps).
  run_op (transpose_m2_m1 Ty5).
  run_op (matmul_4 Ty3 Ty8).
  pose proof (div_scalar_4 (sqrt (INR D)) Ty9) as Tsc.
  run_op (softmax_last_4 Tsc).
  assert (Ha : y10 = SpecSelfAttention.attn wq wk H D Q_seq K_seq).
  { unfold SpecSelfAttention.attn. rewrite SQ. cbn [nth].
    eapply tensor4_unique; [exact Ty10 | apply tensor4_tabulate |].
    intros i j k l Hi Hj Hk Hl. reflexivity. }
  subst y10. exists y7, s1. unfold ret.
  split; [reflexivity|]. split; [exact Ty7|]. split; congruence.
Qed.

Lemma bind_with_rng {T A B} (f : torch.Generator -> A * torch.Generator)
      (k : A -> M T B) s :
  bind (with_rng f) k s =
  k (fst (f (rng (world s))))
    (mkState (self s) (mkWorld (snd (f (rng (world s)))) (stdout (world s)))).
Proof. unfold bind, with_rng. destruct (f (rng (world s))). reflexivity. Qed.

Lemma tensor4_self {t : Tensor R} {a b c e} :
  shape t = [a; b; c; e] -> wf t ->
  tensor4 0%R t a b c e (fun i j k l => get 0%R t [i; j; k; l]).
Proof. intros S W. repeat split; auto. Qed.

Lemma with_projections_id self wq wk wv :
  SelfAttention.WQ self = Some wq -> SelfAttention.WK self = Some wk ->
  SelfAttention.WV self = Some wv -> with_projections self wq wk wv = self.
Proof. destruct self; simpl; intros -> -> ->; reflexivity. Qed.

Lemma wf_spec_attn wq wk H D Q K : wf (SpecSelfAttention.attn wq wk H D Q K).
Proof. apply wf_tabulate. Qed.

(** [forward] on an object that holds its projections. *)
Lemma forward_ready Q_seq K_seq V_seq s {N L E H D wq wk wv} :
  SelfAttention.WQ (self s) = Some wq ->
  SelfAttention.WK (self s) = Some wk ->
  SelfAttention.WV (self s) = Some wv ->
  linear_dims wq E (H * D) -> linear_dims wk E (H * D) -> linear_dims wv E (H * D) ->
  SelfAttention.head_num (self s) = H -> SelfAttention.head_dim (self s) = D ->
  SelfAttention.output_dim (self s) = H * D ->
  shape Q_seq = [N; L; E] -> wf Q_seq ->
  shape K_seq = [N; L; E] -> wf K_seq ->
  shape V_seq = [N; L; E] -> wf V_seq ->
  exists s',
    SelfAttention.forward Q_seq K_seq V_seq s
    = (Ok (SpecSelfAttention.encode wq wk wv H D (SelfAttention.dropout (self s))
             (rng (world s)) Q_seq K_seq V_seq), s') /\
    self s' = self s /\
    rng (world s') =
      snd (Dropout.forward (SelfAttention.dropout (self s))
             (SpecSelfAttention.attn wq wk H D Q_seq K_seq) (rng (world s))).
Proof.
  intros HWQ HWK HWV Lq Lk Lv HH HD HO SQ WfQ SK WfK SV WfV.
  destruct (attention_ready Q_seq K_seq V_seq s HWQ HWK HWV Lq Lk Lv HH HD
              SQ WfQ SK WfK SV WfV) as (Vh & s1 & Hatt & TV & Hself & Hrng).
  unfold SelfAttention.forward.
  rewrite (bind_ok _ Hatt). cbv beta iota.
  rewrite bind_get_self, bind_with_rng. cbn [self world rng stdout].
  rewrite Hself, Hrng.
  set (attn := SpecSelfAttention.attn wq wk H D Q_seq K_seq).
  set (dr := SelfAttention.dropout (self s)).
  set (g := rng (world s)).
  destruct (Dropout_forward_shape dr attn g (wf_spec_attn _ _ _ _ _ _)) as [Sd Wd].
  assert (Sa : shape attn = [N; H; L; L]).
  { unfold attn, SpecSelfAttention.attn. rewrite SQ. reflexivity. }
  rewrite Sa in Sd.
  run_op (matmul_4 (tensor4_self Sd Wd) TV).
  run_op (transpose_1_2 Ty).
  rewrite HO.
  run_op (view_merge Ty0 eq_refl).
  assert (Hout : y1 = SpecSelfAttention.encode wq wk wv H D dr g Q_seq K_seq V_seq).
  { unfold SpecSelfAttention.encode, SpecSelfAttention.combine. rewrite SQ.
    cbn [nth]. fold attn.
    eapply tensor3_unique; [exact Ty1 | apply tensor3_tabulate |].
    intros n i c Hn Hi Hc. reflexivity. }
  subst y1.
  destruct (SelfAttention.verbose (self s)); unfold bind, print, ret; cbn;
    eexists; (split; [reflexivity|]); cbn; (split; [first [assumption|reflexivity]|reflexivity]).
Qed.

Lemma forward_lazy_init Q_seq K_seq V_seq s E wq wk wv g3 :
  SelfAttention.WQ (self s) = None ->
  torch.size_at Q_seq (-1) = Ok E ->
  projections (self s) E (rng (world s)) = Some (wq, wk, wv, g3) ->
  SelfAttention.forward Q_seq K_seq V_seq s =
  SelfAttention.forward Q_seq K_seq V_seq
    (mkState (with_projections (self s) wq wk wv) (mkWorld g3 (stdout (world s)))).
Proof.
  intros HW HS HP. unfold SelfAttention.forward, bind.
  rewrite (attention_lazy_init Q_seq K_seq V_seq s E wq wk wv g3 HW HS HP).
  reflexivity.
Qed.

Lemma Linear_new_dims E F b g : linear_dims (fst (Linear.new E F b g)) E F.
Proof. unfold Linear.new. destruct b; cbn; split; reflexivity. Qed.

Lemma projections_fresh self E g :
  SelfAttention.WQ self = None ->
  exists wq wk wv g3,
    projections self E g = Some (wq, wk, wv, g3) /\
    linear_dims wq E (SelfAttention.output_dim self) /\
    linear_dims wk E (SelfAttention.output_dim self) /\
    linear_dims wv E (SelfAttention.output_dim self).
Proof.
  intros HW. unfold projections. rewrite HW.
  pose proof (Linear_new_dims E (SelfAttention.output_dim self) true g) as D1.
  destruct (Linear.new E (SelfAttention.output_dim self) true g) as [wq g1].
  pose proof (Linear_new_dims E (SelfAttention.output_dim self) true g1) as D2.
  destruct (Linear.new E (SelfAttention.output_dim self) true g1) as [wk g2].
  pose proof (Linear_new_dims E (SelfAttention.output_dim self) true g2) as D3.
  destruct (Linear.new E (SelfAttention.output_dim self) true g2) as [wv g3].
  exists wq, wk, wv, g3. auto.
Qed.

Lemma sa_ready_with_projections self E H D wq wk wv :
  sa_ready self E H D ->
  linear_dims wq E (H * D) -> linear_dims wk E (H * D) -> linear_dims wv E (H * D) ->
  sa_ready (with_projections self wq wk wv) E H D.
Proof.
  intros (HH & HD & HO & _) Lq Lk Lv. destruct self; cbn in *.
  repeat split; try assumption. exists wk, wv. auto.
Qed.

(** [forward] on a fresh or initialised object: the result is the
    specification's [encode] with the projections in force. *)
Lemma forward_run Q_seq K_seq V_seq s N L E H D :
  sa_ready (self s) E H D ->
  shape Q_seq = [N; L; E] -> wf Q_seq ->
  shape K_seq = [N; L; E] -> wf K_seq ->
  shape V_seq = [N; L; E] -> wf V_seq ->
  exists wq wk wv g0 s',
    projections (self s) E (rng (world s)) = Some (wq, wk, wv, g0) /\
    SelfAttention.forward Q_seq K_seq V_seq s
    = (Ok (SpecSelfAttention.encode wq wk wv H D (SelfAttention.dropout (self s))
             g0 Q_seq K_seq V_seq), s') /\
    self s' = with_projections (self s) wq wk wv /\
    rng (world s') =
      snd (Dropout.forward (SelfAttention.dropout (self s))
             (SpecSelfAttention.attn wq wk H D Q_seq K_seq) g0) /\
    sa_ready (self s') E H D.
Proof.
  intros Hr SQ WfQ SK WfK SV WfV.
  pose proof Hr as (HH & HD & HO & HW).
  destruct (SelfAttention.WQ (self s)) as [wq|] eqn:EWQ.
  - destruct HW as (wk & wv & EWK & EWV & Lq & Lk & Lv).
    destruct (forward_ready Q_seq K_seq V_seq s EWQ EWK EWV Lq Lk Lv HH HD HO
                SQ WfQ SK WfK SV WfV) as (s' & Hf & Hs & Hg).
    exists wq, wk, wv, (rng (world s)), s'.
    assert (Hid : with_projections (self s) wq wk wv = self s)
      by (now apply with_projections_id).
    repeat split.
    + unfold projections. now rewrite EWQ, EWK, EWV.
    + exact Hf.
    + now rewrite Hid.
    + exact Hg.
    + now rewrite Hs.
    + now rewrite Hs.
    + now rewrite Hs.
    + rewrite Hs, EWQ. exists wk, wv. auto.
  - destruct (projections_fresh (self s) E (rng (world s)) EWQ)
      as (wq & wk & wv & g3 & HP & Lq & Lk & Lv).
    rewrite HO in Lq, Lk, Lv.
    rewrite (forward_lazy_init Q_seq K_seq V_seq s E wq wk wv g3 EWQ
               (size_at_last_3 Q_seq N L E SQ) HP).
    set (s0 := mkState (with_projections (self s) wq wk wv)
                       (mkWorld g3 (stdout (world s)))).
    pose proof (sa_ready_with_projections (self s) E H D wq wk wv Hr Lq Lk Lv) as Hr0.
    assert (D0 : SelfAttention.dropout (self s0) = SelfAttention.dropout (self s))
      by (destruct s as [[] ?]; reflexivity).
    destruct (forward_ready Q_seq K_seq V_seq s0 (wq := wq) (wk := wk) (wv := wv)
                (H := H) (D := D) (E := E) (N := N) (L := L))
      as (s' & Hf & Hs & Hg);
      try assumption; try (destruct s as [[] ?]; cbn in *; first [reflexivity|assumption]).
    rewrite D0 in Hf, Hg.
    exists wq, wk, wv, g3, s'. split; [exact HP|]. split; [exact Hf|].
    split; [exact Hs|]. split; [exact Hg|]. rewrite Hs. exact Hr0.
Qed.

(** ** Contracts of the operations of AdditiveAttention and of the scorer *)

Lemma tanh_0 : Rtrigo_def.tanh 0 = 0%R.
Proof. unfold Rtrigo_def.tanh. rewrite sinh_0. unfold Rdiv. ring. Qed.

Lemma tanh_3 {t : Tensor R} {a b c f} :
  tensor3 0%R t a b c f ->
  tensor3 0%R (torch.tanh t) a b c (fun i j k => Rtrigo_def.tanh (f i j k)).
Proof.
  intros (St & Wt & Gt). split; [exact St|]. split; [now apply wf_tmap|].
  intros i j k Hi Hj Hk. unfold torch.tanh.
  rewrite get_tmap by apply tanh_0. now rewrite Gt.
Qed.

Lemma squeeze_last_3 {t : Tensor R} {a b f} :
  tensor3 0%R t a b 1 f ->
  exists y, torch.squeeze t (-1) = Ok y /\ tensor2 0%R y a b (fun i j => f i j 0).
Proof.
  intros (St & Wt & Gt). unfold torch.squeeze. rewrite St. simpl.
  eexists; split; [reflexivity|]. split; [reflexivity|]. split.
  - unfold wf in *. simpl. rewrite Wt, St. simpl. lia.
  - intros i j Hi Hj. rewrite <- Gt by (try assumption; lia).
    unfold get. rewrite St. simpl. f_equal; lia.
Qed.

Lemma unsqueeze_last_2 {t : Tensor R} {a b f} :
  tensor2 0%R t a b f ->
  exists y, torch.unsqueeze t (-1) = Ok y /\ tensor3 0%R y a b 1 (fun i j _ => f i j).
Proof.
  intros (St & Wt & Gt). unfold torch.unsqueeze. rewrite St. simpl.
  eexists; split; [reflexivity|]. split; [reflexivity|]. split.
  - unfold wf in *. simpl. rewrite Wt, St. simpl. lia.
  - intros i j k Hi Hj Hk. rewrite <- Gt by assumption.
    unfold get. rewrite St. simpl. f_equal; lia.
Qed.

Lemma softmax_dim1_2 {t : Tensor R} {a b f} :
  tensor2 0%R t a b f ->
  exists y, torch.softmax t 1 = Ok y /\
    tensor2 0%R y a b
      (fun i j => (exp (f i j) / torch.rsum b (fun j' => exp (f i j')))%R).
Proof.
  intros (St & Wt & Gt). unfold torch.softmax. rewrite St. simpl.
  eexists; split; [reflexivity|].
  split; [reflexivity|]. split; [apply wf_tabulate|].
  intros i j Hi Hj. rewrite get_tabulate by (simpl; tauto).
  cbn. rewrite Gt by assumption.
  rewrite (rsum_ext b (fun j0 => exp (get 0%R t [i; j0]))
                      (fun j' => exp (f i j'))); [reflexivity|].
  intros j' Hj'. now rewrite Gt.
Qed.

Lemma mul_bcast_3 {x w : Tensor R} {a b c f g} :
  tensor3 0%R x a b c f -> tensor3 0%R w a b 1 g ->
  exists y, torch.mul x w = Ok y /\
    tensor3 0%R y a b c (fun i j k => (f i j k * g i j 0%nat)%R).
Proof.
  intros (Sx & Wx & Gx) (Sw & Ww & Gw). unfold torch.mul, torch.broadcast_shapes.
  rewrite Sx, Sw. cbn. rewrite !Nat.eqb_refl.
  assert (Hb : (if c =? 1 then Some [c; b; a]
                else if c =? 1 then Some [1; b; a] else Some [c; b; a])
               = Some [c; b; a]) by (destruct (c =? 1); reflexivity).
  rewrite Hb. cbn.
  eexists; split; [reflexivity|].
  split; [reflexivity|]. split; [apply wf_tabulate|].
  intros i j k Hi Hj Hk. rewrite get_tabulate by (simpl; tauto).
  unfold torch.broadcast_index. cbn.
  assert (Ei : (if a =? 1 then 0 else i) = i)
    by (destruct (Nat.eqb_spec a 1); lia).
  assert (Ej : (if b =? 1 then 0 else j) = j)
    by (destruct (Nat.eqb_spec b 1); lia).
  assert (Ek : (if c =? 1 then 0 else k) = k)
    by (destruct (Nat.eqb_spec c 1); lia).
  rewrite Ei, Ej, Ek. rewrite Gx, Gw by (try assumption; lia). reflexivity.
Qed.

Lemma sum_dim1_3 {t : Tensor R} {a b c f} :
  tensor3 0%R t a b c f ->
  exists y, torch.sum t 1 = Ok y /\
    tensor2 0%R y a c (fun i k => torch.rsum b (fun j => f i j k)).
Proof.
  intros (St & Wt & Gt). unfold torch.sum. rewrite St.
  change (torch.wrap_dim (length [a; b; c]) 1) with (Some 1). simpl.
  eexists; split; [reflexivity|].
  split; [reflexivity|]. split; [apply wf_tabulate|].
  intros i k Hi Hk. rewrite get_tabulate by (simpl; tauto).
  apply rsum_ext. intros j Hj. unfold torch.insert_nth. simpl. now rewrite Gt.
Qed.

Lemma tensor2_self {t : Tensor R} {a b} :
  shape t = [a; b] -> wf t -> tensor2 0%R t a b (fun i j => get 0%R t [i; j]).
Proof. intros S W. repeat split; auto. Qed.

(** ** Sums of a softmax *)

Lemma rsum_scale n f c :
  torch.rsum n (fun j => (f j / c)%R) = (torch.rsum n f / c)%R.
Proof.
  induction n as [|n IH]; simpl; [unfold Rdiv; ring|].
  rewrite IH. unfold Rdiv. ring.
Qed.

Lemma rsum_pos n f :
  0 < n -> (forall j, j < n -> (0 < f j)%R) -> (0 < torch.rsum n f)%R.
Proof.
  induction n as [|n IH]; intros Hn Hf; [lia|]. simpl.
  destruct n as [|n].
  - simpl. rewrite Rplus_0_l. apply Hf. lia.
  - assert (0 < torch.rsum (S n) f)%R by (apply IH; [lia|intros; apply Hf; lia]).
    assert (0 < f (S n))%R by (apply Hf; lia). lra.
Qed.

Lemma softmax_sums_to_1 n f :
  0 < n ->
  torch.rsum n (fun j => (exp (f j) / torch.rsum n (fun j' => exp (f j')))%R) = 1%R.
Proof.
  intros Hn. rewrite rsum_scale.
  assert (0 < torch.rsum n (fun j' => exp (f j')))%R
    by (apply rsum_pos; [assumption|intros; apply exp_pos]).
  now field_simplify_eq; [|lra].
Qed.

Lemma softmax_nonneg n f j :
  (0 <= exp (f j) / torch.rsum n (fun j' => exp (f j')))%R.
Proof.
  destruct n as [|n].
  - simpl. unfold Rdiv. rewrite Rinv_0. right. ring.
  - apply Rlt_le, Rdiv_lt_0_compat; [apply exp_pos|].
    apply rsum_pos; [lia|intros; apply exp_pos].
Qed.

(** ** AdditiveAttention.forward *)

(** Lines 70-72: the weights are the specification's softmax weights. *)
Lemma weights_run x (s : State AdditiveAttention.t) N L F A :
  aa_ready (self s) F A -> shape x = [N; L; F] -> wf x ->
  exists w,
    AdditiveAttention.weights x s = (Ok w, s) /\
    tensor3 0%R w N L 1
      (fun n l _ => SpecAdditiveAttention.weight
                      (AdditiveAttention.W (self s)) (AdditiveAttention.q (self s))
                      F A L x n l).
Proof.
  intros ([IW OW] & [Iq Oq] & Hb) Sx Wx.
  unfold AdditiveAttention.weights. rewrite bind_get_self.
  run_op (Linear_forward_3 (AdditiveAttention.W (self s)) (tensor3_self Sx Wx) IW).
  rewrite OW in Ty. pose proof (tanh_3 Ty) as Tt.
  run_op (Linear_forward_3 (AdditiveAttention.q (self s)) Tt Iq).
  rewrite Oq in Ty0.
  run_op (squeeze_last_3 Ty0).
  assert (Ts : tensor2 0%R y1 N L
                 (SpecAdditiveAttention.score (AdditiveAttention.W (self s))
                    (AdditiveAttention.q (self s)) F A x)).
  { eapply tensor2_ext; [exact Ty1|]. intros n l Hn Hl. cbv beta.
    unfold b_at at 2. rewrite Hb, Rplus_0_r. reflexivity. }
  run_op (softmax_dim1_2 Ts).
  destruct (unsqueeze_last_2 Ty2) as (w & Hw & Tw).
  exists w. unfold lift. rewrite Hw. split; [reflexivity|]. exact Tw.
Qed.

(** [forward]: the result is the specification's [pool]. *)
Lemma AA_forward_run x (s : State AdditiveAttention.t) N L F A :
  aa_ready (self s) F A -> shape x = [N; L; F] -> wf x ->
  exists s',
    AdditiveAttention.forward x s
    = (Ok (SpecAdditiveAttention.pool
             (AdditiveAttention.W (self s)) (AdditiveAttention.q (self s)) F A
             (AdditiveAttention.dropout (self s)) (rng (world s)) x), s') /\
    self s' = self s /\
    rng (world s') =
      snd (Dropout.forward (AdditiveAttention.dropout (self s))
             (SpecAdditiveAttention.pooled
                (AdditiveAttention.W (self s)) (AdditiveAttention.q (self s)) F A x)
             (rng (world s))).
Proof.
  intros Hr Sx Wx.
  destruct (weights_run x s N L F A Hr Sx Wx) as (w & Hw & Tw).
  unfold AdditiveAttention.forward.
  rewrite (bind_ok _ Hw), bind_get_self.
  destruct (mul_bcast_3 (tensor3_self Sx Wx) Tw) as (xa & Hxa & Txa).
  destruct (sum_dim1_3 Txa) as (o & Ho & To).
  assert (Eo : o = SpecAdditiveAttention.pooled
                     (AdditiveAttention.W (self s)) (AdditiveAttention.q (self s))
                     F A x).
  { unfold SpecAdditiveAttention.pooled. rewrite Sx. cbn [nth].
    eapply tensor2_unique; [exact To | apply tensor2_tabulate |].
    intros n f Hn Hf. reflexivity. }
  subst o. unfold SpecAdditiveAttention.pool.
  destruct (AdditiveAttention.verbose (self s));
    unfold bind, print, ret, lift, with_rng; cbn; rewrite Hxa, Ho;
    destruct (Dropout.forward _ _ _) as [o g'];
    eexists; (split; [reflexivity|]); cbn; split; reflexivity.
Qed.

(** ** Two runs of one method: composition rules *)

Section Agree.

Context {T : Type} (R : T -> T -> Prop) (W : World -> World -> Prop).
Hypothesis W_blind : stdout_blind W.

Lemma agree_ret {A} (a : A) : agree R W (ret a) (ret a).
Proof. intros s1 s2 HR HW. cbn. auto. Qed.

Lemma agree_lift {A} (o : Outcome A) : agree R W (lift o) (lift o).
Proof. intros s1 s2 HR HW. cbn. auto. Qed.

Lemma agree_bind {A B} (m1 m2 : M T A) (k1 k2 : A -> M T B) :
  agree R W m1 m2 -> (forall a, agree R W (k1 a) (k2 a)) ->
  agree R W (bind m1 k1) (bind m2 k2).
Proof.
  intros Hm Hk s1 s2 HR HW. unfold bind.
  destruct (Hm s1 s2 HR HW) as (E & HR' & HW').
  destruct (m1 s1) as [[a1|e1] t1], (m2 s2) as [[a2|e2] t2]; cbn in *;
    try discriminate.
  - injection E as ->. apply Hk; assumption.
  - injection E as ->. repeat split; assumption.
Qed.

Lemma agree_get_self {B} (k1 k2 : T -> M T B) :
  (forall x y, R x y -> agree R W (k1 x) (k2 y)) ->
  agree R W (bind get_self k1) (bind get_self k2).
Proof.
  intros Hk s1 s2 HR HW. rewrite !bind_get_self. apply Hk; assumption.
Qed.

Lemma agree_quiet (m1 m2 : M T unit) : quiet m1 -> quiet m2 -> agree R W m1 m2.
Proof.
  intros Q1 Q2 s1 s2 HR HW.
  destruct (Q1 s1) as (o1 & ->), (Q2 s2) as (o2 & ->). cbn.
  repeat split; auto.
Qed.

Lemma agree_with_rng {A} (f1 f2 : torch.Generator -> A * torch.Generator) :
  (forall w1 w2, W w1 w2 ->
     fst (f1 (rng w1)) = fst (f2 (rng w2)) /\
     W (mkWorld (snd (f1 (rng w1))) (stdout w1))
       (mkWorld (snd (f2 (rng w2))) (stdout w2))) ->
  agree R W (with_rng f1) (with_rng f2).
Proof.
  intros Hf s1 s2 HR HW. unfold with_rng.
  destruct (Hf _ _ HW) as [E HW'].
  destruct (f1 (rng (world s1))) as [a1 g1], (f2 (rng (world s2))) as [a2 g2].
  cbn in *. subst. auto.
Qed.

Lemma agree_modify (f1 f2 : T -> T) :
  (forall x y, R x y -> R (f1 x) (f2 y)) -> agree R W (modify f1) (modify f2).
Proof. intros Hf s1 s2 HR HW. cbn. auto. Qed.

End Agree.

Lemma agree_zoom {T U A} (R : T -> T -> Prop) (RU : U -> U -> Prop) W
      (proj : T -> U) (inj : U -> T -> T) (m1 m2 : M U A) :
  agree RU W m1 m2 ->
  (forall x y, R x y -> RU (proj x) (proj y)) ->
  (forall u v x y, RU u v -> R x y -> R (inj u x) (inj v y)) ->
  agree R W (zoom proj inj m1) (zoom proj inj m2).
Proof.
  intros Hm Hp Hi s1 s2 HR HW. unfold zoom.
  specialize (Hm (mkState (proj (self s1)) (world s1))
                 (mkState (proj (self s2)) (world s2)) (Hp _ _ HR) HW).
  cbn in Hm.
  destruct (m1 _) as [r1 t1], (m2 _) as [r2 t2]. cbn in *.
  destruct Hm as (E & HRU & HW'). auto.
Qed.

Lemma quiet_ret {T} : quiet (@ret T unit tt).
Proof. intros [x [g o]]. exists o. reflexivity. Qed.

Lemma quiet_print {T} line : quiet (@print T line).
Proof. intros s. eexists. reflexivity. Qed.

Lemma quiet_seq {T} (m1 m2 : M T unit) :
  quiet m1 -> quiet m2 -> quiet (bind m1 (fun _ => m2)).
Proof.
  intros Q1 Q2 s. unfold bind. destruct (Q1 s) as (o1 & ->).
  destruct (Q2 (mkState (self s) (mkWorld (rng (world s)) o1))) as (o2 & ->).
  exists o2. reflexivity.
Qed.

Lemma quiet_if {T} (b : bool) (m : M T unit) :
  quiet m -> quiet (if b then m else ret tt).
Proof. intros Q. destruct b; [exact Q|apply quiet_ret]. Qed.

Lemma same_rng_blind : stdout_blind same_rng.
Proof. intros w1 w2 o1 o2 H. exact H. Qed.

Lemma any_world_blind : stdout_blind any_world.
Proof. intros w1 w2 o1 o2 H. exact I. Qed.

Lemma same_rng_with_rng {A} (f : torch.Generator -> A * torch.Generator) w1 w2 :
  same_rng w1 w2 ->
  fst (f (rng w1)) = fst (f (rng w2)) /\
  same_rng (mkWorld (snd (f (rng w1))) (stdout w1))
           (mkWorld (snd (f (rng w2))) (stdout w2)).
Proof. unfold same_rng. intros ->. cbn. auto. Qed.

Create HintDb agree_db.

#[local] Hint Resolve same_rng_blind any_world_blind quiet_ret quiet_print
  quiet_seq quiet_if : agree_db.

Ltac agree_step :=
  match goal with
  | |- agree _ _ (ret _) (ret _) => apply agree_ret
  | |- agree _ _ (lift _) (lift _) => apply agree_lift
  | |- agree _ _ (if _ then _ else ret tt) (if _ then _ else ret tt) =>
      apply agree_quiet; auto 10 with agree_db
  | |- agree same_rng _ (with_rng _) (with_rng _) => fail
  | |- agree _ same_rng (with_rng _) (with_rng _) =>
      apply agree_with_rng; apply same_rng_with_rng
  | |- agree _ _ (bind _ _) (bind _ _) => apply agree_bind; [|intros ?]
  | |- agree _ _ (match ?a with (_, _) => _ end) _ => destruct a
  end.

(** [verbose] does not influence [SelfAttention.forward]. *)
Lemma SA_attention_verbose Q_seq K_seq V_seq :
  agree sa_up_to_verbose same_rng
    (SelfAttention.attention Q_seq K_seq V_seq)
    (SelfAttention.attention Q_seq K_seq V_seq).
Proof.
  unfold SelfAttention.attention.
  apply agree_get_self. intros x y (E1 & E2 & E3 & E4 & E5 & E6 & E7).
  apply agree_bind.
  - rewrite E4, E3. destruct (SelfAttention.WQ y); [apply agree_ret|].
    repeat agree_step;
      apply agree_modify; intros u v (F1 & F2 & F3 & F4 & F5 & F6 & F7);
      repeat split; cbn; assumption.
  - intros _. apply agree_get_self. clear. intros x y (E1 & E2 & E3 & E4 & E5 & E6 & E7).
    rewrite E1, E2, E4, E5, E6.
    repeat agree_step.
Qed.

Lemma SA_forward_verbose Q_seq K_seq V_seq :
  agree sa_up_to_verbose same_rng
    (SelfAttention.forward Q_seq K_seq V_seq)
    (SelfAttention.forward Q_seq K_seq V_seq).
Proof.
  unfold SelfAttention.forward.
  apply agree_bind; [apply SA_attention_verbose|].
  intros [[[attn V] N] L].
  apply agree_get_self. intros x y (E1 & E2 & E3 & E4 & E5 & E6 & E7).
  rewrite E3, E7.
  repeat agree_step.
Qed.

Lemma AA_weights_verbose x :
  agree aa_up_to_verbose same_rng (AdditiveAttention.weights x) (AdditiveAttention.weights x).
Proof.
  unfold AdditiveAttention.weights.
  apply agree_get_self. intros a b (E1 & E2 & E3). rewrite E1, E2.
  repeat agree_step.
Qed.

Lemma AA_forward_verbose x :
  agree aa_up_to_verbose same_rng (AdditiveAttention.forward x) (AdditiveAttention.forward x).
Proof.
  unfold AdditiveAttention.forward.
  apply agree_bind; [apply AA_weights_verbose|]. intros attn.
  apply agree_get_self. intros a b (E1 & E2 & E3). rewrite E3.
  repeat agree_step.
Qed.

Ltac agree_zoom_step :=
  match goal with
  | |- agree nrms_up_to_verbose _ (zoom NRMSModel.news_self_att _ _) _ =>
      apply agree_zoom with (RU := sa_up_to_verbose); [apply SA_forward_verbose| |]
  | |- agree nrms_up_to_verbose _ (zoom NRMSModel.user_self_att _ _) _ =>
      apply agree_zoom with (RU := sa_up_to_verbose); [apply SA_forward_verbose| |]
  | |- agree nrms_up_to_verbose _ (zoom NRMSModel.news_att _ _) _ =>
      apply agree_zoom with (RU := aa_up_to_verbose); [apply AA_forward_verbose| |]
  | |- agree nrms_up_to_verbose _ (zoom NRMSModel.user_att _ _) _ =>
      apply agree_zoom with (RU := aa_up_to_verbose); [apply AA_forward_verbose| |]
  end;
  [ unfold nrms_up_to_verbose; intros; tauto
  | unfold nrms_up_to_verbose; cbn; intros; tauto ].

Lemma encode_news_verbose news_input :
  agree nrms_up_to_verbose same_rng
    (NRMSModel.encode_news news_input) (NRMSModel.encode_news news_input).
Proof.
  unfold NRMSModel.encode_news.
  apply agree_get_self. intros a b (E1 & E2 & E3 & E4 & E5 & E6). rewrite E1, E2.
  repeat first [agree_zoom_step | agree_step].
Qed.

Lemma encode_user_verbose history_input :
  agree nrms_up_to_verbose same_rng
    (NRMSModel.encode_user history_input) (NRMSModel.encode_user history_input).
Proof.
  unfold NRMSModel.encode_user.
  repeat first [apply encode_news_verbose | agree_zoom_step | agree_step].
Qed.

Lemma NRMS_forward_verbose his_input pred_input :
  agree nrms_up_to_verbose same_rng
    (NRMSModel.forward his_input pred_input) (NRMSModel.forward his_input pred_input).
Proof.
  unfold NRMSModel.forward.
  repeat first [apply encode_news_verbose | apply encode_user_verbose | agree_step].
Qed.

(** ** Methods that are functions of the object *)

Lemma state_eta {T} (s : State T) : mkState (self s) (world s) = s.
Proof. destruct s. reflexivity. Qed.

Lemma world_eta (w : World) : mkWorld (rng w) (stdout w) = w.
Proof. destruct w. reflexivity. Qed.

Lemma pure_at_ret {T A} (x : T) (a : A) : pure_at x (ret a).
Proof. exists (Ok a). intros w. exists (stdout w). unfold ret. now rewrite world_eta. Qed.

Lemma pure_at_lift {T A} (x : T) (o : Outcome A) : pure_at x (lift o).
Proof. exists o. intros w. exists (stdout w). unfold lift. now rewrite world_eta. Qed.

Lemma pure_at_quiet {T} (x : T) (m : M T unit) : quiet m -> pure_at x m.
Proof. intros Q. exists (Ok tt). intros w. destruct (Q (mkState x w)) as (o & ->). now exists o. Qed.

Lemma pure_at_bind {T A B} (x : T) (m : M T A) (k : A -> M T B) :
  pure_at x m -> (forall a, pure_at x (k a)) -> pure_at x (bind m k).
Proof.
  intros [[a|e] Hm] Hk.
  - destruct (Hk a) as [r Hr]. exists r. intros w.
    destruct (Hm w) as (o1 & E1).
    destruct (Hr (mkWorld (rng w) o1)) as (o2 & E2).
    exists o2. unfold bind. rewrite E1. exact E2.
  - exists (Raise e). intros w. destruct (Hm w) as (o1 & E1).
    exists o1. unfold bind. now rewrite E1.
Qed.

Lemma pure_at_get_self {T B} (x : T) (k : T -> M T B) :
  pure_at x (k x) -> pure_at x (bind get_self k).
Proof.
  intros [r Hr]. exists r. intros w. destruct (Hr w) as (o & E).
  exists o. now rewrite bind_get_self.
Qed.

Lemma pure_at_dropout {T} (x : T) dr t :
  dropout_off dr -> pure_at x (with_rng (Dropout.forward dr t)).
Proof.
  intros Hd. exists (Ok t). intros w. exists (stdout w).
  unfold with_rng. cbn. rewrite (Dropout_forward_off dr t (rng w) Hd). reflexivity.
Qed.

Lemma pure_at_zoom {T U A} (x : T) (proj : T -> U) (inj : U -> T -> T) (m : M U A) :
  inj (proj x) x = x -> pure_at (proj x) m -> pure_at x (zoom proj inj m).
Proof.
  intros Hi [r Hr]. exists r. intros w. destruct (Hr w) as (o & E).
  exists o. unfold zoom. cbn. rewrite E. cbn. now rewrite Hi.
Qed.

Ltac pure_step :=
  match goal with
  | |- pure_at _ (ret _) => apply pure_at_ret
  | |- pure_at _ (lift _) => apply pure_at_lift
  | |- pure_at _ (if _ then _ else ret tt) =>
      apply pure_at_quiet; auto 10 with agree_db
  | |- pure_at _ (with_rng (Dropout.forward _ _)) => apply pure_at_dropout; assumption
  | |- pure_at _ (bind get_self _) => apply pure_at_get_self
  | |- pure_at _ (bind _ _) => apply pure_at_bind; [|intros ?]
  | |- pure_at _ (match ?a with (_, _) => _ end) => destruct a
  end.

(** With its projections in place and dropout off, [SelfAttention.forward]
    is a function of the object and the inputs. *)
Lemma SA_forward_pure Q_seq K_seq V_seq (x : SelfAttention.t) :
  SelfAttention.WQ x <> None -> sa_dropout_off x ->
  pure_at x (SelfAttention.forward Q_seq K_seq V_seq).
Proof.
  intros HW Hd. unfold SelfAttention.forward, SelfAttention.attention.
  destruct (SelfAttention.WQ x) as [wq|] eqn:E; [|contradiction].
  apply pure_at_bind.
  - apply pure_at_get_self. rewrite E. repeat pure_step.
  - intros [[[attn V] N] L]. repeat pure_step.
Qed.

Lemma AA_forward_pure t (x : AdditiveAttention.t) :
  aa_dropout_off x -> pure_at x (AdditiveAttention.forward t).
Proof.
  intros Hd. unfold AdditiveAttention.forward, AdditiveAttention.weights.
  repeat pure_step.
Qed.

(** ** Repeating a call: composition rules *)

Section Settles.

Context {T : Type} (I : T -> Prop) (le : T -> T -> Prop).
Hypothesis le_refl : forall x, le x x.
Hypothesis le_trans : forall x y z, le x y -> le y z -> le x z.
Hypothesis le_I : forall x y, I x -> le x y -> I y.

(** A method whose outcome does not depend on the state at all. *)
Lemma settles_const {A} (m : M T A) :
  (exists r, forall s, exists out,
      m s = (r, mkState (self s) (mkWorld (rng (world s)) out))) ->
  settles I le m.
Proof.
  intros [r Hr] s Hs. destruct (Hr s) as (o & E). rewrite E. cbn.
  split; [apply le_refl|]. intros x' _ w'.
  destruct (Hr (mkState x' w')) as (o' & E'). rewrite E'. cbn. auto.
Qed.

Lemma settles_ret {A} (a : A) : settles I le (ret a).
Proof.
  apply settles_const. exists (Ok a). intros s. exists (stdout (world s)).
  unfold ret. now rewrite world_eta, state_eta.
Qed.

Lemma settles_lift {A} (o : Outcome A) : settles I le (lift o).
Proof.
  apply settles_const. exists o. intros s. exists (stdout (world s)).
  unfold lift. now rewrite world_eta, state_eta.
Qed.

Lemma settles_quiet (m : M T unit) : quiet m -> settles I le m.
Proof. intros Q. apply settles_const. exists (Ok tt). exact Q. Qed.

Lemma settles_dropout dr t :
  dropout_off dr -> settles I le (with_rng (Dropout.forward dr t)).
Proof.
  intros Hd. apply settles_const. exists (Ok t). intros s. exists (stdout (world s)).
  unfold with_rng. rewrite (Dropout_forward_off dr t _ Hd).
  now rewrite world_eta, state_eta.
Qed.

Lemma settles_bind {A B} (m : M T A) (k : A -> M T B) :
  settles I le m -> (forall a, settles I le (k a)) -> settles I le (bind m k).
Proof.
  intros Hm Hk s Hs. destruct (Hm s Hs) as [L1 R1].
  destruct (m s) as [[a|e] s1] eqn:E1; cbn in L1, R1.
  - rewrite (bind_ok k E1).
    assert (Hs1 : I (self s1)) by (eapply le_I; eassumption).
    destruct (Hk a s1 Hs1) as [L2 R2].
    split; [eapply le_trans; eassumption|].
    intros x' Hx' w'.
    assert (L1' : le (self s1) x').
    { destruct (fst (k a s1)); [eapply le_trans; eassumption|rewrite Hx'; exact L2]. }
    destruct (R1 x' L1' w') as [F1 S1]. unfold bind.
    destruct (m (mkState x' w')) as [r1' s1'] eqn:E1'. cbn in F1, S1. subst r1'.
    rewrite <- (state_eta s1'), S1. apply R2. exact Hx'.
  - rewrite (bind_raise k E1). cbn. split; [exact L1|]. intros x' -> w'.
    destruct (R1 (self s1) eq_refl w') as [F1 S1]. unfold bind.
    destruct (m (mkState (self s1) w')) as [r1' s1'] eqn:E1'. cbn in F1, S1.
    subst r1'. cbn. auto.
Qed.

Lemma settles_get_self {B} (k : T -> M T B) :
  (forall x y, le x y -> k x = k y) ->
  (forall x, I x -> settles I le (k x)) ->
  settles I le (bind get_self k).
Proof.
  intros Hst Hk s Hs. rewrite bind_get_self.
  destruct (Hk (self s) Hs s Hs) as [L1 R1].
  split; [exact L1|]. intros x' Hx' w'. rewrite bind_get_self. cbn [self].
  assert (Hle : le (self s) x').
  { destruct (fst (k (self s) s)); [eapply le_trans; eassumption|rewrite Hx'; exact L1]. }
  rewrite <- (Hst _ _ Hle). apply R1. exact Hx'.
Qed.

End Settles.

Lemma settles_zoom {T U A} (I : T -> Prop) (le : T -> T -> Prop)
      (IU : U -> Prop) (leU : U -> U -> Prop)
      (proj : T -> U) (inj : U -> T -> T) (m : M U A) :
  settles IU leU m ->
  (forall x, I x -> IU (proj x)) ->
  (forall x u, leU (proj x) u -> le x (inj u x)) ->
  (forall x y, le x y -> leU (proj x) (proj y)) ->
  (forall x u, proj (inj u x) = u) ->
  (forall x, inj (proj x) x = x) ->
  settles I le (zoom proj inj m).
Proof.
  intros Hm HI Hle1 Hle2 Hpi Hip s Hs.
  assert (Ez : forall t, zoom proj inj m t =
            (fst (m (mkState (proj (self t)) (world t))),
             mkState (inj (self (snd (m (mkState (proj (self t)) (world t))))) (self t))
                     (world (snd (m (mkState (proj (self t)) (world t)))))))
    by (intros t; unfold zoom; now destruct (m _)).
  rewrite !Ez. cbn [fst snd self world].
  destruct (Hm (mkState (proj (self s)) (world s)) (HI _ Hs)) as [L1 R1].
  cbn [self world] in *.
  destruct (m (mkState (proj (self s)) (world s))) as [r s1] eqn:E. cbn in *.
  split; [apply Hle1; exact L1|].
  intros x' Hx' w'.
  assert (Hx : match r with
               | Ok _ => leU (self s1) (proj x')
               | Raise _ => proj x' = self s1
               end).
  { destruct r.
    - apply Hle2 in Hx'. now rewrite Hpi in Hx'.
    - subst x'. apply Hpi. }
  destruct (R1 (proj x') Hx w') as [F1 S1]. unfold zoom. cbn [self world].
  destruct (m (mkState (proj x') w')) as [r' s1'] eqn:E'. cbn in *.
  split; [exact F1|]. rewrite S1. apply Hip.
Qed.

(** ** SelfAttention.forward settles the object *)

Lemma forward_fresh_fail Q_seq K_seq V_seq s {e} :
  SelfAttention.WQ (self s) = None -> torch.size_at Q_seq (-1) = Raise e ->
  SelfAttention.forward Q_seq K_seq V_seq s = (Raise e, s).
Proof.
  intros HW HS. unfold SelfAttention.forward, SelfAttention.attention.
  unfold bind at 1. rewrite bind_get_self, HW.
  unfold bind, lift. rewrite HS. reflexivity.
Qed.

Lemma sa_extends_settled a b :
  SelfAttention.WQ a <> None -> sa_extends a b -> b = a.
Proof. intros HW [H|[H _]]; [now subst|contradiction]. Qed.

Lemma WQ_with_projections a wq wk wv :
  SelfAttention.WQ (with_projections a wq wk wv) = Some wq.
Proof. reflexivity. Qed.

Lemma SA_forward_settles Q_seq K_seq V_seq :
  settles sa_dropout_off sa_extends (SelfAttention.forward Q_seq K_seq V_seq).
Proof.
  intros s Hs.
  assert (Settled : forall x, SelfAttention.WQ x <> None -> sa_dropout_off x ->
            forall w,
              self (snd (SelfAttention.forward Q_seq K_seq V_seq (mkState x w))) = x /\
              forall x',
                match fst (SelfAttention.forward Q_seq K_seq V_seq (mkState x w)) with
                | Ok _ => sa_extends x x'
                | Raise _ => x' = x
                end ->
                forall w',
                  fst (SelfAttention.forward Q_seq K_seq V_seq (mkState x' w'))
                  = fst (SelfAttention.forward Q_seq K_seq V_seq (mkState x w)) /\
                  self (snd (SelfAttention.forward Q_seq K_seq V_seq (mkState x' w')))
                  = x').
  { intros x HW Hd w.
    destruct (SA_forward_pure Q_seq K_seq V_seq x HW Hd) as [r Hr].
    destruct (Hr w) as (o & E). rewrite E. cbn. split; [reflexivity|].
    intros x' Hx' w'.
    assert (x' = x) as ->.
    { destruct r; [now apply sa_extends_settled|assumption]. }
    destruct (Hr w') as (o' & E'). rewrite E'. cbn. auto. }
  destruct (SelfAttention.WQ (self s)) as [wq|] eqn:EW.
  - assert (HW : SelfAttention.WQ (self s) <> None) by congruence.
    destruct (Settled (self s) HW Hs (world s)) as [S1 S2].
    rewrite state_eta in S1, S2.
    split; [rewrite S1; now left|]. rewrite S1. exact S2.
  - destruct (torch.size_at Q_seq (-1)) as [E|e] eqn:ES.
    + destruct (projections_fresh (self s) E (rng (world s)) EW)
        as (wq & wk & wv & g3 & HP & _).
      rewrite (forward_lazy_init Q_seq K_seq V_seq s E wq wk wv g3 EW ES HP).
      set (x0 := with_projections (self s) wq wk wv).
      assert (HW0 : SelfAttention.WQ x0 <> None) by (subst x0; cbn; congruence).
      assert (Hd0 : sa_dropout_off x0) by (destruct s as [[] ?]; exact Hs).
      destruct (Settled x0 HW0 Hd0 (mkWorld g3 (stdout (world s)))) as [S1 S2].
      split.
      * rewrite S1. right. split; [exact EW|]. now exists wq, wk, wv.
      * rewrite S1. exact S2.
    + rewrite (forward_fresh_fail Q_seq K_seq V_seq s EW ES). cbn.
      split; [now left|]. intros x' -> w'.
      rewrite (forward_fresh_fail Q_seq K_seq V_seq (mkState (self s) w') EW ES).
      cbn. auto.
Qed.

Lemma AA_forward_settles t :
  settles aa_dropout_off eq (AdditiveAttention.forward t).
Proof.
  intros s Hs.
  destruct (AA_forward_pure t (self s) Hs) as [r Hr].
  destruct (Hr (world s)) as (o & E). rewrite state_eta in E. rewrite E. cbn.
  split; [reflexivity|]. intros x' Hx' w'.
  assert (x' = self s) as -> by (destruct r; congruence).
  destruct (Hr w') as (o' & E'). rewrite E'. cbn. auto.
Qed.

(** ** The model's methods settle the model *)

Lemma sa_extends_refl a : sa_extends a a.
Proof. now left. Qed.

Lemma sa_extends_trans a b c : sa_extends a b -> sa_extends b c -> sa_extends a c.
Proof.
  intros [->|[H1 (wq & wk & wv & ->)]] H2; [exact H2|].
  destruct H2 as [<-|[H2 _]].
  - right. split; [exact H1|]. now exists wq, wk, wv.
  - discriminate H2.
Qed.

Lemma sa_extends_dropout a b : sa_dropout_off a -> sa_extends a b -> sa_dropout_off b.
Proof.
  intros Ha [<-|[_ (wq & wk & wv & ->)]]; [exact Ha|]. destruct a; exact Ha.
Qed.

Lemma nrms_extends_refl a : nrms_extends a a.
Proof. repeat split; apply sa_extends_refl. Qed.

Lemma nrms_extends_trans a b c : nrms_extends a b -> nrms_extends b c -> nrms_extends a c.
Proof.
  intros (A1 & A2 & A3 & A4 & A5 & A6) (B1 & B2 & B3 & B4 & B5 & B6).
  repeat split; try congruence; eapply sa_extends_trans; eassumption.
Qed.

Lemma nrms_extends_dropout a b :
  nrms_dropout_off a -> nrms_extends a b -> nrms_dropout_off b.
Proof.
  intros (D1 & D2 & D3 & D4 & D5) (A1 & A2 & A3 & A4 & A5 & A6).
  unfold nrms_dropout_off, aa_dropout_off in *. rewrite <- A2, <- A4, <- A6.
  split; [exact D1|]. split; [exact (sa_extends_dropout _ _ D2 A3)|].
  split; [exact D3|]. split; [exact (sa_extends_dropout _ _ D4 A5)|exact D5].
Qed.

Lemma eq_dropout (a b : AdditiveAttention.t) : aa_dropout_off a -> a = b -> aa_dropout_off b.
Proof. now intros H <-. Qed.

Lemma zoom_news_self_att_settles {A} (m : M SelfAttention.t A) :
  settles sa_dropout_off sa_extends m ->
  settles nrms_dropout_off nrms_extends
    (zoom NRMSModel.news_self_att NRMSModel.set_news_self_att m).
Proof.
  intros Hm. eapply settles_zoom; [exact Hm| | | | |].
  - intros x (D1 & D2 & D3 & D4 & D5). exact D2.
  - intros x u Hu. repeat split; cbn; try apply sa_extends_refl; exact Hu.
  - intros x y (A1 & A2 & A3 & A4 & A5 & A6). exact A3.
  - reflexivity.
  - intros []. reflexivity.
Qed.

Lemma zoom_user_self_att_settles {A} (m : M SelfAttention.t A) :
  settles sa_dropout_off sa_extends m ->
  settles nrms_dropout_off nrms_extends
    (zoom NRMSModel.user_self_att NRMSModel.set_user_self_att m).
Proof.
  intros Hm. eapply settles_zoom; [exact Hm| | | | |].
  - intros x (D1 & D2 & D3 & D4 & D5). exact D4.
  - intros x u Hu. repeat split; cbn; try apply sa_extends_refl; exact Hu.
  - intros x y (A1 & A2 & A3 & A4 & A5 & A6). exact A5.
  - reflexivity.
  - intros []. reflexivity.
Qed.

Lemma zoom_news_att_settles {A} (m : M AdditiveAttention.t A) :
  settles aa_dropout_off eq m ->
  settles nrms_dropout_off nrms_extends
    (zoom NRMSModel.news_att NRMSModel.set_news_att m).
Proof.
  intros Hm. eapply settles_zoom; [exact Hm| | | | |].
  - intros x (D1 & D2 & D3 & D4 & D5). exact D3.
  - intros x u Hu. repeat split; cbn; try apply sa_extends_refl; exact Hu.
  - intros x y (A1 & A2 & A3 & A4 & A5 & A6). exact A4.
  - reflexivity.
  - intros []. reflexivity.
Qed.

Lemma zoom_user_att_settles {A} (m : M AdditiveAttention.t A) :
  settles aa_dropout_off eq m ->
  settles nrms_dropout_off nrms_extends
    (zoom NRMSModel.user_att NRMSModel.set_user_att m).
Proof.
  intros Hm. eapply settles_zoom; [exact Hm| | | | |].
  - intros x (D1 & D2 & D3 & D4 & D5). exact D5.
  - intros x u Hu. repeat split; cbn; try apply sa_extends_refl; exact Hu.
  - intros x y (A1 & A2 & A3 & A4 & A5 & A6). exact A6.
  - reflexivity.
  - intros []. reflexivity.
Qed.

Ltac settle_step :=
  match goal with
  | |- settles _ _ (ret _) => apply settles_ret; apply nrms_extends_refl
  | |- settles _ _ (lift _) => apply settles_lift; apply nrms_extends_refl
  | |- settles _ _ (zoom NRMSModel.news_self_att _ _) =>
      apply zoom_news_self_att_settles; apply SA_forward_settles
  | |- settles _ _ (zoom NRMSModel.user_self_att _ _) =>
      apply zoom_user_self_att_settles; apply SA_forward_settles
  | |- settles _ _ (zoom NRMSModel.news_att _ _) =>
      apply zoom_news_att_settles; apply AA_forward_settles
  | |- settles _ _ (zoom NRMSModel.user_att _ _) =>
      apply zoom_user_att_settles; apply AA_forward_settles
  | |- settles _ _ (bind _ _) =>
      apply settles_bind;
      [apply nrms_extends_trans | apply nrms_extends_dropout | | intros ?]
  | |- settles _ _ (match ?a with (_, _) => _ end) => destruct a
  end.

Lemma encode_news_settles news_input :
  settles nrms_dropout_off nrms_extends (NRMSModel.encode_news news_input).
Proof.
  unfold NRMSModel.encode_news.
  apply settles_get_self.
  - apply nrms_extends_trans.
  - intros x y (A1 & A2 & _). rewrite A1, A2. reflexivity.
  - intros x (D1 & _).
    apply settles_bind;
      [apply nrms_extends_trans | apply nrms_extends_dropout
      | apply settles_lift; apply nrms_extends_refl | intros ?].
    apply settles_bind;
      [apply nrms_extends_trans | apply nrms_extends_dropout
      | apply settles_dropout; [apply nrms_extends_refl|exact D1] | intros ?].
    repeat settle_step.
Qed.

Lemma encode_user_settles history_input :
  settles nrms_dropout_off nrms_extends (NRMSModel.encode_user history_input).
Proof.
  unfold NRMSModel.encode_user.
  repeat first [apply encode_news_settles | settle_step].
Qed.

Lemma NRMS_forward_settles his_input pred_input :
  settles nrms_dropout_off nrms_extends (NRMSModel.forward his_input pred_input).
Proof.
  unfold NRMSModel.forward.
  repeat first [apply encode_news_settles | apply encode_user_settles | settle_step].
Qed.

(** Two calls in a row return the same outcome. *)
Lemma settles_twice {T A} (I : T -> Prop) (le : T -> T -> Prop) (m : M T A) s :
  (forall x, le x x) -> settles I le m -> I (self s) ->
  fst (m (snd (m s))) = fst (m s) /\ self (snd (m (snd (m s)))) = self (snd (m s)).
Proof.
  intros Hrefl Hm Hs. destruct (Hm s Hs) as [_ R1].
  specialize (R1 (self (snd (m s)))).
  assert (Hc : match fst (m s) with
               | Ok _ => le (self (snd (m s))) (self (snd (m s)))
               | Raise _ => self (snd (m s)) = self (snd (m s))
               end) by (destruct (fst (m s)); [apply Hrefl|reflexivity]).
  specialize (R1 Hc (world (snd (m s)))).
  rewrite state_eta in R1. exact R1.
Qed.

(** ** Methods that leave the object alone *)

Lemma keeps_at_ret {T A} (x : T) (a : A) : keeps_at x (ret a).
Proof. intros w. reflexivity. Qed.

Lemma keeps_at_lift {T A} (x : T) (o : Outcome A) : keeps_at x (lift o).
Proof. intros w. reflexivity. Qed.

Lemma keeps_at_quiet {T} (x : T) (m : M T unit) : quiet m -> keeps_at x m.
Proof. intros Q w. destruct (Q (mkState x w)) as (o & ->). reflexivity. Qed.

Lemma keeps_at_with_rng {T A} (x : T) (f : torch.Generator -> A * torch.Generator) :
  keeps_at x (with_rng f).
Proof. intros w. unfold with_rng. cbn. destruct (f (rng w)). reflexivity. Qed.

Lemma keeps_at_bind {T A B} (x : T) (m : M T A) (k : A -> M T B) :
  keeps_at x m -> (forall a, keeps_at x (k a)) -> keeps_at x (bind m k).
Proof.
  intros Hm Hk w. unfold bind. specialize (Hm w).
  destruct (m (mkState x w)) as [[a|e] s1]; cbn in *; [|exact Hm].
  rewrite <- (state_eta s1), Hm. apply Hk.
Qed.

Lemma keeps_at_get_self {T B} (x : T) (k : T -> M T B) :
  keeps_at x (k x) -> keeps_at x (bind get_self k).
Proof. intros Hk w. rewrite bind_get_self. apply Hk. Qed.

Ltac keeps_step :=
  match goal with
  | |- keeps_at _ (ret _) => apply keeps_at_ret
  | |- keeps_at _ (lift _) => apply keeps_at_lift
  | |- keeps_at _ (if _ then _ else ret tt) =>
      apply keeps_at_quiet; auto 10 with agree_db
  | |- keeps_at _ (with_rng _) => apply keeps_at_with_rng
  | |- keeps_at _ (bind get_self _) => apply keeps_at_get_self
  | |- keeps_at _ (bind _ _) => apply keeps_at_bind; [|intros ?]
  | |- keeps_at _ (match ?a with (_, _) => _ end) => destruct a
  end.

(** Once the projections exist, no call changes the object, whatever the
    inputs and whether or not dropout is active. *)
Lemma SA_forward_keeps Q_seq K_seq V_seq (x : SelfAttention.t) :
  SelfAttention.WQ x <> None -> keeps_at x (SelfAttention.forward Q_seq K_seq V_seq).
Proof.
  intros HW. unfold SelfAttention.forward, SelfAttention.attention.
  destruct (SelfAttention.WQ x) as [wq|] eqn:E; [|contradiction].
  apply keeps_at_bind.
  - apply keeps_at_get_self. rewrite E. repeat keeps_step.
  - intros [[[attn V] N] L]. repeat keeps_step.
Qed.

Lemma AA_forward_keeps t (x : AdditiveAttention.t) :
  keeps_at x (AdditiveAttention.forward t).
Proof.
  unfold AdditiveAttention.forward, AdditiveAttention.weights. repeat keeps_step.
Qed.

(** The first call on a fresh object stores the projections it creates,
    also when the call fails later on. *)
Lemma SA_forward_creates Q_seq K_seq V_seq s E wq wk wv g3 :
  SelfAttention.WQ (self s) = None ->
  torch.size_at Q_seq (-1) = Ok E ->
  projections (self s) E (rng (world s)) = Some (wq, wk, wv, g3) ->
  self (snd (SelfAttention.forward Q_seq K_seq V_seq s))
  = with_projections (self s) wq wk wv.
Proof.
  intros HW HS HP.
  rewrite (forward_lazy_init Q_seq K_seq V_seq s E wq wk wv g3 HW HS HP).
  apply SA_forward_keeps. cbn. congruence.
Qed.

(** Lines 22-44 on a fresh or initialised object. *)
Lemma attention_run Q_seq K_seq V_seq s N L E H D :
  sa_ready (self s) E H D ->
  shape Q_seq = [N; L; E] -> wf Q_seq ->
  shape K_seq = [N; L; E] -> wf K_seq ->
  shape V_seq = [N; L; E] -> wf V_seq ->
  exists wq wk wv g0 Vh s1,
    projections (self s) E (rng (world s)) = Some (wq, wk, wv, g0) /\
    SelfAttention.attention Q_seq K_seq V_seq s
    = (Ok (SpecSelfAttention.attn wq wk H D Q_seq K_seq, Vh, N, L), s1).
Proof.
  intros Hr SQ WfQ SK WfK SV WfV.
  pose proof Hr as (HH & HD & HO & HW).
  destruct (SelfAttention.WQ (self s)) as [wq|] eqn:EWQ.
  - destruct HW as (wk & wv & EWK & EWV & Lq & Lk & Lv).
    destruct (attention_ready Q_seq K_seq V_seq s EWQ EWK EWV Lq Lk Lv HH HD
                SQ WfQ SK WfK SV WfV) as (Vh & s1 & Hf & _).
    exists wq, wk, wv, (rng (world s)), Vh, s1. split; [|exact Hf].
    unfold projections. now rewrite EWQ, EWK, EWV.
  - destruct (projections_fresh (self s) E (rng (world s)) EWQ)
      as (wq & wk & wv & g3 & HP & Lq & Lk & Lv).
    rewrite HO in Lq, Lk, Lv.
    rewrite (attention_lazy_init Q_seq K_seq V_seq s E wq wk wv g3 EWQ
               (size_at_last_3 Q_seq N L E SQ) HP).
    set (s0 := mkState (with_projections (self s) wq wk wv)
                       (mkWorld g3 (stdout (world s)))).
    destruct (attention_ready Q_seq K_seq V_seq s0 (wq := wq) (wk := wk) (wv := wv)
                (H := H) (D := D) (E := E) (N := N) (L := L))
      as (Vh & s1 & Hf & _);
      try assumption; try (destruct s as [[] ?]; cbn in *; first [reflexivity|assumption]).
    exists wq, wk, wv, g3, Vh, s1. split; [exact HP|exact Hf].
Qed.

(** ** Contracts of the operations of NRMSModel *)

Lemma ids_ok_forallb V ids :
  ids_ok V ids ->
  forallb (fun i => (0 <=? i) && (i <? Z.of_nat V))%Z (data ids) = true.
Proof.
  unfold ids_ok. intros H. apply forallb_forall. intros i Hi.
  rewrite Forall_forall in H. specialize (H i Hi).
  apply andb_true_iff. split; [apply Z.leb_le|apply Z.ltb_lt]; lia.
Qed.

Lemma Embedding_forward_2 table ids B L V E :
  shape table = [V; E] -> shape ids = [B; L] -> ids_ok V ids ->
  exists y, Embedding.forward table ids = Ok y /\
    tensor3 0%R y B L E
      (fun n l k => get 0%R table [Z.to_nat (get 0%Z ids [n; l]); k]).
Proof.
  intros St Si Hok. unfold Embedding.forward. rewrite St, Si. simpl.
  rewrite (ids_ok_forallb V ids Hok).
  eexists; split; [reflexivity|].
  split; [reflexivity|]. split; [apply wf_tabulate|].
  intros n l k Hn Hl Hk. rewrite get_tabulate by (simpl; tauto). reflexivity.
Qed.

Lemma view_flatten_ids (ids : Tensor Z) N H L :
  shape ids = [N; H; L] -> wf ids ->
  exists y, torch.view ids [N * H; L] = Ok y /\
    shape y = [N * H; L] /\ wf y /\ data y = data ids.
Proof.
  intros Si Wi. unfold torch.view. rewrite Si.
  assert (E : numel [N * H; L] = numel [N; H; L]) by (simpl; ring).
  rewrite E, Nat.eqb_refl. eexists; split; [reflexivity|].
  split; [reflexivity|]. split; [|reflexivity].
  unfold wf in *. simpl shape. simpl data. rewrite Wi, Si. symmetry. exact E.
Qed.

Lemma get_flatten_ids (ids y : Tensor Z) N H L n h l :
  shape ids = [N; H; L] -> shape y = [N * H; L] -> data y = data ids ->
  get 0%Z y [n * H + h; l] = get 0%Z ids [n; h; l].
Proof.
  intros Si Sy Hd. unfold get. rewrite Si, Sy, Hd. simpl. f_equal. ring.
Qed.

Lemma view_infer_3 (t : Tensor R) N H F f :
  tensor2 0%R t (N * H) F f -> 0 < N * H ->
  exists y, torch.view_infer t [N; H] = Ok y /\
    tensor3 0%R y N H F (fun n h k => f (n * H + h) k).
Proof.
  intros (St & Wt & Gt) Hpos. unfold torch.view_infer. rewrite St.
  assert (E1 : numel [N; H] = N * H) by (simpl; ring).
  assert (E2 : numel [N * H; F] = F * (N * H)) by (simpl; ring).
  rewrite E1, E2.
  rewrite Nat.Div0.mod_mul, Nat.div_mul by lia.
  assert (Hp : (0 <? N * H) = true) by (apply Nat.ltb_lt; exact Hpos).
  assert (Hz : (N * H =? 0) = false) by (apply Nat.eqb_neq; lia).
  rewrite Hp, Hz. rewrite orb_true_r.
  eexists; split; [reflexivity|].
  split; [reflexivity|]. split.
  - unfold wf in *. simpl shape. simpl data. rewrite Wt, St. simpl. ring.
  - intros n h k Hn Hh Hk. rewrite <- Gt by (try assumption; nia).
    unfold get. rewrite St. simpl. f_equal. ring.
Qed.

Lemma unsqueeze_2 (t : Tensor R) a b f :
  tensor2 0%R t a b f ->
  exists y, torch.unsqueeze t 2 = Ok y /\ tensor3 0%R y a b 1 (fun i j _ => f i j).
Proof.
  intros (St & Wt & Gt). unfold torch.unsqueeze. rewrite St. simpl.
  eexists; split; [reflexivity|]. split; [reflexivity|]. split.
  - unfold wf in *. simpl. rewrite Wt, St. simpl. lia.
  - intros i j k Hi Hj Hk. rewrite <- Gt by assumption.
    unfold get. rewrite St. simpl. f_equal; lia.
Qed.

Lemma bmm_3 (x y : Tensor R) a n m p f g :
  tensor3 0%R x a n m f -> tensor3 0%R y a m p g ->
  exists z, torch.bmm x y = Ok z /\
    tensor3 0%R z a n p (fun i r c => torch.rsum m (fun k => f i r k * g i k c)%R).
Proof.
  intros (Sx & Wx & Gx) (Sy & Wy & Gy). unfold torch.bmm, torch.matmul.
  rewrite Sx, Sy. simpl. rewrite !Nat.eqb_refl. simpl.
  eexists; split; [reflexivity|].
  split; [reflexivity|]. split; [apply wf_tabulate|].
  intros i r c Hi Hr Hc. rewrite get_tabulate by (simpl; tauto).
  simpl. apply rsum_ext. intros k Hk.
  rewrite Gx, Gy by assumption. reflexivity.
Qed.

(** The tail of [NRMSModel.forward] (lines 125-126): each score is the dot
    product of a candidate vector with the user vector, nothing more. *)
Lemma scores_run (cv u : Tensor R) N M F fc fu :
  tensor2 0%R cv (N * M) F fc -> tensor2 0%R u N F fu -> 0 < N * M ->
  exists nv u2 b sc,
    torch.view_infer cv [N; M] = Ok nv /\
    torch.unsqueeze u 2 = Ok u2 /\
    torch.bmm nv u2 = Ok b /\
    torch.squeeze b (-1) = Ok sc /\
    tensor2 0%R sc N M
      (fun i c => torch.rsum F (fun k => fc (i * M + c)%nat k * fu i k)%R).
Proof.
  intros Tc Tu Hpos.
  destruct (view_infer_3 cv N M F fc Tc Hpos) as (nv & Hnv & Tnv).
  destruct (unsqueeze_2 u N F fu Tu) as (u2 & Hu2 & Tu2).
  destruct (bmm_3 nv u2 N M F 1 _ _ Tnv Tu2) as (b & Hb & Tb).
  destruct (squeeze_last_3 Tb) as (sc & Hsc & Tsc).
  exists nv, u2, b, sc. repeat (split; [assumption|]). exact Tsc.
Qed.

(** ** NRMSModel.encode_news *)

Lemma bind_zoom {T U A B} (proj : T -> U) (inj : U -> T -> T) (m : M U A)
      (k : A -> M T B) s a s1 :
  m (mkState (proj (self s)) (world s)) = (Ok a, s1) ->
  bind (zoom proj inj m) k s = k a (mkState (inj (self s1) (self s)) (world s1)).
Proof. intros H. unfold bind, zoom. rewrite H. reflexivity. Qed.

Lemma nrms_ready_news m V E H D A wq wk wv :
  nrms_ready m V E H D A ->
  linear_dims wq E (H * D) -> linear_dims wk E (H * D) -> linear_dims wv E (H * D) ->
  nrms_ready (NRMSModel.set_news_self_att
                (with_projections (NRMSModel.news_self_att m) wq wk wv) m) V E H D A.
Proof.
  intros (R1 & R2 & R3 & R4 & R5) Lq Lk Lv.
  repeat split; try assumption; try apply R3; try apply R4; try apply R5;
    apply (sa_ready_with_projections _ E H D wq wk wv R2 Lq Lk Lv).
Qed.

Lemma projections_dims self E H D g wq wk wv g0 :
  sa_ready self E H D ->
  projections self E g = Some (wq, wk, wv, g0) ->
  linear_dims wq E (H * D) /\ linear_dims wk E (H * D) /\ linear_dims wv E (H * D).
Proof.
  intros (HH & HD & HO & HW) HP. unfold projections in HP.
  destruct (SelfAttention.WQ self) as [wq'|] eqn:EW.
  - destruct HW as (wk' & wv' & EK & EV & Lq & Lk & Lv).
    rewrite EK, EV in HP. injection HP as <- <- <- <-. auto.
  - rewrite HO in HP.
    pose proof (Linear_new_dims E (H * D) true g) as D1.
    destruct (Linear.new E (H * D) true g) as [a g1].
    pose proof (Linear_new_dims E (H * D) true g1) as D2.
    destruct (Linear.new E (H * D) true g1) as [b g2].
    pose proof (Linear_new_dims E (H * D) true g2) as D3.
    destruct (Linear.new E (H * D) true g2) as [c g3].
    injection HP as <- <- <- <-. auto.
Qed.

(** [encode_news] on a batch of [B] sequences of [L] token ids: the
    embeddings go through dropout, the item self-attention and the item
    additive attention. *)
Lemma encode_news_run ids s B L V E H D A :
  nrms_ready (self s) V E H D A -> shape ids = [B; L] -> ids_ok V ids ->
  exists X0 wq wk wv g0 s',
    Embedding.forward (NRMSModel.embedding (self s)) ids = Ok X0 /\
    tensor3 0%R X0 B L E
      (fun n l k => get 0%R (NRMSModel.embedding (self s))
                      [Z.to_nat (get 0%Z ids [n; l]); k]) /\
    let dX := Dropout.forward (NRMSModel.dropout (self s)) X0 (rng (world s)) in
    let nsa := NRMSModel.news_self_att (self s) in
    let na := NRMSModel.news_att (self s) in
    projections nsa E (snd dX) = Some (wq, wk, wv, g0) /\
    let Y := SpecSelfAttention.encode wq wk wv H D (SelfAttention.dropout nsa) g0
               (fst dX) (fst dX) (fst dX) in
    let g2 := snd (Dropout.forward (SelfAttention.dropout nsa)
                     (SpecSelfAttention.attn wq wk H D (fst dX) (fst dX)) g0) in
    NRMSModel.encode_news ids s
    = (Ok (SpecAdditiveAttention.pool (AdditiveAttention.W na) (AdditiveAttention.q na)
             (H * D) A (AdditiveAttention.dropout na) g2 Y), s') /\
    self s' = NRMSModel.set_news_self_att (with_projections nsa wq wk wv) (self s) /\
    rng (world s') =
      snd (Dropout.forward (AdditiveAttention.dropout na)
             (SpecAdditiveAttention.pooled (AdditiveAttention.W na)
                (AdditiveAttention.q na) (H * D) A Y) g2).
Proof.
  intros Hr Si Hok. pose proof Hr as (R1 & R2 & R3 & R4 & R5).
  destruct (Embedding_forward_2 _ ids B L V E R1 Si Hok) as (X0 & HX0 & TX0).
  pose proof TX0 as (SX0 & WX0 & _).
  set (dX := Dropout.forward (NRMSModel.dropout (self s)) X0 (rng (world s))).
  destruct (Dropout_forward_shape (NRMSModel.dropout (self s)) X0 (rng (world s)) WX0)
    as [SX WX]. fold dX in SX, WX. rewrite SX0 in SX.
  set (s1 := mkState (NRMSModel.news_self_att (self s))
                     (mkWorld (snd dX) (stdout (world s)))).
  destruct (forward_run (fst dX) (fst dX) (fst dX) s1 B L E H D R2 SX WX SX WX SX WX)
    as (wq & wk & wv & g0 & s2 & HP & Hf & Hs2 & Hg2 & Hr2).
  set (Y := SpecSelfAttention.encode wq wk wv H D
              (SelfAttention.dropout (NRMSModel.news_self_att (self s))) g0
              (fst dX) (fst dX) (fst dX)) in *.
  assert (SY : shape Y = [B; L; H * D]).
  { unfold Y, SpecSelfAttention.encode, SpecSelfAttention.combine. rewrite SX.
    reflexivity. }
  assert (WY : wf Y) by apply wf_tabulate.
  destruct (AA_forward_run Y (mkState (NRMSModel.news_att (self s)) (world s2))
              B L (H * D) A R3 SY WY) as (s4 & Ha & Hs4 & Hg4).
  cbn [self world] in Ha, Hs4, Hg4. rewrite Hg2 in Ha, Hg4.
  exists X0, wq, wk, wv, g0.
  exists (mkState (NRMSModel.set_news_att (self s4)
                     (NRMSModel.set_news_self_att (self s2) (self s)))
                  (world s4)).
  split; [exact HX0|]. split; [exact TX0|]. cbv zeta.
  split; [exact HP|].
  unfold NRMSModel.encode_news.
  rewrite bind_get_self, (bind_lift_ok _ _ HX0), bind_with_rng.
  fold dX.
  rewrite (bind_zoom NRMSModel.news_self_att NRMSModel.set_news_self_att _ _ _ _ s2)
    by exact Hf.
  rewrite (bind_zoom NRMSModel.news_att NRMSModel.set_news_att _ _ _ _ s4)
    by exact Ha.
  split; [reflexivity|]. split.
  - cbn [self]. rewrite Hs4, Hs2. cbn. destruct (self s). reflexivity.
  - cbn [world]. exact Hg4.
Qed.

(** ** Sums under a rearrangement of the indices *)

Lemma rsum_fold n f : torch.rsum n f = fold_right Rplus 0%R (map f (seq 0 n)).
Proof.
  induction n as [|n IH]; [reflexivity|].
  rewrite seq_S, map_app, fold_right_app. simpl. rewrite IH.
  generalize (map f (seq 0 n)). intros l. induction l as [|a l IHl]; simpl.
  - ring.
  - rewrite <- IHl. ring.
Qed.

Lemma fold_Rplus_perm (l1 l2 : list R) :
  Permutation l1 l2 -> fold_right Rplus 0%R l1 = fold_right Rplus 0%R l2.
Proof.
  induction 1; simpl; try congruence.
  ring.
Qed.

Lemma rsum_permutes L p g :
  permutes L p -> torch.rsum L (fun j => g (p j)) = torch.rsum L g.
Proof.
  intros Hp. rewrite !rsum_fold.
  rewrite <- (map_map p g). apply fold_Rplus_perm. apply Permutation_map. exact Hp.
Qed.

Lemma permutes_lt L p j : permutes L p -> j < L -> p j < L.
Proof.
  intros Hp Hj.
  assert (In (p j) (seq 0 L)).
  { eapply Permutation_in; [exact Hp|]. apply in_map. apply in_seq. lia. }
  apply in_seq in H. lia.
Qed.

Lemma permutes_id L : permutes L (fun j => j).
Proof. unfold permutes. rewrite map_id. apply Permutation_refl. Qed.

(** ** The attention primitives commute with gathering rows and
    rearranging positions *)

Section Gather.

Variables (B' B L : nat) (rho : nat -> nat) (pi : nat -> nat -> nat).
Hypothesis rho_lt : forall n, n < B' -> rho n < B.
Hypothesis pi_perm : forall n, n < B' -> permutes L (pi n).

Lemma project_gather w E X' X n i o :
  gathered3 X' X B' L E rho pi -> n < B' -> i < L ->
  SpecSelfAttention.project w E X' n i o
  = SpecSelfAttention.project w E X (rho n) (pi n i) o.
Proof.
  intros HG Hn Hi. unfold SpecSelfAttention.project. f_equal.
  apply rsum_ext. intros k Hk. now rewrite HG.
Qed.

Lemma scores_gather wq wk E D X' X n h i j :
  gathered3 X' X B' L E rho pi -> n < B' -> i < L -> j < L ->
  SpecSelfAttention.scores D
    (SpecSelfAttention.head D (SpecSelfAttention.project wq E X'))
    (SpecSelfAttention.head D (SpecSelfAttention.project wk E X')) n h i j
  = SpecSelfAttention.scores D
      (SpecSelfAttention.head D (SpecSelfAttention.project wq E X))
      (SpecSelfAttention.head D (SpecSelfAttention.project wk E X))
      (rho n) h (pi n i) (pi n j).
Proof.
  intros HG Hn Hi Hj. unfold SpecSelfAttention.scores, SpecSelfAttention.head.
  f_equal. apply rsum_ext. intros k Hk.
  now rewrite !(project_gather _ E X' X) by assumption.
Qed.

Lemma normalize_gather S' S n h i j :
  (forall i j, i < L -> j < L -> S' n h i j = S (rho n) h (pi n i) (pi n j)) ->
  n < B' -> i < L -> j < L ->
  SpecSelfAttention.normalize L S' n h i j
  = SpecSelfAttention.normalize L S (rho n) h (pi n i) (pi n j).
Proof.
  intros HS Hn Hi Hj. unfold SpecSelfAttention.normalize.
  rewrite HS by assumption. f_equal.
  rewrite (rsum_ext L _ (fun j' => exp (S (rho n) h (pi n i) (pi n j'))))
    by (intros j' Hj'; now rewrite HS).
  apply (rsum_permutes L (pi n) (fun j' => exp (S (rho n) h (pi n i) j'))).
  now apply pi_perm.
Qed.

Lemma attend_gather wq wk wv H D E X' X :
  shape X' = [B'; L; E] -> shape X = [B; L; E] ->
  gathered3 X' X B' L E rho pi ->
  gathered3 (attend wq wk wv H D X') (attend wq wk wv H D X) B' L (H * D) rho pi.
Proof.
  intros SX' SX HG n i c Hn Hi Hc.
  assert (HD : D <> 0) by (intros ->; lia).
  assert (Hh : c / D < H) by (apply Nat.Div0.div_lt_upper_bound; lia).
  assert (Hd : c mod D < D) by (apply Nat.mod_upper_bound; assumption).
  pose proof (rho_lt n Hn) as Hrn.
  pose proof (permutes_lt L (pi n) i (pi_perm n Hn) Hi) as Hpi.
  unfold attend, SpecSelfAttention.combine, SpecSelfAttention.attn.
  rewrite SX', SX. cbn [nth].
  rewrite !get_tabulate by (simpl; auto).
  cbn [nth].
  rewrite (rsum_ext L _
    (fun j =>
       (SpecSelfAttention.normalize L
          (SpecSelfAttention.scores D
             (SpecSelfAttention.head D (SpecSelfAttention.project wq E X))
             (SpecSelfAttention.head D (SpecSelfAttention.project wk E X)))
          (rho n) (c / D) (pi n i) (pi n j)
        * SpecSelfAttention.head D (SpecSelfAttention.project wv E X)
            (rho n) (c / D) (pi n j) (c mod D))%R)).
  2:{ intros j Hj. rewrite get_tabulate by (simpl; auto). cbn [nth].
      rewrite (normalize_gather _
                 (SpecSelfAttention.scores D
                    (SpecSelfAttention.head D (SpecSelfAttention.project wq E X))
                    (SpecSelfAttention.head D (SpecSelfAttention.project wk E X))));
        try assumption.
      - unfold SpecSelfAttention.head.
        rewrite (project_gather wv E X' X) by assumption. reflexivity.
      - intros i0 j0 Hi0 Hj0. now apply scores_gather. }
  rewrite (rsum_permutes L (pi n)
    (fun j =>
       (SpecSelfAttention.normalize L
          (SpecSelfAttention.scores D
             (SpecSelfAttention.head D (SpecSelfAttention.project wq E X))
             (SpecSelfAttention.head D (SpecSelfAttention.project wk E X)))
          (rho n) (c / D) (pi n i) j
        * SpecSelfAttention.head D (SpecSelfAttention.project wv E X)
            (rho n) (c / D) j (c mod D))%R)) by (now apply pi_perm).
  apply rsum_ext. intros j Hj.
  rewrite get_tabulate by (simpl; auto). reflexivity.
Qed.

Lemma pooled_gather W q F A Y' Y n f :
  shape Y' = [B'; L; F] -> shape Y = [B; L; F] ->
  gathered3 Y' Y B' L F rho pi -> n < B' -> f < F ->
  get 0%R (SpecAdditiveAttention.pooled W q F A Y') [n; f]
  = get 0%R (SpecAdditiveAttention.pooled W q F A Y) [rho n; f].
Proof.
  intros SY' SY HG Hn Hf.
  pose proof (rho_lt n Hn) as Hrn.
  assert (Hsc : forall l, l < L ->
            SpecAdditiveAttention.score W q F A Y' n l
            = SpecAdditiveAttention.score W q F A Y (rho n) (pi n l)).
  { intros l Hl. unfold SpecAdditiveAttention.score, SpecAdditiveAttention.hidden.
    apply rsum_ext. intros a Ha. f_equal. f_equal. f_equal.
    apply rsum_ext. intros k Hk. now rewrite HG. }
  assert (Hw : forall l, l < L ->
            SpecAdditiveAttention.weight W q F A L Y' n l
            = SpecAdditiveAttention.weight W q F A L Y (rho n) (pi n l)).
  { intros l Hl. unfold SpecAdditiveAttention.weight.
    rewrite Hsc by assumption. f_equal.
    rewrite (rsum_ext L _
               (fun l' => exp (SpecAdditiveAttention.score W q F A Y (rho n) (pi n l'))))
      by (intros l' Hl'; now rewrite Hsc).
    apply (rsum_permutes L (pi n)
             (fun l' => exp (SpecAdditiveAttention.score W q F A Y (rho n) l'))).
    now apply pi_perm. }
  unfold SpecAdditiveAttention.pooled. rewrite SY', SY. cbn [nth].
  rewrite !get_tabulate by (simpl; auto). cbn [nth].
  rewrite (rsum_ext L _
    (fun l => (get 0 Y [rho n; pi n l; f]
               * SpecAdditiveAttention.weight W q F A L Y (rho n) (pi n l))%R))
    by (intros l Hl; now rewrite HG, Hw).
  apply (rsum_permutes L (pi n)
           (fun l => (get 0 Y [rho n; l; f]
                      * SpecAdditiveAttention.weight W q F A L Y (rho n) l)%R)).
  now apply pi_perm.
Qed.

End Gather.

(** ** The item encoder at inference *)

Lemma encode_news_off ids s B L V E H D A :
  nrms_ready (self s) V E H D A -> nrms_dropout_off (self s) ->
  shape ids = [B; L] -> ids_ok V ids ->
  exists wq wk wv g0 s',
    projections (NRMSModel.news_self_att (self s)) E (rng (world s))
    = Some (wq, wk, wv, g0) /\
    NRMSModel.encode_news ids s
    = (Ok (item_vectors (self s) wq wk wv H D A ids), s') /\
    self s' = NRMSModel.set_news_self_att
                (with_projections (NRMSModel.news_self_att (self s)) wq wk wv) (self s) /\
    rng (world s') = g0.
Proof.
  intros Hr (D1 & D2 & D3 & D4 & D5) Si Hok.
  destruct (encode_news_run ids s B L V E H D A Hr Si Hok)
    as (X0 & wq & wk & wv & g0 & s' & HX0 & TX0 & HP & Hf & Hs & Hg).
  cbv zeta in HP, Hf, Hg.
  rewrite (Dropout_forward_off _ X0 _ D1) in HP, Hf, Hg. cbn [fst snd] in HP, Hf, Hg.
  unfold SpecSelfAttention.encode, SpecAdditiveAttention.pool in Hf, Hg.
  rewrite (Dropout_forward_off _ _ g0 D2) in Hf, Hg. cbn [fst snd] in Hf, Hg.
  rewrite (Dropout_forward_off _ _ g0 D3) in Hf, Hg. cbn [fst snd] in Hf, Hg.
  assert (EX : X0 = embed (NRMSModel.embedding (self s)) ids).
  { destruct Hr as (R1 & _). unfold embed. rewrite Si, R1. cbn [nth].
    eapply tensor3_unique; [exact TX0|apply tensor3_tabulate|].
    intros n l k Hn Hl Hk. reflexivity. }
  subst X0.
  exists wq, wk, wv, g0, s'. split; [exact HP|]. split; [exact Hf|].
  split; [exact Hs|exact Hg].
Qed.

Lemma shape_embed table ids B L V E :
  shape table = [V; E] -> shape ids = [B; L] -> shape (embed table ids) = [B; L; E].
Proof. intros St Si. unfold embed. now rewrite St, Si. Qed.

Lemma get_embed table ids B L V E n l k :
  shape table = [V; E] -> shape ids = [B; L] -> n < B -> l < L -> k < E ->
  get 0%R (embed table ids) [n; l; k]
  = get 0%R table [Z.to_nat (get 0%Z ids [n; l]); k].
Proof.
  intros St Si Hn Hl Hk. unfold embed. rewrite St, Si. cbn [nth].
  rewrite get_tabulate by (simpl; auto). reflexivity.
Qed.

Lemma shape_attend wq wk wv H D X B L E :
  shape X = [B; L; E] -> shape (attend wq wk wv H D X) = [B; L; H * D].
Proof. intros SX. unfold attend, SpecSelfAttention.combine. now rewrite SX. Qed.

(** The item vector of a row depends on that row alone, and not on the
    order of its tokens. *)
Lemma item_vectors_gather m wq wk wv H D A V E ids' ids B' B L rho pi n f :
  shape (NRMSModel.embedding m) = [V; E] ->
  shape ids' = [B'; L] -> shape ids = [B; L] ->
  (forall n, n < B' -> rho n < B) ->
  (forall n, n < B' -> permutes L (pi n)) ->
  (forall n l, n < B' -> l < L ->
     get 0%Z ids' [n; l] = get 0%Z ids [rho n; pi n l]) ->
  n < B' -> f < H * D ->
  get 0%R (item_vectors m wq wk wv H D A ids') [n; f]
  = get 0%R (item_vectors m wq wk wv H D A ids) [rho n; f].
Proof.
  intros St Si' Si Hrho Hpi Hids Hn Hf. unfold item_vectors.
  apply (pooled_gather B' B L rho pi Hrho Hpi); try assumption.
  - apply (shape_attend _ _ _ _ _ _ B' L E). apply (shape_embed _ _ B' L V E St Si').
  - apply (shape_attend _ _ _ _ _ _ B L E). apply (shape_embed _ _ B L V E St Si).
  - apply (attend_gather B' B L rho pi Hrho Hpi _ _ _ _ _ E).
    + apply (shape_embed _ _ B' L V E St Si').
    + apply (shape_embed _ _ B L V E St Si).
    + intros n0 l k Hn0 Hl Hk.
      rewrite (get_embed _ _ B' L V E) by assumption.
      rewrite (get_embed _ _ B L V E);
        try assumption; [|now apply Hrho|apply permutes_lt; auto].
      now rewrite Hids.
Qed.

(** ** NRMSModel.encode_user and NRMSModel.forward *)

Lemma projections_extends self E g wq wk wv g0 :
  projections self E g = Some (wq, wk, wv, g0) ->
  sa_extends self (with_projections self wq wk wv).
Proof.
  intros HP. unfold projections in HP.
  destruct (SelfAttention.WQ self) as [wq'|] eqn:EW.
  - destruct (SelfAttention.WK self) as [wk'|] eqn:EK; [|discriminate].
    destruct (SelfAttention.WV self) as [wv'|] eqn:EV; [|discriminate].
    injection HP as <- <- <- <-. left. symmetry. now apply with_projections_id.
  - right. split; [exact EW|]. now exists wq, wk, wv.
Qed.

Lemma shape_pool W q F A dr g Y B L :
  shape Y = [B; L; F] ->
  shape (SpecAdditiveAttention.pool W q F A dr g Y) = [B; F] /\
  wf (SpecAdditiveAttention.pool W q F A dr g Y).
Proof.
  intros SY. unfold SpecAdditiveAttention.pool.
  destruct (Dropout_forward_shape dr (SpecAdditiveAttention.pooled W q F A Y) g
              (wf_tabulate _ _)) as [S W0].
  split; [|exact W0]. rewrite S. unfold SpecAdditiveAttention.pooled. now rewrite SY.
Qed.

Lemma shape_encode wq wk wv H D dr g X B L E :
  shape X = [B; L; E] ->
  shape (SpecSelfAttention.encode wq wk wv H D dr g X X X) = [B; L; H * D] /\
  wf (SpecSelfAttention.encode wq wk wv H D dr g X X X).
Proof.
  intros SX. split; [|apply wf_tabulate].
  unfold SpecSelfAttention.encode, SpecSelfAttention.combine. now rewrite SX.
Qed.

(** [encode_news] succeeds on well-formed input and leaves a model that is
    ready, with the item projections in place. *)
Lemma encode_news_ok ids s B L V E H D A :
  nrms_ready (self s) V E H D A -> shape ids = [B; L] -> ids_ok V ids ->
  exists out s',
    NRMSModel.encode_news ids s = (Ok out, s') /\
    shape out = [B; H * D] /\ wf out /\
    nrms_ready (self s') V E H D A /\
    nrms_extends (self s) (self s') /\
    SelfAttention.WQ (NRMSModel.news_self_att (self s')) <> None.
Proof.
  intros Hr Si Hok.
  destruct (encode_news_run ids s B L V E H D A Hr Si Hok)
    as (X0 & wq & wk & wv & g0 & s' & HX0 & TX0 & HP & Hf & Hs & Hg).
  cbv zeta in HP, Hf.
  pose proof TX0 as (SX0 & WX0 & _).
  destruct (Dropout_forward_shape (NRMSModel.dropout (self s)) X0 (rng (world s)) WX0)
    as [SX _]. rewrite SX0 in SX.
  destruct (shape_encode wq wk wv H D
              (SelfAttention.dropout (NRMSModel.news_self_att (self s))) g0 _ B L E SX)
    as [SY _].
  eexists. exists s'. split; [exact Hf|].
  destruct (shape_pool (AdditiveAttention.W (NRMSModel.news_att (self s)))
              (AdditiveAttention.q (NRMSModel.news_att (self s))) (H * D) A
              (AdditiveAttention.dropout (NRMSModel.news_att (self s)))
              (snd (Dropout.forward
                      (SelfAttention.dropout (NRMSModel.news_self_att (self s)))
                      (SpecSelfAttention.attn wq wk H D
                         (fst (Dropout.forward (NRMSModel.dropout (self s)) X0
                                 (rng (world s))))
                         (fst (Dropout.forward (NRMSModel.dropout (self s)) X0
                                 (rng (world s))))) g0))
              _ B L SY) as [SP WP].
  split; [exact SP|]. split; [exact WP|].
  pose proof Hr as (R1 & R2 & R3 & R4 & R5).
  destruct (projections_dims _ E H D _ wq wk wv g0 R2 HP) as (Lq & Lk & Lv).
  rewrite Hs. split; [now apply nrms_ready_news|]. split.
  - repeat split; cbn; try apply sa_extends_refl.
    apply (projections_extends _ E _ wq wk wv g0 HP).
  - cbn. congruence.
Qed.

Lemma ids_ok_same_data V (a b : Tensor Z) : data b = data a -> ids_ok V a -> ids_ok V b.
Proof. unfold ids_ok. now intros ->. Qed.

Lemma nrms_ready_extends m m' V E H D A :
  nrms_ready m V E H D A -> nrms_extends m m' ->
  sa_ready (NRMSModel.user_self_att m') (H * D) H D ->
  sa_ready (NRMSModel.news_self_att m') E H D ->
  nrms_ready m' V E H D A.
Proof.
  intros (R1 & R2 & R3 & R4 & R5) (A1 & A2 & A3 & A4 & A5 & A6) Hu Hn.
  unfold nrms_ready. rewrite <- A1, <- A4, <- A6. auto.
Qed.

(** [encode_user] on the histories of [N] users, [Hh] items each. *)
Lemma encode_user_run his s N Hh L V E H D A :
  nrms_ready (self s) V E H D A ->
  shape his = [N; Hh; L] -> wf his -> ids_ok V his -> 0 < N * Hh ->
  exists u s1,
    NRMSModel.encode_user his s = (Ok u, s1) /\
    shape u = [N; H * D] /\ wf u /\
    nrms_ready (self s1) V E H D A /\
    nrms_extends (self s) (self s1) /\
    SelfAttention.WQ (NRMSModel.news_self_att (self s1)) <> None.
Proof.
  intros Hr Sh Wh Hok Hpos.
  unfold NRMSModel.encode_user.
  assert (U : unpack3 (torch.size his) = Ok (N, Hh, L))
    by (unfold torch.size; rewrite Sh; reflexivity).
  rewrite (bind_lift_ok _ _ U). cbv beta iota.
  destruct (view_flatten_ids his N Hh L Sh Wh) as (flat & Hv & Sf & Wf & Df).
  rewrite (bind_lift_ok _ _ Hv).
  destruct (encode_news_ok flat s (N * Hh) L V E H D A Hr Sf
              (ids_ok_same_data V his flat Df Hok))
    as (nv & s' & Hn & Snv & Wnv & Hr' & Hext & HWQ).
  rewrite (bind_ok _ Hn).
  destruct (view_infer_3 nv N Hh (H * D) _ (tensor2_self Snv Wnv) Hpos)
    as (nv3 & Hnv3 & (S3 & W3 & _)).
  rewrite (bind_lift_ok _ _ Hnv3).
  pose proof Hr' as (R1 & R2 & R3 & R4 & R5).
  destruct (forward_run nv3 nv3 nv3
              (mkState (NRMSModel.user_self_att (self s')) (world s'))
              N Hh (H * D) H D R4 S3 W3 S3 W3 S3 W3)
    as (wq & wk & wv & g0 & s2 & HP & Hf & Hs2 & Hg2 & Hr2).
  rewrite (bind_zoom NRMSModel.user_self_att NRMSModel.set_user_self_att _ _ _ _ s2)
    by exact Hf.
  cbn [self world] in *.
  destruct (shape_encode wq wk wv H D
              (SelfAttention.dropout (NRMSModel.user_self_att (self s'))) g0
              nv3 N Hh (H * D) S3) as [SY WY].
  destruct (AA_forward_run _
              (mkState (NRMSModel.user_att (self s')) (world s2))
              N Hh (H * D) A R5 SY WY) as (s4 & Ha & Hs4 & Hg4).
  rewrite (bind_zoom NRMSModel.user_att NRMSModel.set_user_att _ _ _ _ s4)
    by exact Ha.
  cbn [self world] in *.
  destruct (shape_pool (AdditiveAttention.W (NRMSModel.user_att (self s')))
              (AdditiveAttention.q (NRMSModel.user_att (self s'))) (H * D) A
              (AdditiveAttention.dropout (NRMSModel.user_att (self s')))
              (rng (world s2)) _ N Hh SY) as [SP WP].
  eexists. eexists. unfold ret. split; [reflexivity|].
  split; [exact SP|]. split; [exact WP|]. cbn [self].
  rewrite Hs4, Hs2.
  assert (Hext2 : nrms_extends (self s')
                    (NRMSModel.set_user_att (NRMSModel.user_att (self s'))
                       (NRMSModel.set_user_self_att
                          (with_projections (NRMSModel.user_self_att (self s'))
                             wq wk wv) (self s')))).
  { repeat split; cbn; try apply sa_extends_refl.
    apply (projections_extends _ (H * D) _ wq wk wv g0 HP). }
  destruct (projections_dims _ (H * D) H D _ wq wk wv g0 R4 HP) as (Lq & Lk & Lv).
  split; [|split].
  - apply (nrms_ready_extends (self s') _ V E H D A Hr' Hext2); cbn.
    + now apply sa_ready_with_projections.
    + exact R2.
  - eapply nrms_extends_trans; eassumption.
  - cbn. exact HWQ.
Qed.

(** [forward]: the user vector, the candidate vectors, and their dot
    products. *)
Lemma NRMS_forward_run his pred s N Hh L M L' V E H D A :
  nrms_ready (self s) V E H D A ->
  shape his = [N; Hh; L] -> wf his -> ids_ok V his ->
  shape pred = [N; M; L'] -> wf pred -> ids_ok V pred ->
  0 < N -> 0 < Hh -> 0 < M ->
  exists u s1 flat cv s2 sc,
    NRMSModel.encode_user his s = (Ok u, s1) /\
    shape u = [N; H * D] /\ wf u /\
    nrms_ready (self s1) V E H D A /\ nrms_extends (self s) (self s1) /\
    torch.view pred [N * M; L'] = Ok flat /\
    shape flat = [N * M; L'] /\ data flat = data pred /\
    NRMSModel.encode_news flat s1 = (Ok cv, s2) /\
    shape cv = [N * M; H * D] /\ wf cv /\
    NRMSModel.forward his pred s = (Ok sc, s2) /\
    tensor2 0%R sc N M
      (fun b c => torch.rsum (H * D)
                    (fun f => get 0 cv [(b * M + c)%nat; f] * get 0 u [b; f])%R).
Proof.
  intros Hr Sh Wh Hokh Sp Wp Hokp HN HH HM.
  destruct (encode_user_run his s N Hh L V E H D A Hr Sh Wh Hokh ltac:(nia))
    as (u & s1 & Hu & Su & Wu & Hr1 & Hext & _).
  destruct (view_flatten_ids pred N M L' Sp Wp) as (flat & Hv & Sf & Wf & Df).
  destruct (encode_news_ok flat s1 (N * M) L' V E H D A Hr1 Sf
              (ids_ok_same_data V pred flat Df Hokp))
    as (cv & s2 & Hc & Scv & Wcv & _).
  destruct (scores_run cv u N M (H * D) _ _ (tensor2_self Scv Wcv)
              (tensor2_self Su Wu) ltac:(nia))
    as (nv & u2 & b & sc & H1 & H2 & H3 & H4 & Tsc).
  exists u, s1, flat, cv, s2, sc.
  repeat (split; [assumption|]).
  split; [|exact Tsc].
  unfold NRMSModel.forward.
  rewrite (bind_ok _ Hu).
  assert (U : unpack3 (torch.size pred) = Ok (N, M, L'))
    by (unfold torch.size; rewrite Sp; reflexivity).
  rewrite (bind_lift_ok _ _ U). cbv beta iota.
  rewrite (bind_lift_ok _ _ Hv), (bind_ok _ Hc).
  rewrite (bind_lift_ok _ _ H1), (bind_lift_ok _ _ H2).
  rewrite (bind_lift_ok _ _ H3), (bind_lift_ok _ _ H4).
  reflexivity.
Qed.

(** ** Token ids of rearranged inputs *)

Lemma ids_ok_get V (ids : Tensor Z) idx :
  ids_ok V ids -> wf ids -> in_bounds (shape ids) idx ->
  (0 <= get 0%Z ids idx < Z.of_nat V)%Z.
Proof.
  intros Hok Wi Hb. unfold get. unfold ids_ok in Hok.
  rewrite Forall_forall in Hok. apply Hok. apply nth_In.
  rewrite Wi. now apply ravel_lt.
Qed.

Lemma ids_ok_tabulate V sh f :
  (forall idx, in_bounds sh idx -> (0 <= f idx < Z.of_nat V)%Z) ->
  ids_ok V (tabulate sh f).
Proof.
  intros Hf. unfold ids_ok, tabulate. cbn [data].
  apply Forall_forall. intros z Hz. apply in_map_iff in Hz.
  destruct Hz as (k & <- & Hk). apply in_seq in Hk.
  apply Hf. apply unravel_in_bounds. lia.
Qed.

Lemma permute_tokens_ok V pi ids B L :
  shape ids = [B; L] -> wf ids -> ids_ok V ids ->
  (forall n, n < B -> permutes L (pi n)) ->
  shape (permute_tokens pi ids) = [B; L] /\ wf (permute_tokens pi ids) /\
  ids_ok V (permute_tokens pi ids) /\
  forall n l, n < B -> l < L ->
    get 0%Z (permute_tokens pi ids) [n; l] = get 0%Z ids [n; pi n l].
Proof.
  intros Si Wi Hok Hpi. unfold permute_tokens. rewrite Si.
  split; [reflexivity|]. split; [apply wf_tabulate|]. split.
  - apply ids_ok_tabulate. intros idx Hb.
    destruct (in_bounds2 _ _ _ Hb) as (n & l & -> & Hn & Hl). cbn [nth].
    apply ids_ok_get; try assumption. rewrite Si. simpl.
    split; [assumption|]. split; [|exact I]. apply permutes_lt; auto.
  - intros n l Hn Hl. rewrite get_tabulate by (simpl; auto). reflexivity.
Qed.

Lemma permute_candidates_ok V sigma pred N M L :
  shape pred = [N; M; L] -> wf pred -> ids_ok V pred -> permutes M sigma ->
  shape (permute_candidates sigma pred) = [N; M; L] /\
  wf (permute_candidates sigma pred) /\
  ids_ok V (permute_candidates sigma pred) /\
  forall b c l, b < N -> c < M -> l < L ->
    get 0%Z (permute_candidates sigma pred) [b; c; l] = get 0%Z pred [b; sigma c; l].
Proof.
  intros Sp Wp Hok Hs. unfold permute_candidates. rewrite Sp.
  split; [reflexivity|]. split; [apply wf_tabulate|]. split.
  - apply ids_ok_tabulate. intros idx Hb.
    destruct (in_bounds3 _ _ _ _ Hb) as (b & c & l & -> & Hb' & Hc & Hl). cbn [nth].
    apply ids_ok_get; try assumption. rewrite Sp. simpl.
    split; [assumption|]. split; [apply permutes_lt; auto|]. split; [assumption|exact I].
  - intros b c l Hb Hc Hl. rewrite get_tabulate by (simpl; auto). reflexivity.
Qed.

(** ** Methods that print nothing when [verbose] is off *)

Section Silent.

Context {T : Type} (P : T -> Prop).

Lemma silent_ret {A} (a : A) : silent P (ret a).
Proof. intros s Hs. cbn. auto. Qed.

Lemma silent_lift {A} (o : Outcome A) : silent P (lift o).
Proof. intros s Hs. cbn. auto. Qed.

Lemma silent_with_rng {A} (f : torch.Generator -> A * torch.Generator) :
  silent P (with_rng f).
Proof. intros s Hs. unfold with_rng. destruct (f (rng (world s))). cbn. auto. Qed.

Lemma silent_modify (f : T -> T) : (forall x, P x -> P (f x)) -> silent P (modify f).
Proof. intros Hf s Hs. cbn. auto. Qed.

Lemma silent_bind {A B} (m : M T A) (k : A -> M T B) :
  silent P m -> (forall a, silent P (k a)) -> silent P (bind m k).
Proof.
  intros Hm Hk s Hs. unfold bind. destruct (Hm s Hs) as [P1 O1].
  destruct (m s) as [[a|e] s1]; cbn in *; [|auto].
  destruct (Hk a s1 P1) as [P2 O2]. split; [exact P2|congruence].
Qed.

Lemma silent_get_self {B} (k : T -> M T B) :
  (forall x, P x -> silent P (k x)) -> silent P (bind get_self k).
Proof. intros Hk s Hs. rewrite bind_get_self. now apply Hk. Qed.

End Silent.

Lemma silent_zoom {T U A} (P : T -> Prop) (PU : U -> Prop)
      (proj : T -> U) (inj : U -> T -> T) (m : M U A) :
  silent PU m ->
  (forall x, P x -> PU (proj x)) ->
  (forall u x, PU u -> P x -> P (inj u x)) ->
  silent P (zoom proj inj m).
Proof.
  intros Hm Hp Hi s Hs. unfold zoom.
  destruct (Hm (mkState (proj (self s)) (world s)) (Hp _ Hs)) as [P1 O1].
  destruct (m _) as [r s1]. cbn in *. auto.
Qed.

Ltac silent_step :=
  match goal with
  | |- silent _ (ret _) => apply silent_ret
  | |- silent _ (lift _) => apply silent_lift
  | |- silent _ (with_rng _) => apply silent_with_rng
  | |- silent _ (modify _) => apply silent_modify; intros [] ?; assumption
  | |- silent _ (bind _ _) => apply silent_bind; [|intros ?]
  | |- silent _ (match ?a with (_, _) => _ end) => destruct a
  end.

Lemma SA_forward_silent Q_seq K_seq V_seq :
  silent sa_quiet (SelfAttention.forward Q_seq K_seq V_seq).
Proof.
  unfold SelfAttention.forward, SelfAttention.attention.
  apply silent_bind.
  - apply silent_get_self. intros x Hx. apply silent_bind.
    + destruct (SelfAttention.WQ x); repeat silent_step.
    + intros _. apply silent_get_self. intros y Hy.
      unfold sa_quiet in Hy. rewrite Hy. repeat silent_step.
  - intros [[[attn V] N] L]. apply silent_get_self. intros y Hy.
    unfold sa_quiet in Hy. rewrite Hy. repeat silent_step.
Qed.

Lemma AA_forward_silent x :
  silent aa_quiet (AdditiveAttention.forward x).
Proof.
  unfold AdditiveAttention.forward, AdditiveAttention.weights.
  apply silent_bind.
  - apply silent_get_self. intros y Hy. repeat silent_step.
  - intros attn. apply silent_get_self. intros y Hy.
    unfold aa_quiet in Hy. rewrite Hy. repeat silent_step.
Qed.

Ltac silent_zoom_step :=
  match goal with
  | |- silent nrms_quiet (zoom NRMSModel.news_self_att _ _) =>
      apply silent_zoom with (PU := sa_quiet); [apply SA_forward_silent| |]
  | |- silent nrms_quiet (zoom NRMSModel.user_self_att _ _) =>
      apply silent_zoom with (PU := sa_quiet); [apply SA_forward_silent| |]
  | |- silent nrms_quiet (zoom NRMSModel.news_att _ _) =>
      apply silent_zoom with (PU := aa_quiet); [apply AA_forward_silent| |]
  | |- silent nrms_quiet (zoom NRMSModel.user_att _ _) =>
      apply silent_zoom with (PU := aa_quiet); [apply AA_forward_silent| |]
  end;
  [ unfold nrms_quiet; intros; tauto
  | unfold nrms_quiet; cbn; intros; tauto ].

Lemma encode_news_silent news_input :
  silent nrms_quiet (NRMSModel.encode_news news_input).
Proof.
  unfold NRMSModel.encode_news.
  apply silent_get_self. intros x Hx.
  repeat first [silent_zoom_step | silent_step].
Qed.

Lemma encode_user_silent history_input :
  silent nrms_quiet (NRMSModel.encode_user history_input).
Proof.
  unfold NRMSModel.encode_user.
  repeat first [apply encode_news_silent | silent_zoom_step | silent_step].
Qed.

Lemma NRMS_forward_silent his_input pred_input :
  silent nrms_quiet (NRMSModel.forward his_input pred_input).
Proof.
  unfold NRMSModel.forward.
  repeat first [apply encode_news_silent | apply encode_user_silent | silent_step].
Qed.

(** ** The concrete scenarios of the specification, by evaluation *)

Example scenario_self_attention :
  Example.shape_of
    (SelfAttention.forward Example.scenario_x Example.scenario_x Example.scenario_x
       (mkState Example.scenario_sa Example.world0)) = inl [2; 5; 8] /\
  stdout (world (snd
    (SelfAttention.forward Example.scenario_x Example.scenario_x Example.scenario_x
       (mkState Example.scenario_sa Example.world0))))
  = ["Q shape: torch.Size([2, 2, 5, 4])"%string;
     "K shape: torch.Size([2, 2, 5, 4])"%string;
     "V shape: torch.Size([2, 2, 5, 4])"%string;
     "Attention shape: torch.Size([2, 2, 5, 5])"%string;
     "Output shape: torch.Size([2, 5, 8])"%string].
Proof. split; cbv; reflexivity. Qed.

Example scenario_additive_attention :
  Example.shape_of
    (AdditiveAttention.forward Example.scenario_x
       (mkState Example.scenario_aa Example.world0)) = inl [2; 8] /\
  stdout (world (snd
    (AdditiveAttention.forward Example.scenario_x
       (mkState Example.scenario_aa Example.world0))))
  = ["Attention weights shape: torch.Size([2, 5, 1])"%string;
     "Input shape: torch.Size([2, 5, 8])"%string;
     "Output shape: torch.Size([2, 8])"%string].
Proof. split; cbv; reflexivity. Qed.

(** A later call with another embedding width raises: the projections
    keep the width of the first call. *)
Example scenario_width_drift :
  Example.shape_of
    (SelfAttention.forward (mkTensor [2; 5; 3] (repeat 1%R 30))
       (mkTensor [2; 5; 3] (repeat 1%R 30)) (mkTensor [2; 5; 3] (repeat 1%R 30))
       (snd (SelfAttention.forward Example.scenario_x Example.scenario_x
               Example.scenario_x (mkState Example.scenario_sa Example.world0))))
  = inr RuntimeError.
Proof. cbv. reflexivity. Qed.

Example scenario_scores :
  Example.shape_of
    (NRMSModel.forward Example.history Example.candidates
       (mkState Example.model Example.world0)) = inl [1; 2].
Proof. cbv. reflexivity. Qed.

(** * The properties stated by the specification *)

(** C1.  A call of [SelfAttention.forward] on three inputs of shape
    [batch x length x embedding_dim], on an object that is fresh or whose
    projections were created for that width, returns what the specification
    describes: Q, K and V are projected and split into [head_num] heads of
    width [head_dim], the per-head scores are (Q . K^t) / sqrt(head_dim),
    they are softmax-normalized along the last axis, dropout is applied to
    the normalized attention matrix, the result is multiplied by V and the
    heads are recombined into a trailing dimension of head_num * head_dim. *)
Theorem C1_self_attention_forward Q_seq K_seq V_seq s N L E H D :
  sa_ready (self s) E H D ->
  shape Q_seq = [N; L; E] -> wf Q_seq ->
  shape K_seq = [N; L; E] -> wf K_seq ->
  shape V_seq = [N; L; E] -> wf V_seq ->
  exists wq wk wv g0,
    projections (self s) E (rng (world s)) = Some (wq, wk, wv, g0) /\
    fst (SelfAttention.forward Q_seq K_seq V_seq s)
    = Ok (SpecSelfAttention.encode wq wk wv H D (SelfAttention.dropout (self s))
            g0 Q_seq K_seq V_seq).
Proof.
  intros Hr SQ WQ SK WK SV WV.
  destruct (forward_run Q_seq K_seq V_seq s N L E H D Hr SQ WQ SK WK SV WV)
    as (wq & wk & wv & g0 & s' & HP & Hf & _).
  exists wq, wk, wv, g0. split; [exact HP|]. now rewrite Hf.
Qed.

Lemma C1_self_attention_forward_example :
  exists wq wk wv g0,
    projections Example.sa 1 Example.gen = Some (wq, wk, wv, g0) /\
    fst (SelfAttention.forward Example.x Example.x Example.x
           (mkState Example.sa Example.world0))
    = Ok (SpecSelfAttention.encode wq wk wv 1 1 Example.drop g0
            Example.x Example.x Example.x).
Proof.
  apply (C1_self_attention_forward Example.x Example.x Example.x
           (mkState Example.sa Example.world0) 1 1 1 1 1);
    first [reflexivity | repeat split].
Defined.

(** C3.  [AdditiveAttention.forward] on an input of shape
    [batch x length x feature_dim] with length >= 1 scores each position by
    a bias-free linear map applied to the tanh of a feed-forward projection,
    softmax-normalizes the scalars across the length axis, so that the
    weights of each instance sum to 1, and returns the weighted sum of [x]
    along the length axis followed by dropout; the output has shape
    [batch x feature_dim]. *)
Theorem C3_additive_attention_forward x (s : State AdditiveAttention.t) N L F A :
  aa_ready (self s) F A -> shape x = [N; L; F] -> wf x -> 1 <= L ->
  let W := AdditiveAttention.W (self s) in
  let q := AdditiveAttention.q (self s) in
  exists w out,
    AdditiveAttention.weights x s = (Ok w, s) /\
    tensor3 0%R w N L 1 (fun n l _ => SpecAdditiveAttention.weight W q F A L x n l) /\
    (forall n, n < N -> torch.rsum L (fun l => get 0%R w [n; l; 0]) = 1%R) /\
    fst (AdditiveAttention.forward x s) = Ok out /\
    out = SpecAdditiveAttention.pool W q F A (AdditiveAttention.dropout (self s))
            (rng (world s)) x /\
    shape out = [N; F].
Proof.
  intros Hr Sx Wx HL W q. subst W q.
  destruct (weights_run x s N L F A Hr Sx Wx) as (w & Hw & Tw).
  destruct (AA_forward_run x s N L F A Hr Sx Wx) as (s' & Hf & _).
  exists w. eexists. split; [exact Hw|]. split; [exact Tw|]. split.
  - intros n Hn. destruct Tw as (_ & _ & Gw).
    rewrite (rsum_ext L _ (fun l => SpecAdditiveAttention.weight
                                     (AdditiveAttention.W (self s))
                                     (AdditiveAttention.q (self s)) F A L x n l))
      by (intros l Hl; apply Gw; [assumption|assumption|lia]).
    unfold SpecAdditiveAttention.weight. apply softmax_sums_to_1. lia.
  - split; [now rewrite Hf|]. split; [reflexivity|].
    unfold SpecAdditiveAttention.pool.
    destruct (Dropout_forward_shape (AdditiveAttention.dropout (self s))
                (SpecAdditiveAttention.pooled (AdditiveAttention.W (self s))
                   (AdditiveAttention.q (self s)) F A x) (rng (world s))
                (wf_tabulate _ _)) as [Sh _].
    rewrite Sh. unfold SpecAdditiveAttention.pooled. rewrite Sx. reflexivity.
Qed.

Lemma C3_additive_attention_forward_example :
  exists w out,
    AdditiveAttention.weights Example.x (mkState Example.aa Example.world0)
    = (Ok w, mkState Example.aa Example.world0) /\
    tensor3 0%R w 1 1 1
      (fun n l _ => SpecAdditiveAttention.weight (Example.lin true) (Example.lin false)
                      1 1 1 Example.x n l) /\
    (forall n, n < 1 -> torch.rsum 1 (fun l => get 0%R w [n; l; 0]) = 1%R) /\
    fst (AdditiveAttention.forward Example.x (mkState Example.aa Example.world0))
    = Ok out /\
    out = SpecAdditiveAttention.pool (Example.lin true) (Example.lin false) 1 1
            Example.drop Example.gen Example.x /\
    shape out = [1; 1].
Proof.
  apply (C3_additive_attention_forward Example.x
           (mkState Example.aa Example.world0) 1 1 1 1);
    first [reflexivity | lia | repeat split].
Defined.

(** C4.  On every valid input of [SelfAttention.forward], each row of the
    per-head attention weight matrix produced by the softmax (line 44), for
    every batch instance, head and query position, sums to 1 and has only
    non-negative entries.  ([head_dim] is not 0: the program would divide the
    scores by zero.) *)
Theorem C4_attention_rows Q_seq K_seq V_seq s N L E H D :
  sa_ready (self s) E H D -> D <> 0 ->
  shape Q_seq = [N; L; E] -> wf Q_seq ->
  shape K_seq = [N; L; E] -> wf K_seq ->
  shape V_seq = [N; L; E] -> wf V_seq ->
  exists attn V s1,
    SelfAttention.attention Q_seq K_seq V_seq s = (Ok (attn, V, N, L), s1) /\
    shape attn = [N; H; L; L] /\
    forall n h i, n < N -> h < H -> i < L ->
      torch.rsum L (fun j => get 0%R attn [n; h; i; j]) = 1%R /\
      forall j, j < L -> (0 <= get 0%R attn [n; h; i; j])%R.
Proof.
  intros Hr HD SQ WQ SK WK SV WV.
  destruct (attention_run Q_seq K_seq V_seq s N L E H D Hr SQ WQ SK WK SV WV)
    as (wq & wk & wv & g0 & Vh & s1 & _ & Hf).
  exists (SpecSelfAttention.attn wq wk H D Q_seq K_seq), Vh, s1.
  split; [exact Hf|].
  unfold SpecSelfAttention.attn. rewrite SQ. cbn [nth].
  split; [reflexivity|].
  intros n h i Hn Hh Hi.
  set (S := SpecSelfAttention.scores D
              (SpecSelfAttention.head D (SpecSelfAttention.project wq E Q_seq))
              (SpecSelfAttention.head D (SpecSelfAttention.project wk E K_seq))).
  assert (G : forall j, j < L ->
            get 0%R (tabulate [N; H; L; L] (fun idx =>
                       SpecSelfAttention.normalize L S (nth 0 idx 0) (nth 1 idx 0)
                         (nth 2 idx 0) (nth 3 idx 0))) [n; h; i; j]
            = SpecSelfAttention.normalize L S n h i j).
  { intros j Hj. rewrite get_tabulate by (simpl; tauto). reflexivity. }
  split.
  - rewrite (rsum_ext L _ (fun j => SpecSelfAttention.normalize L S n h i j)) by exact G.
    unfold SpecSelfAttention.normalize. apply softmax_sums_to_1. lia.
  - intros j Hj. rewrite G by assumption.
    unfold SpecSelfAttention.normalize. apply softmax_nonneg.
Qed.

Lemma C4_attention_rows_example :
  exists attn V s1,
    SelfAttention.attention Example.x Example.x Example.x
      (mkState Example.sa Example.world0) = (Ok (attn, V, 1, 1), s1) /\
    shape attn = [1; 1; 1; 1] /\
    forall n h i, n < 1 -> h < 1 -> i < 1 ->
      torch.rsum 1 (fun j => get 0%R attn [n; h; i; j]) = 1%R /\
      forall j, j < 1 -> (0 <= get 0%R attn [n; h; i; j])%R.
Proof.
  apply (C4_attention_rows Example.x Example.x Example.x
           (mkState Example.sa Example.world0) 1 1 1 1 1);
    first [reflexivity | lia | repeat split].
Defined.

(** C5.  For any batch size, any length L and any embedding width E equal
    to the width seen at the first call, [SelfAttention.forward] returns a
    tensor of shape [batch x L x head_num*head_dim]: the output width is
    fixed by the construction-time [head_num] and [head_dim] and does not
    depend on L or E. *)
Theorem C5_self_attention_shape Q_seq K_seq V_seq s N L E H D :
  sa_ready (self s) E H D ->
  shape Q_seq = [N; L; E] -> wf Q_seq ->
  shape K_seq = [N; L; E] -> wf K_seq ->
  shape V_seq = [N; L; E] -> wf V_seq ->
  exists out,
    fst (SelfAttention.forward Q_seq K_seq V_seq s) = Ok out /\
    shape out = [N; L; SelfAttention.head_num (self s) * SelfAttention.head_dim (self s)] /\
    wf out.
Proof.
  intros Hr SQ WQ SK WK SV WV.
  destruct (forward_run Q_seq K_seq V_seq s N L E H D Hr SQ WQ SK WK SV WV)
    as (wq & wk & wv & g0 & s' & _ & Hf & _).
  destruct Hr as (-> & -> & _).
  eexists. split; [now rewrite Hf|]. split.
  - unfold SpecSelfAttention.encode, SpecSelfAttention.combine. rewrite SQ.
    reflexivity.
  - apply wf_tabulate.
Qed.

Lemma C5_self_attention_shape_example :
  exists out,
    fst (SelfAttention.forward Example.x Example.x Example.x
           (mkState Example.sa Example.world0)) = Ok out /\
    shape out = [1; 1; 1 * 1] /\ wf out.
Proof.
  apply (C5_self_attention_shape Example.x Example.x Example.x
           (mkState Example.sa Example.world0) 1 1 1 1 1);
    first [reflexivity | repeat split].
Defined.

(** C10.  The [verbose] flag is a pure observer: two runs of a forward
    operation from states whose objects differ at most in their [verbose]
    flags, with the same generator, return the same outcome and leave
    objects that again differ at most in [verbose], with the same
    generator; only what is printed may differ, and with [verbose] off
    nothing is printed. *)
Theorem C10_verbose_is_observer :
  ((forall Q_seq K_seq V_seq,
      agree sa_up_to_verbose same_rng
        (SelfAttention.forward Q_seq K_seq V_seq)
        (SelfAttention.forward Q_seq K_seq V_seq)) /\
   (forall x,
      agree aa_up_to_verbose same_rng
        (AdditiveAttention.forward x) (AdditiveAttention.forward x)) /\
   (forall news,
      agree nrms_up_to_verbose same_rng
        (NRMSModel.encode_news news) (NRMSModel.encode_news news)) /\
   (forall his,
      agree nrms_up_to_verbose same_rng
        (NRMSModel.encode_user his) (NRMSModel.encode_user his)) /\
   (forall his pred,
      agree nrms_up_to_verbose same_rng
        (NRMSModel.forward his pred) (NRMSModel.forward his pred))) /\
  ((forall Q_seq K_seq V_seq,
      silent sa_quiet (SelfAttention.forward Q_seq K_seq V_seq)) /\
   (forall x, silent aa_quiet (AdditiveAttention.forward x)) /\
   (forall news, silent nrms_quiet (NRMSModel.encode_news news)) /\
   (forall his, silent nrms_quiet (NRMSModel.encode_user his)) /\
   (forall his pred, silent nrms_quiet (NRMSModel.forward his pred))).
Proof.
  split.
  - split; [exact SA_forward_verbose|].
    split; [exact AA_forward_verbose|].
    split; [exact encode_news_verbose|].
    split; [exact encode_user_verbose|exact NRMS_forward_verbose].
  - split; [exact SA_forward_silent|].
    split; [exact AA_forward_silent|].
    split; [exact encode_news_silent|].
    split; [exact encode_user_silent|exact NRMS_forward_silent].
Qed.

Lemma C10_verbose_is_observer_example :
  fst (NRMSModel.forward Example.history Example.candidates
         (mkState Example.model Example.world0))
  = fst (NRMSModel.forward Example.history Example.candidates
           (mkState Example.model_verbose Example.world0)) /\
  stdout (world (snd (NRMSModel.forward Example.history Example.candidates
                        (mkState Example.model Example.world0)))) = [].
Proof.
  split.
  - apply (proj2 (proj2 (proj2 (proj2 (proj1 C10_verbose_is_observer))))
             Example.history Example.candidates
             (mkState Example.model Example.world0)
             (mkState Example.model_verbose Example.world0)).
    + repeat split.
    + reflexivity.
  - apply (proj2 (proj2 (proj2 (proj2 (proj2 C10_verbose_is_observer))))
             Example.history Example.candidates
             (mkState Example.model Example.world0)).
    repeat split.
Defined.

(** C2.  For a history tensor [batch x hist_len x seq_len] and a candidate
    tensor [batch x cand_count x seq_len], the top-level forward pass
    returns scores of shape [batch x cand_count] in which [scores[b,c]] is
    the dot product of the item vector of candidate [c] of user [b] with the
    vector of user [b]; nothing is applied to the dot product. *)
Theorem C2_forward_scores his pred s N Hh L M L' V E H D A :
  nrms_ready (self s) V E H D A ->
  shape his = [N; Hh; L] -> wf his -> ids_ok V his ->
  shape pred = [N; M; L'] -> wf pred -> ids_ok V pred ->
  0 < N -> 0 < Hh -> 0 < M ->
  exists user_vector s1 flat news_vectors s2 scores,
    NRMSModel.encode_user his s = (Ok user_vector, s1) /\
    torch.view pred [N * M; L'] = Ok flat /\
    NRMSModel.encode_news flat s1 = (Ok news_vectors, s2) /\
    fst (NRMSModel.forward his pred s) = Ok scores /\
    shape scores = [N; M] /\
    forall b c, b < N -> c < M ->
      get 0%R scores [b; c]
      = torch.rsum (H * D)
          (fun f => get 0 news_vectors [(b * M + c)%nat; f] * get 0 user_vector [b; f])%R.
Proof.
  intros Hr Sh Wh Hokh Sp Wp Hokp HN HH HM.
  destruct (NRMS_forward_run his pred s N Hh L M L' V E H D A
              Hr Sh Wh Hokh Sp Wp Hokp HN HH HM)
    as (u & s1 & flat & cv & s2 & sc & Hu & _ & _ & _ & _ & Hv & _ & _ & Hc & _ & _
        & Hf & (Ssc & _ & Gsc)).
  exists u, s1, flat, cv, s2, sc.
  split; [exact Hu|]. split; [exact Hv|]. split; [exact Hc|].
  split; [now rewrite Hf|]. split; [exact Ssc|exact Gsc].
Qed.

Lemma C2_forward_scores_example :
  exists user_vector s1 flat news_vectors s2 scores,
    NRMSModel.encode_user Example.history (mkState Example.model Example.world0)
    = (Ok user_vector, s1) /\
    torch.view Example.candidates [1 * 2; 2] = Ok flat /\
    NRMSModel.encode_news flat s1 = (Ok news_vectors, s2) /\
    fst (NRMSModel.forward Example.history Example.candidates
           (mkState Example.model Example.world0)) = Ok scores /\
    shape scores = [1; 2] /\
    forall b c, b < 1 -> c < 2 ->
      get 0%R scores [b; c]
      = torch.rsum (1 * 1)
          (fun f => get 0 news_vectors [(b * 2 + c)%nat; f] * get 0 user_vector [b; f])%R.
Proof.
  apply (C2_forward_scores Example.history Example.candidates
           (mkState Example.model Example.world0) 1 1 2 2 2 2 1 1 1 1);
    first [reflexivity | lia | repeat split | idtac].
  - repeat constructor; cbn; lia.
  - repeat constructor; cbn; lia.
Defined.

(** C7.  With the weights fixed and dropout off, the scores have shape
    exactly [batch x cand_count] for any cand_count >= 1, and rearranging
    the candidates along the candidate axis rearranges the scores in the
    same way: slot [c] of the new scores is score [sigma c] of the old. *)
Theorem C7_candidate_equivariance his pred s sigma N Hh L M L' V E H D A :
  nrms_ready (self s) V E H D A -> nrms_dropout_off (self s) ->
  shape his = [N; Hh; L] -> wf his -> ids_ok V his ->
  shape pred = [N; M; L'] -> wf pred -> ids_ok V pred ->
  0 < N -> 0 < Hh -> 1 <= M -> permutes M sigma ->
  exists scores scores',
    fst (NRMSModel.forward his pred s) = Ok scores /\
    fst (NRMSModel.forward his (permute_candidates sigma pred) s) = Ok scores' /\
    shape scores = [N; M] /\ shape scores' = [N; M] /\
    forall b c, b < N -> c < M ->
      get 0%R scores' [b; c] = get 0%R scores [b; sigma c].
Proof.
  intros Hr Hd Sh Wh Hokh Sp Wp Hokp HN HH HM Hsig.
  destruct (permute_candidates_ok V sigma pred N M L' Sp Wp Hokp Hsig)
    as (Sp' & Wp' & Hokp' & Gp').
  destruct (NRMS_forward_run his pred s N Hh L M L' V E H D A
              Hr Sh Wh Hokh Sp Wp Hokp HN HH ltac:(lia))
    as (u & s1 & flat & cv & s2 & sc & Hu & Su & Wu & Hr1 & Hext & Hv & Sf & Df
        & Hc & Scv & Wcv & Hf & (Ssc & _ & Gsc)).
  destruct (NRMS_forward_run his (permute_candidates sigma pred) s N Hh L M L' V E H D A
              Hr Sh Wh Hokh Sp' Wp' Hokp' HN HH ltac:(lia))
    as (u' & s1' & flat' & cv' & s2' & sc' & Hu' & _ & _ & _ & _ & Hv' & Sf' & Df'
        & Hc' & Scv' & Wcv' & Hf' & (Ssc' & _ & Gsc')).
  rewrite Hu in Hu'. injection Hu' as <- <-.
  exists sc, sc'. split; [now rewrite Hf|]. split; [now rewrite Hf'|].
  split; [exact Ssc|]. split; [exact Ssc'|].
  pose proof (nrms_extends_dropout _ _ Hd Hext) as Hd1.
  destruct (encode_news_off flat s1 (N * M) L' V E H D A Hr1 Hd1 Sf
              (ids_ok_same_data V pred flat Df Hokp))
    as (wq & wk & wv & g0 & t & HP & Ho & _).
  destruct (encode_news_off flat' s1 (N * M) L' V E H D A Hr1 Hd1 Sf'
              (ids_ok_same_data V _ flat' Df' Hokp'))
    as (wq' & wk' & wv' & g0' & t' & HP' & Ho' & _).
  rewrite HP in HP'. injection HP' as <- <- <- <-.
  rewrite Hc in Ho. injection Ho as -> _.
  rewrite Hc' in Ho'. injection Ho' as -> _.
  intros b c Hb Hc0.
  pose proof (permutes_lt M sigma c Hsig Hc0) as Hsc.
  rewrite Gsc', Gsc by assumption.
  apply rsum_ext. intros f Hf0. f_equal.
  set (rho := fun i => (i / M) * M + sigma (i mod M)).
  destruct Hr1 as (R1 & _).
  rewrite (item_vectors_gather (self s1) wq wk wv H D A V E flat' flat
             (N * M) (N * M) L' rho (fun _ l => l) (b * M + c) f R1 Sf' Sf).
  - unfold rho.
    assert (E1 : (b * M + c) / M = b)
      by (rewrite Nat.div_add_l, Nat.div_small; lia).
    assert (E2 : (b * M + c) mod M = c)
      by (rewrite Nat.add_comm, Nat.Div0.mod_add; apply Nat.mod_small; lia).
    rewrite E1, E2. reflexivity.
  - intros i Hi. unfold rho.
    assert (i / M < N) by (apply Nat.Div0.div_lt_upper_bound; lia).
    assert (sigma (i mod M) < M)
      by (apply permutes_lt; [assumption|apply Nat.mod_upper_bound; lia]).
    nia.
  - intros i Hi. apply permutes_id.
  - intros i l Hi Hl. unfold rho.
    assert (Hq : i / M < N) by (apply Nat.Div0.div_lt_upper_bound; lia).
    assert (Hm : i mod M < M) by (apply Nat.mod_upper_bound; lia).
    rewrite (Nat.div_mod_eq i M) at 1. rewrite (Nat.mul_comm M (i / M)).
    rewrite (get_flatten_ids _ flat' N M L' (i / M) (i mod M) l Sp' Sf' Df').
    rewrite (get_flatten_ids _ flat N M L' (i / M) (sigma (i mod M)) l Sp Sf Df).
    apply Gp'; assumption.
  - nia.
  - exact Hf0.
Qed.

Lemma C7_candidate_equivariance_example :
  exists scores scores',
    fst (NRMSModel.forward Example.history Example.candidates
           (mkState Example.model Example.world0)) = Ok scores /\
    fst (NRMSModel.forward Example.history
           (permute_candidates (fun c => 1 - c) Example.candidates)
           (mkState Example.model Example.world0)) = Ok scores' /\
    shape scores = [1; 2] /\ shape scores' = [1; 2] /\
    forall b c, b < 1 -> c < 2 ->
      get 0%R scores' [b; c] = get 0%R scores [b; 1 - c].
Proof.
  apply (C7_candidate_equivariance Example.history Example.candidates
           (mkState Example.model Example.world0) (fun c => 1 - c)
           1 1 2 2 2 2 1 1 1 1);
    first [reflexivity | lia | idtac].
  - repeat split.
  - unfold nrms_dropout_off, sa_dropout_off, aa_dropout_off, dropout_off; cbn;
      repeat split; left; reflexivity.
  - repeat constructor; cbn; lia.
  - repeat constructor; cbn; lia.
  - unfold permutes. cbn. apply perm_swap.
Defined.

(** C9.  With dropout off and the weights fixed, [encode_news] does not
    depend on the order of the tokens inside each sequence: rearranging the
    token ids of every item by a permutation of its positions leaves the
    item vectors unchanged (entries are real numbers in this model). *)
Theorem C9_token_order_invariance ids s pi B L V E H D A :
  nrms_ready (self s) V E H D A -> nrms_dropout_off (self s) ->
  shape ids = [B; L] -> wf ids -> ids_ok V ids ->
  (forall n, n < B -> permutes L (pi n)) ->
  exists out,
    fst (NRMSModel.encode_news ids s) = Ok out /\
    fst (NRMSModel.encode_news (permute_tokens pi ids) s) = Ok out.
Proof.
  intros Hr Hd Si Wi Hok Hpi.
  destruct (permute_tokens_ok V pi ids B L Si Wi Hok Hpi) as (Si' & Wi' & Hok' & Gi').
  destruct (encode_news_off ids s B L V E H D A Hr Hd Si Hok)
    as (wq & wk & wv & g0 & t & HP & Ho & _).
  destruct (encode_news_off (permute_tokens pi ids) s B L V E H D A Hr Hd Si' Hok')
    as (wq' & wk' & wv' & g0' & t' & HP' & Ho' & _).
  rewrite HP in HP'. injection HP' as <- <- <- <-.
  exists (item_vectors (self s) wq wk wv H D A ids).
  split; [now rewrite Ho|]. rewrite Ho'. cbn [fst]. f_equal.
  destruct Hr as (R1 & _).
  assert (Sv : forall t0, shape t0 = [B; L] ->
             shape (item_vectors (self s) wq wk wv H D A t0) = [B; H * D]).
  { intros t0 St0. unfold item_vectors, SpecAdditiveAttention.pooled.
    rewrite (shape_attend _ _ _ _ _ _ B L E (shape_embed _ _ B L V E R1 St0)).
    reflexivity. }
  apply tensor_ext with (d := 0%R); try apply wf_tabulate.
  - now rewrite !Sv.
  - intros idx Hb. rewrite Sv in Hb by assumption.
    destruct (in_bounds2 _ _ _ Hb) as (n & f & -> & Hn & Hf).
    apply (item_vectors_gather (self s) wq wk wv H D A V E (permute_tokens pi ids) ids
             B B L (fun n => n) pi n f R1 Si' Si); auto.
Qed.

Lemma C9_token_order_invariance_example :
  exists out,
    fst (NRMSModel.encode_news (mkTensor [1; 2] [0%Z; 1%Z])
           (mkState Example.model Example.world0)) = Ok out /\
    fst (NRMSModel.encode_news
           (permute_tokens (fun _ l => 1 - l) (mkTensor [1; 2] [0%Z; 1%Z]))
           (mkState Example.model Example.world0)) = Ok out.
Proof.
  apply (C9_token_order_invariance (mkTensor [1; 2] [0%Z; 1%Z])
           (mkState Example.model Example.world0) (fun _ l => 1 - l)
           1 2 2 1 1 1 1);
    first [reflexivity | idtac].
  - repeat split.
  - unfold nrms_dropout_off, sa_dropout_off, aa_dropout_off, dropout_off; cbn;
      repeat split; left; reflexivity.
  - repeat constructor; cbn; lia.
  - intros n _. unfold permutes. cbn. apply perm_swap.
Defined.

(** * Lemmas for the further properties *)

(** ** What a call may change: composition rules *)

Section Grows.

Context {T : Type} (le : T -> T -> Prop).
Hypothesis le_refl : forall x, le x x.
Hypothesis le_trans : forall x y z, le x y -> le y z -> le x z.

Lemma grows_ret {A} (a : A) : grows le (ret a).
Proof. intros s. apply le_refl. Qed.

Lemma grows_lift {A} (o : Outcome A) : grows le (lift o).
Proof. intros s. apply le_refl. Qed.

Lemma grows_with_rng {A} (f : torch.Generator -> A * torch.Generator) :
  grows le (with_rng f).
Proof. intros s. unfold with_rng. destruct (f (rng (world s))). apply le_refl. Qed.

Lemma grows_bind {A B} (m : M T A) (k : A -> M T B) :
  grows le m -> (forall a, grows le (k a)) -> grows le (bind m k).
Proof.
  intros Hm Hk s. unfold bind. specialize (Hm s).
  destruct (m s) as [[a|e] s1]; cbn in *; [|exact Hm].
  eapply le_trans; [exact Hm|apply Hk].
Qed.

Lemma grows_get_self {B} (k : T -> M T B) :
  (forall x, grows le (k x)) -> grows le (bind get_self k).
Proof. intros Hk s. rewrite bind_get_self. apply Hk. Qed.

End Grows.

Lemma grows_zoom {T U A} (le : T -> T -> Prop) (leU : U -> U -> Prop)
      (proj : T -> U) (inj : U -> T -> T) (m : M U A) :
  grows leU m ->
  (forall x u, leU (proj x) u -> le x (inj u x)) ->
  grows le (zoom proj inj m).
Proof.
  intros Hm Hi s. unfold zoom.
  specialize (Hm (mkState (proj (self s)) (world s))).
  destruct (m _) as [r s1]. cbn in *. now apply Hi.
Qed.

(** [SelfAttention.forward] only ever adds the projections. *)
Lemma SA_forward_grows Q_seq K_seq V_seq :
  grows sa_extends (SelfAttention.forward Q_seq K_seq V_seq).
Proof.
  intros s.
  destruct (SelfAttention.WQ (self s)) as [wq|] eqn:EW.
  - left. symmetry. rewrite <- (state_eta s) at 1.
    apply SA_forward_keeps. congruence.
  - destruct (torch.size_at Q_seq (-1)) as [E|e] eqn:ES.
    + destruct (projections_fresh (self s) E (rng (world s)) EW)
        as (wq & wk & wv & g & HP & _).
      rewrite (SA_forward_creates Q_seq K_seq V_seq s E wq wk wv g EW ES HP).
      right. split; [exact EW|]. now exists wq, wk, wv.
    + rewrite (forward_fresh_fail Q_seq K_seq V_seq s EW ES). now left.
Qed.

Lemma AA_forward_grows x : grows eq (AdditiveAttention.forward x).
Proof.
  intros s. symmetry. rewrite <- (state_eta s) at 1. apply AA_forward_keeps.
Qed.

Lemma news_extends_refl a : news_extends a a.
Proof. split; [apply nrms_extends_refl|reflexivity]. Qed.

Lemma news_extends_trans a b c : news_extends a b -> news_extends b c -> news_extends a c.
Proof.
  intros [A1 A2] [B1 B2]. split; [eapply nrms_extends_trans; eassumption|congruence].
Qed.

Lemma encode_news_grows news_input :
  grows news_extends (NRMSModel.encode_news news_input).
Proof.
  unfold NRMSModel.encode_news.
  apply grows_get_self. intros x.
  apply grows_bind; [apply news_extends_trans|apply grows_lift; apply news_extends_refl|].
  intros x0.
  apply grows_bind;
    [apply news_extends_trans|apply grows_with_rng; apply news_extends_refl|].
  intros x1.
  apply grows_bind; [apply news_extends_trans| |].
  - apply grows_zoom with (leU := sa_extends); [apply SA_forward_grows|].
    intros y u Hu. split; [|reflexivity].
    repeat split; cbn; try apply sa_extends_refl; exact Hu.
  - intros x2.
    apply grows_bind; [apply news_extends_trans| |].
    + apply grows_zoom with (leU := eq); [apply AA_forward_grows|].
      intros y u <-. destruct y. apply news_extends_refl.
    + intros x3. apply grows_ret. apply news_extends_refl.
Qed.

Ltac grows_step :=
  match goal with
  | |- grows _ (ret _) => apply grows_ret; apply nrms_extends_refl
  | |- grows _ (lift _) => apply grows_lift; apply nrms_extends_refl
  | |- grows _ (zoom NRMSModel.user_self_att _ _) =>
      apply grows_zoom with (leU := sa_extends); [apply SA_forward_grows|];
      let y := fresh in let u := fresh in let Hu := fresh in
      intros y u Hu; repeat split; cbn; try apply sa_extends_refl; exact Hu
  | |- grows _ (zoom NRMSModel.user_att _ _) =>
      apply grows_zoom with (leU := eq); [apply AA_forward_grows|];
      let y := fresh in let u := fresh in
      intros y u <-; destruct y; apply nrms_extends_refl
  | |- grows _ (bind _ _) => apply grows_bind; [apply nrms_extends_trans| |intros ?]
  | |- grows _ (match ?a with (_, _) => _ end) => destruct a
  end.

Lemma encode_news_grows_nrms news_input :
  grows nrms_extends (NRMSModel.encode_news news_input).
Proof. intros s. apply encode_news_grows. Qed.

Lemma encode_user_grows history_input :
  grows nrms_extends (NRMSModel.encode_user history_input).
Proof.
  unfold NRMSModel.encode_user.
  repeat first [apply encode_news_grows_nrms | grows_step].
Qed.

Lemma NRMS_forward_grows his_input pred_input :
  grows nrms_extends (NRMSModel.forward his_input pred_input).
Proof.
  unfold NRMSModel.forward.
  repeat first [apply encode_news_grows_nrms | apply encode_user_grows | grows_step].
Qed.

(** ** Inference has no side effect but printing *)

Ltac pure_zoom_step x :=
  match goal with
  | |- pure_at _ (zoom NRMSModel.news_self_att _ _) =>
      apply pure_at_zoom; [destruct x; reflexivity|apply SA_forward_pure; assumption]
  | |- pure_at _ (zoom NRMSModel.user_self_att _ _) =>
      apply pure_at_zoom; [destruct x; reflexivity|apply SA_forward_pure; assumption]
  | |- pure_at _ (zoom NRMSModel.news_att _ _) =>
      apply pure_at_zoom; [destruct x; reflexivity|apply AA_forward_pure; assumption]
  | |- pure_at _ (zoom NRMSModel.user_att _ _) =>
      apply pure_at_zoom; [destruct x; reflexivity|apply AA_forward_pure; assumption]
  end.

Lemma encode_news_pure news_input x :
  nrms_settled x -> pure_at x (NRMSModel.encode_news news_input).
Proof.
  intros (W1 & W2 & D1 & D2 & D3 & D4 & D5).
  unfold NRMSModel.encode_news.
  repeat first [pure_zoom_step x | pure_step].
Qed.

Lemma encode_user_pure history_input x :
  nrms_settled x -> pure_at x (NRMSModel.encode_user history_input).
Proof.
  intros Hx. pose proof Hx as (W1 & W2 & D1 & D2 & D3 & D4 & D5).
  unfold NRMSModel.encode_user.
  repeat first [apply encode_news_pure; assumption | pure_zoom_step x | pure_step].
Qed.

Lemma NRMS_forward_pure his_input pred_input x :
  nrms_settled x -> pure_at x (NRMSModel.forward his_input pred_input).
Proof.
  intros Hx. unfold NRMSModel.forward.
  repeat first [apply encode_news_pure; assumption
               | apply encode_user_pure; assumption | pure_step].
Qed.

Lemma pure_at_spelled {T A} (x : T) (m : M T A) :
  pure_at x m ->
  forall w,
    self (snd (m (mkState x w))) = x /\
    rng (world (snd (m (mkState x w)))) = rng w /\
    forall w', fst (m (mkState x w')) = fst (m (mkState x w)).
Proof.
  intros [r Hr] w. destruct (Hr w) as (o & E). rewrite E. cbn.
  split; [reflexivity|]. split; [reflexivity|].
  intros w'. destruct (Hr w') as (o' & E'). now rewrite E'.
Qed.

(** ** When the calls raise *)

Lemma Embedding_forward_oov table ids :
  ~ ids_ok (nth 0 (shape table) 0) ids ->
  Embedding.forward table ids = Raise IndexError.
Proof.
  intros Hn. unfold Embedding.forward.
  destruct (forallb _ (data ids)) eqn:Ef; [|reflexivity].
  exfalso. apply Hn. unfold ids_ok. apply Forall_forall. intros i Hi.
  rewrite forallb_forall in Ef. specialize (Ef i Hi).
  apply andb_true_iff in Ef. destruct Ef as [E1 E2].
  apply Z.leb_le in E1. apply Z.ltb_lt in E2. lia.
Qed.

Lemma encode_news_oov ids s :
  ~ ids_ok (nth 0 (shape (NRMSModel.embedding (self s))) 0) ids ->
  NRMSModel.encode_news ids s = (Raise IndexError, s).
Proof.
  intros Hn. unfold NRMSModel.encode_news. rewrite bind_get_self.
  unfold bind, lift. now rewrite (Embedding_forward_oov _ _ Hn).
Qed.

Lemma ids_ok_view V (a b : Tensor Z) sh :
  torch.view a sh = Ok b -> (ids_ok V b <-> ids_ok V a).
Proof.
  unfold torch.view. destruct (numel sh =? numel (shape a)); [|discriminate].
  intros [= <-]. reflexivity.
Qed.

Lemma encode_user_oov his s N Hh L :
  shape his = [N; Hh; L] ->
  ~ ids_ok (nth 0 (shape (NRMSModel.embedding (self s))) 0) his ->
  NRMSModel.encode_user his s = (Raise IndexError, s).
Proof.
  intros Sh Hn. unfold NRMSModel.encode_user.
  assert (U : unpack3 (torch.size his) = Ok (N, Hh, L))
    by (unfold torch.size; rewrite Sh; reflexivity).
  rewrite (bind_lift_ok _ _ U). cbv beta iota.
  assert (Ev : torch.view his [N * Hh; L] = Ok (mkTensor [N * Hh; L] (data his))).
  { unfold torch.view. rewrite Sh.
    assert (E : numel [N * Hh; L] = numel [N; Hh; L]) by (simpl; ring).
    now rewrite E, Nat.eqb_refl. }
  rewrite (bind_lift_ok _ _ Ev).
  apply bind_raise. apply encode_news_oov.
  intros Hok. apply Hn. now apply (ids_ok_view _ his _ _ Ev).
Qed.

Lemma Linear_forward_raise l x :
  last (shape x) 0 <> Linear.in_features l ->
  Linear.forward l x = Raise RuntimeError.
Proof.
  intros Hn. unfold Linear.forward. destruct (shape x) as [|a sh] eqn:E; [reflexivity|].
  destruct (Nat.eqb_spec (last (a :: sh) 0) (Linear.in_features l)); [contradiction|].
  reflexivity.
Qed.

Lemma Linear_forward_any l x :
  shape x <> [] -> last (shape x) 0 = Linear.in_features l ->
  exists y, Linear.forward l x = Ok y /\
    shape y = removelast (shape x) ++ [Linear.out_features l] /\ wf y.
Proof.
  intros Hne Hl. unfold Linear.forward. destruct (shape x) as [|a sh] eqn:E; [congruence|].
  rewrite Hl, Nat.eqb_refl. eexists. split; [reflexivity|].
  split; [reflexivity|apply wf_tabulate].
Qed.

Lemma wrap_dim_last n : 0 < n -> torch.wrap_dim n (-1) = Some (n - 1).
Proof.
  intros Hn. unfold torch.wrap_dim.
  replace (Nat.max n 1) with n by lia.
  assert (Hc : ((- Z.of_nat n <=? -1) && (-1 <? Z.of_nat n))%Z = true).
  { apply andb_true_iff. split; [apply Z.leb_le|apply Z.ltb_lt]; lia. }
  rewrite Hc. f_equal.
  replace (-1)%Z with (Z.of_nat (n - 1) + (-1) * Z.of_nat n)%Z by lia.
  rewrite Z.mod_add by lia. rewrite Z.mod_small by lia. lia.
Qed.

Lemma nth_pred_last (l : list nat) : nth (length l - 1) l 0 = last l 0.
Proof.
  induction l as [|a [|b l] IH]; try reflexivity.
  assert (E : length (a :: b :: l) - 1 = S (length (b :: l) - 1))
    by (cbn [length]; lia).
  rewrite E.
  change (last (a :: b :: l) 0) with (last (b :: l) 0).
  cbn [nth]. exact IH.
Qed.

Lemma size_at_last {A} (t : Tensor A) E :
  torch.size_at t (-1) = Ok E -> shape t <> [] /\ last (shape t) 0 = E.
Proof.
  unfold torch.size_at. destruct (shape t) as [|a sh] eqn:Es; [discriminate|].
  rewrite wrap_dim_last by (cbn; lia). rewrite nth_pred_last.
  intros H. split; [discriminate|]. congruence.
Qed.

(** A ready object behaves like one that holds its projections. *)
Lemma sa_ready_reduce Q_seq K_seq V_seq s E H D :
  sa_ready (self s) E H D -> torch.size_at Q_seq (-1) = Ok E ->
  exists wq wk wv s0,
    SelfAttention.forward Q_seq K_seq V_seq s
    = SelfAttention.forward Q_seq K_seq V_seq s0 /\
    SelfAttention.WQ (self s0) = Some wq /\
    SelfAttention.WK (self s0) = Some wk /\
    SelfAttention.WV (self s0) = Some wv /\
    linear_dims wq E (H * D) /\ linear_dims wk E (H * D) /\
    linear_dims wv E (H * D) /\
    SelfAttention.head_num (self s0) = H /\ SelfAttention.head_dim (self s0) = D.
Proof.
  intros Hr HS. pose proof Hr as (HH & HD & HO & HW).
  destruct (SelfAttention.WQ (self s)) as [wq|] eqn:EWQ.
  - destruct HW as (wk & wv & EWK & EWV & Lq & Lk & Lv).
    exists wq, wk, wv, s. repeat split; try assumption; try apply Lq;
      try apply Lk; try apply Lv.
  - destruct (projections_fresh (self s) E (rng (world s)) EWQ)
      as (wq & wk & wv & g3 & HP & Lq & Lk & Lv).
    rewrite HO in Lq, Lk, Lv.
    exists wq, wk, wv,
      (mkState (with_projections (self s) wq wk wv) (mkWorld g3 (stdout (world s)))).
    split; [apply (forward_lazy_init Q_seq K_seq V_seq s E wq wk wv g3 EWQ HS HP)|].
    destruct s as [[] ?]; cbn in *.
    repeat split; try assumption; try reflexivity; try apply Lq; try apply Lk;
      try apply Lv.
Qed.

Lemma forward_attention_raise Q_seq K_seq V_seq s e s1 :
  SelfAttention.attention Q_seq K_seq V_seq s = (Raise e, s1) ->
  SelfAttention.forward Q_seq K_seq V_seq s = (Raise e, s1).
Proof. intros H. unfold SelfAttention.forward. now apply bind_raise. Qed.

Lemma wf_empty_ids V (t : Tensor Z) : wf t -> numel (shape t) = 0 -> ids_ok V t.
Proof.
  unfold wf, ids_ok. intros W H. rewrite H in W.
  destruct (data t); [constructor|discriminate].
Qed.

Lemma view_infer_empty {A} (t : Tensor A) pre :
  numel pre = 0 -> torch.view_infer t pre = Raise RuntimeError.
Proof.
  intros H. unfold torch.view_infer. rewrite H.
  destruct ((numel (shape t) =? 0) || ((0 <? 0) && (numel (shape t) mod 0 =? 0)));
    reflexivity.
Qed.

(** ** Pooling an empty sequence *)

Lemma Dropout_forward_zeros dr t g :
  Forall (fun v => v = 0%R) (data t) ->
  Forall (fun v => v = 0%R) (data (fst (Dropout.forward dr t g))).
Proof.
  intros Hz. unfold Dropout.forward.
  destruct (Dropout.training dr); [|exact Hz].
  destruct (Req_EM_T (Dropout.p dr) 0); [exact Hz|].
  destruct (numel (shape t) =? 0); [exact Hz|].
  destruct (Req_EM_T (Dropout.p dr) 1).
  - cbn. apply Forall_forall. intros v Hv. apply in_map_iff in Hv.
    now destruct Hv as (? & <- & _).
  - cbn. apply Forall_forall. intros v Hv. apply in_map_iff in Hv.
    destruct Hv as ([x u] & <- & Hin). cbn.
    apply in_combine_l in Hin. rewrite Forall_forall in Hz. rewrite (Hz x Hin).
    destruct (Rlt_dec u (1 - Dropout.p dr)); [unfold Rdiv; ring|reflexivity].
Qed.

Lemma zeros_unique (t : Tensor R) sh :
  shape t = sh -> wf t -> Forall (fun v => v = 0%R) (data t) -> t = zeros sh.
Proof.
  intros S W Hz. apply tensor_ext with (d := 0%R).
  - exact W.
  - apply wf_tabulate.
  - exact S.
  - intros idx Hb. unfold zeros. rewrite S in Hb. rewrite get_tabulate by exact Hb.
    unfold get. rewrite Forall_forall in Hz. apply Hz. apply nth_In.
    rewrite W, S. now apply ravel_lt.
Qed.

(** ** Attention weights are positive and average their inputs *)

Lemma rsum_le n f g :
  (forall j, j < n -> (f j <= g j)%R) -> (torch.rsum n f <= torch.rsum n g)%R.
Proof.
  induction n as [|n IH]; intros H; simpl; [lra|].
  assert (torch.rsum n f <= torch.rsum n g)%R by (apply IH; intros; apply H; lia).
  assert (f n <= g n)%R by (apply H; lia). lra.
Qed.

Lemma rsum_scal_l n c f :
  torch.rsum n (fun j => (c * f j)%R) = (c * torch.rsum n f)%R.
Proof. induction n as [|n IH]; simpl; [ring|]. rewrite IH. ring. Qed.

Lemma rsum_term_le n g j :
  (forall k, k < n -> (0 <= g k)%R) -> j < n -> (g j <= torch.rsum n g)%R.
Proof.
  induction n as [|n IH]; intros Hg Hj; [lia|]. simpl.
  assert (Hn : (0 <= g n)%R) by (apply Hg; lia).
  destruct (Nat.eq_dec j n) as [->|Hne].
  - assert (0 <= torch.rsum n g)%R.
    { rewrite <- (Rmult_0_l (torch.rsum n (fun _ => 0%R))).
      rewrite <- rsum_scal_l. apply rsum_le. intros k Hk.
      rewrite Rmult_0_l. apply Hg. lia. }
    lra.
  - assert (g j <= torch.rsum n g)%R by (apply IH; [intros; apply Hg; lia|lia]). lra.
Qed.

Lemma softmax_pos n f j :
  j < n -> (0 < exp (f j) / torch.rsum n (fun j' => exp (f j')))%R.
Proof.
  intros Hj. apply Rdiv_lt_0_compat; [apply exp_pos|].
  apply rsum_pos; [lia|intros; apply exp_pos].
Qed.

Lemma softmax_le_1 n f j :
  j < n -> (exp (f j) / torch.rsum n (fun j' => exp (f j')) <= 1)%R.
Proof.
  intros Hj.
  assert (Hp : (0 < torch.rsum n (fun j' => exp (f j')))%R)
    by (apply rsum_pos; [lia|intros; apply exp_pos]).
  assert (Ht : (exp (f j) <= torch.rsum n (fun j' => exp (f j')))%R).
  { apply (rsum_term_le n (fun j' => exp (f j')) j); [|exact Hj].
    intros k _. apply Rlt_le, exp_pos. }
  apply Rmult_le_reg_r with (r := torch.rsum n (fun j' => exp (f j'))); [exact Hp|].
  unfold Rdiv. rewrite Rmult_assoc, Rinv_l by lra. lra.
Qed.

(** A weighted sum whose weights are non-negative and sum to 1 lies
    between the bounds of what it averages. *)
Lemma weighted_average_bounds n w v a b :
  (forall j, j < n -> (0 <= w j)%R) -> torch.rsum n w = 1%R ->
  (forall j, j < n -> (a <= v j <= b)%R) ->
  (a <= torch.rsum n (fun j => v j * w j) <= b)%R.
Proof.
  intros Hw Hs Hv. split.
  - replace a with (torch.rsum n (fun j => a * w j))%R
      by (rewrite rsum_scal_l, Hs; ring).
    apply rsum_le. intros j Hj. apply Rmult_le_compat_r; [now apply Hw|].
    now apply Hv.
  - replace b with (torch.rsum n (fun j => b * w j))%R
      by (rewrite rsum_scal_l, Hs; ring).
    apply rsum_le. intros j Hj. apply Rmult_le_compat_r; [now apply Hw|].
    now apply Hv.
Qed.

Lemma get_spec_attn wq wk H D Q K N L E n h i j :
  shape Q = [N; L; E] -> n < N -> h < H -> i < L -> j < L ->
  get 0%R (SpecSelfAttention.attn wq wk H D Q K) [n; h; i; j]
  = SpecSelfAttention.normalize L
      (SpecSelfAttention.scores D
         (SpecSelfAttention.head D (SpecSelfAttention.project wq E Q))
         (SpecSelfAttention.head D (SpecSelfAttention.project wk E K))) n h i j.
Proof.
  intros SQ Hn Hh Hi Hj. unfold SpecSelfAttention.attn. rewrite SQ. cbn [nth].
  rewrite get_tabulate by (simpl; auto). reflexivity.
Qed.

(** At inference every output entry of the self-attention is an average of
    the projected values of its head column. *)
Lemma attend_bounds wq wk wv H D X N L E n i c a b :
  shape X = [N; L; E] -> n < N -> i < L -> c < H * D ->
  (forall j, j < L -> (a <= SpecSelfAttention.project wv E X n j c <= b)%R) ->
  (a <= get 0%R (attend wq wk wv H D X) [n; i; c] <= b)%R.
Proof.
  intros SX Hn Hi Hc Hv.
  assert (HD : D <> 0) by (intros ->; lia).
  assert (Hh : c / D < H) by (apply Nat.Div0.div_lt_upper_bound; lia).
  unfold attend, SpecSelfAttention.combine. rewrite SX. cbn [nth].
  rewrite get_tabulate by (simpl; auto). cbn [nth].
  set (S := SpecSelfAttention.scores D
              (SpecSelfAttention.head D (SpecSelfAttention.project wq E X))
              (SpecSelfAttention.head D (SpecSelfAttention.project wk E X))).
  rewrite (rsum_ext L _
    (fun j => (SpecSelfAttention.project wv E X n j c
               * SpecSelfAttention.normalize L S n (c / D) i j)%R)).
  2:{ intros j Hj. rewrite (get_spec_attn wq wk H D X X N L E) by assumption.
      fold S. unfold SpecSelfAttention.head at 1.
      replace (c / D * D + c mod D) with c
        by (pose proof (Nat.div_mod_eq c D); lia).
      ring. }
  apply weighted_average_bounds.
  - intros j Hj. unfold SpecSelfAttention.normalize. apply softmax_nonneg.
  - unfold SpecSelfAttention.normalize. apply softmax_sums_to_1. lia.
  - exact Hv.
Qed.

(** At inference every pooled feature is an average of that feature over
    the positions. *)
Lemma pooled_bounds W q F A x N L n f a b :
  shape x = [N; L; F] -> 1 <= L -> n < N -> f < F ->
  (forall l, l < L -> (a <= get 0%R x [n; l; f] <= b)%R) ->
  (a <= get 0%R (SpecAdditiveAttention.pooled W q F A x) [n; f] <= b)%R.
Proof.
  intros Sx HL Hn Hf Hv.
  unfold SpecAdditiveAttention.pooled. rewrite Sx. cbn [nth].
  rewrite get_tabulate by (simpl; auto). cbn [nth].
  apply (weighted_average_bounds L
           (fun l => SpecAdditiveAttention.weight W q F A L x n l)
           (fun l => get 0%R x [n; l; f])).
  - intros l Hl. unfold SpecAdditiveAttention.weight. apply softmax_nonneg.
  - unfold SpecAdditiveAttention.weight. apply softmax_sums_to_1. lia.
  - exact Hv.
Qed.

(** ** The user vectors at inference *)

Lemma shape_item_vectors m wq wk wv H D A V E ids B L :
  shape (NRMSModel.embedding m) = [V; E] -> shape ids = [B; L] ->
  shape (item_vectors m wq wk wv H D A ids) = [B; H * D] /\
  wf (item_vectors m wq wk wv H D A ids).
Proof.
  intros St Si. unfold item_vectors, SpecAdditiveAttention.pooled.
  rewrite (shape_attend _ _ _ _ _ _ B L E (shape_embed _ _ B L V E St Si)).
  split; [reflexivity|apply wf_tabulate].
Qed.

Lemma shape_user_vectors m uq uk uv H D A N Hh iv :
  shape (user_vectors m uq uk uv H D A N Hh iv) = [N; H * D] /\
  wf (user_vectors m uq uk uv H D A N Hh iv).
Proof.
  unfold user_vectors, SpecAdditiveAttention.pooled.
  rewrite (shape_attend _ _ _ _ _ _ N Hh (H * D)) by reflexivity.
  split; [reflexivity|apply wf_tabulate].
Qed.

(** [encode_user] at inference, with the projections it uses, the object it
    leaves and the generator it leaves. *)
Lemma encode_user_off his s N Hh L V E H D A :
  nrms_ready (self s) V E H D A -> nrms_dropout_off (self s) ->
  shape his = [N; Hh; L] -> wf his -> ids_ok V his -> 0 < N * Hh ->
  exists flat wq wk wv g0 uq uk uv g1 s1,
    shape flat = [N * Hh; L] /\ data flat = data his /\
    projections (NRMSModel.news_self_att (self s)) E (rng (world s))
    = Some (wq, wk, wv, g0) /\
    projections (NRMSModel.user_self_att (self s)) (H * D) g0
    = Some (uq, uk, uv, g1) /\
    NRMSModel.encode_user his s
    = (Ok (user_vectors (self s) uq uk uv H D A N Hh
             (item_vectors (self s) wq wk wv H D A flat)), s1) /\
    self s1 = NRMSModel.set_user_self_att
                (with_projections (NRMSModel.user_self_att (self s)) uq uk uv)
                (NRMSModel.set_news_self_att
                   (with_projections (NRMSModel.news_self_att (self s)) wq wk wv)
                   (self s)) /\
    rng (world s1) = g1.
Proof.
  intros Hr Hd Sh Wh Hok Hpos.
  pose proof Hr as (R1 & R2 & R3 & R4 & R5).
  pose proof Hd as (D1 & D2 & D3 & D4 & D5).
  unfold NRMSModel.encode_user.
  assert (U : unpack3 (torch.size his) = Ok (N, Hh, L))
    by (unfold torch.size; rewrite Sh; reflexivity).
  rewrite (bind_lift_ok _ _ U). cbv beta iota.
  destruct (view_flatten_ids his N Hh L Sh Wh) as (flat & Hv & Sf & Wf & Df).
  rewrite (bind_lift_ok _ _ Hv).
  destruct (encode_news_off flat s (N * Hh) L V E H D A Hr Hd Sf
              (ids_ok_same_data V his flat Df Hok))
    as (wq & wk & wv & g0 & s' & HP & Ho & Hs' & Hg').
  rewrite (bind_ok _ Ho).
  set (iv := item_vectors (self s) wq wk wv H D A flat).
  destruct (shape_item_vectors (self s) wq wk wv H D A V E flat (N * Hh) L R1 Sf)
    as [Siv Wiv]. fold iv in Siv, Wiv.
  destruct (view_infer_3 iv N Hh (H * D) _ (tensor2_self Siv Wiv) Hpos)
    as (nv3 & Hnv3 & Tnv3).
  rewrite (bind_lift_ok _ _ Hnv3).
  assert (Env : nv3 = regroup N Hh (H * D) iv).
  { unfold regroup. eapply tensor3_unique;
      [exact Tnv3|apply tensor3_tabulate|]. intros; reflexivity. }
  subst nv3. clear Tnv3 Hnv3.
  set (X := regroup N Hh (H * D) iv).
  assert (SX : shape X = [N; Hh; H * D]) by reflexivity.
  assert (WX : wf X) by apply wf_tabulate.
  assert (Eu : NRMSModel.user_self_att (self s') = NRMSModel.user_self_att (self s))
    by (rewrite Hs'; reflexivity).
  assert (Ea : NRMSModel.user_att (self s') = NRMSModel.user_att (self s))
    by (rewrite Hs'; reflexivity).
  destruct (forward_run X X X
              (mkState (NRMSModel.user_self_att (self s')) (world s'))
              N Hh (H * D) H D ltac:(cbn [self]; rewrite Eu; exact R4)
              SX WX SX WX SX WX)
    as (uq & uk & uv & g1 & s2 & HPu & Hf & Hs2 & Hg2 & Hr2).
  cbn [self world] in HPu, Hf, Hs2, Hg2.
  rewrite Eu, Hg' in HPu. rewrite Eu in Hf, Hs2, Hg2.
  unfold SpecSelfAttention.encode in Hf.
  rewrite (Dropout_forward_off _ _ g1 D4) in Hf, Hg2. cbn [fst snd] in Hf, Hg2.
  rewrite (bind_zoom NRMSModel.user_self_att NRMSModel.set_user_self_att _ _ _ _ s2)
    by (rewrite Eu; exact Hf).
  fold (attend uq uk uv H D X).
  assert (SY : shape (attend uq uk uv H D X) = [N; Hh; H * D])
    by (apply (shape_attend _ _ _ _ _ _ N Hh (H * D)); exact SX).
  assert (WY : wf (attend uq uk uv H D X)) by apply wf_tabulate.
  destruct (AA_forward_run (attend uq uk uv H D X)
              (mkState (NRMSModel.user_att (self s')) (world s2))
              N Hh (H * D) A ltac:(cbn [self]; rewrite Ea; exact R5) SY WY)
    as (s4 & Ha & Hs4 & Hg4).
  cbn [self world] in Ha, Hs4, Hg4. rewrite Ea in Ha, Hs4, Hg4.
  unfold SpecAdditiveAttention.pool in Ha.
  rewrite (Dropout_forward_off _ _ _ D5) in Ha, Hg4. cbn [fst snd] in Ha, Hg4.
  rewrite (bind_zoom NRMSModel.user_att NRMSModel.set_user_att _ _ _ _ s4)
    by (cbn [self world NRMSModel.user_att NRMSModel.set_user_self_att];
        rewrite Ea; exact Ha).
  exists flat, wq, wk, wv, g0, uq, uk, uv, g1. eexists.
  split; [exact Sf|]. split; [exact Df|]. split; [exact HP|]. split; [exact HPu|].
  split; [reflexivity|]. cbn [self world]. rewrite Hs4, Hs2, Hg4, Hg2, Hs'.
  split; reflexivity.
Qed.

Lemma projections_stored a wq wk wv E g :
  projections (with_projections a wq wk wv) E g = Some (wq, wk, wv, g).
Proof. reflexivity. Qed.

Lemma divmod_block M b c : c < M -> (b * M + c) / M = b /\ (b * M + c) mod M = c.
Proof.
  intros Hc. split.
  - rewrite Nat.div_add_l, Nat.div_small; lia.
  - rewrite Nat.add_comm, Nat.Div0.mod_add. apply Nat.mod_small; lia.
Qed.

(** The user vector of a row depends on the item vectors of that row
    alone, and not on their order. *)
Lemma user_vectors_gather m uq uk uv H D A N' N Hh iv' iv rho sigma n f :
  (forall n, n < N' -> rho n < N) ->
  (forall n, n < N' -> permutes Hh (sigma n)) ->
  (forall n h k, n < N' -> h < Hh -> k < H * D ->
     get 0%R iv' [n * Hh + h; k] = get 0%R iv [rho n * Hh + sigma n h; k]) ->
  n < N' -> f < H * D ->
  get 0%R (user_vectors m uq uk uv H D A N' Hh iv') [n; f]
  = get 0%R (user_vectors m uq uk uv H D A N Hh iv) [rho n; f].
Proof.
  intros Hrho Hsig Hiv Hn Hf. unfold user_vectors.
  apply (pooled_gather N' N Hh rho sigma Hrho Hsig); try assumption.
  - now apply (shape_attend _ _ _ _ _ _ N' Hh (H * D)).
  - now apply (shape_attend _ _ _ _ _ _ N Hh (H * D)).
  - apply (attend_gather N' N Hh rho sigma Hrho Hsig _ _ _ _ _ (H * D));
      [reflexivity|reflexivity|].
    intros n0 h k Hn0 Hh0 Hk. unfold regroup.
    rewrite get_tabulate by (simpl; auto).
    rewrite get_tabulate
      by (simpl; split; [now apply Hrho|];
          split; [apply permutes_lt; auto|]; split; [assumption|exact I]).
    cbn [nth]. now apply Hiv.
Qed.

(** The scores of [forward] at inference, from the token ids. *)
Lemma NRMS_forward_off his pred s N Hh L M L' V E H D A :
  nrms_ready (self s) V E H D A -> nrms_dropout_off (self s) ->
  shape his = [N; Hh; L] -> wf his -> ids_ok V his ->
  shape pred = [N; M; L'] -> wf pred -> ids_ok V pred ->
  0 < N -> 0 < Hh -> 0 < M ->
  exists flath flatp wq wk wv g0 uq uk uv g1 sc,
    shape flath = [N * Hh; L] /\ data flath = data his /\
    shape flatp = [N * M; L'] /\ data flatp = data pred /\
    projections (NRMSModel.news_self_att (self s)) E (rng (world s))
    = Some (wq, wk, wv, g0) /\
    projections (NRMSModel.user_self_att (self s)) (H * D) g0
    = Some (uq, uk, uv, g1) /\
    fst (NRMSModel.forward his pred s) = Ok sc /\
    tensor2 0%R sc N M
      (fun b c => torch.rsum (H * D)
         (fun f =>
            get 0 (item_vectors (self s) wq wk wv H D A flatp) [(b * M + c)%nat; f]
            * get 0 (user_vectors (self s) uq uk uv H D A N Hh
                       (item_vectors (self s) wq wk wv H D A flath)) [b; f])%R).
Proof.
  intros Hr Hd Sh Wh Hokh Sp Wp Hokp HN HH HM.
  destruct (NRMS_forward_run his pred s N Hh L M L' V E H D A
              Hr Sh Wh Hokh Sp Wp Hokp HN HH HM)
    as (u & s1 & flat & cv & s2 & sc & Hu & Su & Wu & Hr1 & Hext & Hv & Sf & Df
        & Hc & Scv & Wcv & Hf & Tsc).
  destruct (encode_user_off his s N Hh L V E H D A Hr Hd Sh Wh Hokh ltac:(nia))
    as (flath & wq & wk & wv & g0 & uq & uk & uv & g1 & s1' & Sfh & Dfh & HP & HPu
        & Hu' & Hs1 & Hg1).
  rewrite Hu in Hu'. injection Hu' as -> <-.
  pose proof (nrms_extends_dropout _ _ Hd Hext) as Hd1.
  destruct (encode_news_off flat s1 (N * M) L' V E H D A Hr1 Hd1 Sf
              (ids_ok_same_data V pred flat Df Hokp))
    as (wq2 & wk2 & wv2 & g2 & t & HP2 & Ho & _).
  rewrite Hs1, Hg1 in HP2. cbn [NRMSModel.news_self_att NRMSModel.set_user_self_att
                                NRMSModel.set_news_self_att] in HP2.
  rewrite projections_stored in HP2. injection HP2 as <- <- <- <-.
  rewrite Hc in Ho. injection Ho as -> _.
  assert (Eiv : item_vectors (self s1) wq wk wv H D A flat
                = item_vectors (self s) wq wk wv H D A flat)
    by (unfold item_vectors; rewrite Hs1; reflexivity).
  rewrite Eiv in Tsc.
  exists flath, flat, wq, wk, wv, g0, uq, uk, uv, g1, sc.
  repeat (split; [assumption|]).
  split; [now rewrite Hf|exact Tsc].
Qed.

(** The scores of one call are those of another wherever the token ids
    agree: user [n] of the first call is user [rho n] of the second with
    the history rearranged by [sigma n], and candidate [c] of user [n] is
    candidate [tau n c] of user [rho n]. *)
Lemma forward_gather his pred his' pred' s N N' Hh L M M' L' V E H D A rho sigma tau :
  nrms_ready (self s) V E H D A -> nrms_dropout_off (self s) ->
  shape his = [N; Hh; L] -> wf his -> ids_ok V his ->
  shape pred = [N; M; L'] -> wf pred -> ids_ok V pred ->
  shape his' = [N'; Hh; L] -> wf his' -> ids_ok V his' ->
  shape pred' = [N'; M'; L'] -> wf pred' -> ids_ok V pred' ->
  0 < N -> 0 < N' -> 0 < Hh -> 0 < M -> 0 < M' ->
  (forall n, n < N' -> rho n < N) ->
  (forall n, n < N' -> permutes Hh (sigma n)) ->
  (forall n c, n < N' -> c < M' -> tau n c < M) ->
  (forall n h l, n < N' -> h < Hh -> l < L ->
     get 0%Z his' [n; h; l] = get 0%Z his [rho n; sigma n h; l]) ->
  (forall n c l, n < N' -> c < M' -> l < L' ->
     get 0%Z pred' [n; c; l] = get 0%Z pred [rho n; tau n c; l]) ->
  exists sc sc',
    fst (NRMSModel.forward his pred s) = Ok sc /\
    fst (NRMSModel.forward his' pred' s) = Ok sc' /\
    shape sc = [N; M] /\ wf sc /\ shape sc' = [N'; M'] /\ wf sc' /\
    forall n c, n < N' -> c < M' ->
      get 0%R sc' [n; c] = get 0%R sc [rho n; tau n c].
Proof.
  intros Hr Hd Sh Wh Hokh Sp Wp Hokp Sh' Wh' Hokh' Sp' Wp' Hokp'
         HN HN' HH HM HM' Hrho Hsig Htau Ghis Gpred.
  destruct (NRMS_forward_off his pred s N Hh L M L' V E H D A
              Hr Hd Sh Wh Hokh Sp Wp Hokp HN HH HM)
    as (fh & fp & wq & wk & wv & g0 & uq & uk & uv & g1 & sc
        & Sfh & Dfh & Sfp & Dfp & HP & HPu & Hf & (Ssc & Wsc & Gsc)).
  destruct (NRMS_forward_off his' pred' s N' Hh L M' L' V E H D A
              Hr Hd Sh' Wh' Hokh' Sp' Wp' Hokp' HN' HH HM')
    as (fh' & fp' & wq' & wk' & wv' & g0' & uq' & uk' & uv' & g1' & sc'
        & Sfh' & Dfh' & Sfp' & Dfp' & HP' & HPu' & Hf' & (Ssc' & Wsc' & Gsc')).
  rewrite HP in HP'. injection HP' as <- <- <- <-.
  rewrite HPu in HPu'. injection HPu' as <- <- <- <-.
  exists sc, sc'. repeat (split; [assumption|]).
  intros n c Hn Hc.
  pose proof (Hrho n Hn) as Hrn. pose proof (Htau n c Hn Hc) as Htc.
  destruct Hr as (R1 & _).
  rewrite Gsc', Gsc by assumption.
  apply rsum_ext. intros f Hf0. f_equal.
  - set (r := fun i => rho (i / M') * M + tau (i / M') (i mod M')).
    rewrite (item_vectors_gather (self s) wq wk wv H D A V E fp' fp
               (N' * M') (N * M) L' r (fun _ l => l) (n * M' + c) f R1 Sfp' Sfp).
    + unfold r. destruct (divmod_block M' n c Hc) as [-> ->]. reflexivity.
    + intros i Hi. unfold r.
      assert (Hq : i / M' < N') by (apply Nat.Div0.div_lt_upper_bound; lia).
      assert (Hm : i mod M' < M') by (apply Nat.mod_upper_bound; lia).
      pose proof (Hrho _ Hq). pose proof (Htau _ _ Hq Hm). nia.
    + intros i Hi. apply permutes_id.
    + intros i l Hi Hl. unfold r.
      assert (Hq : i / M' < N') by (apply Nat.Div0.div_lt_upper_bound; lia).
      assert (Hm : i mod M' < M') by (apply Nat.mod_upper_bound; lia).
      rewrite (Nat.div_mod_eq i M') at 1. rewrite (Nat.mul_comm M' (i / M')).
      rewrite (get_flatten_ids _ fp' N' M' L' (i / M') (i mod M') l Sp' Sfp' Dfp').
      rewrite (get_flatten_ids _ fp N M L' (rho (i / M')) (tau (i / M') (i mod M')) l
                 Sp Sfp Dfp).
      now apply Gpred.
    + nia.
    + exact Hf0.
  - apply (user_vectors_gather (self s) uq uk uv H D A N' N Hh _ _ rho sigma n f
             Hrho Hsig); try assumption.
    intros n0 h k Hn0 Hh0 Hk.
    pose proof (Hrho n0 Hn0) as Hr0.
    pose proof (permutes_lt Hh (sigma n0) h (Hsig n0 Hn0) Hh0) as Hs0.
    set (r := fun i => rho (i / Hh) * Hh + sigma (i / Hh) (i mod Hh)).
    rewrite (item_vectors_gather (self s) wq wk wv H D A V E fh' fh
               (N' * Hh) (N * Hh) L r (fun _ l => l) (n0 * Hh + h) k R1 Sfh' Sfh).
    + unfold r. destruct (divmod_block Hh n0 h Hh0) as [-> ->]. reflexivity.
    + intros i Hi. unfold r.
      assert (Hq : i / Hh < N') by (apply Nat.Div0.div_lt_upper_bound; lia).
      assert (Hm : i mod Hh < Hh) by (apply Nat.mod_upper_bound; lia).
      pose proof (Hrho _ Hq).
      pose proof (permutes_lt Hh (sigma (i / Hh)) _ (Hsig _ Hq) Hm). nia.
    + intros i Hi. apply permutes_id.
    + intros i l Hi Hl. unfold r.
      assert (Hq : i / Hh < N') by (apply Nat.Div0.div_lt_upper_bound; lia).
      assert (Hm : i mod Hh < Hh) by (apply Nat.mod_upper_bound; lia).
      rewrite (Nat.div_mod_eq i Hh) at 1. rewrite (Nat.mul_comm Hh (i / Hh)).
      rewrite (get_flatten_ids _ fh' N' Hh L (i / Hh) (i mod Hh) l Sh' Sfh' Dfh').
      rewrite (get_flatten_ids _ fh N Hh L (rho (i / Hh))
                 (sigma (i / Hh) (i mod Hh)) l Sh Sfh Dfh).
      now apply Ghis.
    + nia.
    + exact Hk.
Qed.

(** ** The constructors *)

Lemma Dropout_new_ok p : (0 <= p <= 1)%R -> Dropout.new p = Ok (Dropout.mk p true).
Proof.
  intros [H0 H1]. unfold Dropout.new.
  destruct (Rlt_dec p 0); [lra|]. destruct (Rlt_dec 1 p); [lra|]. reflexivity.
Qed.

Lemma Dropout_new_bad p : (p < 0 \/ 1 < p)%R -> Dropout.new p = Raise ValueError.
Proof.
  intros H. unfold Dropout.new.
  destruct (Rlt_dec p 0); [reflexivity|]. destruct (Rlt_dec 1 p); [reflexivity|lra].
Qed.

Lemma SA_init_ok hp v E :
  (0 <= HParams.dropout hp <= 1)%R ->
  exists a, SelfAttention.init hp v = Ok a /\
    sa_ready a E (HParams.head_num hp) (HParams.head_dim hp) /\
    SelfAttention.WQ a = None /\ SelfAttention.verbose a = v /\
    SelfAttention.dropout a = Dropout.mk (HParams.dropout hp) true.
Proof.
  intros Hp. unfold SelfAttention.init. rewrite (Dropout_new_ok _ Hp).
  eexists. split; [reflexivity|]. cbn. repeat split.
Qed.

Lemma Linear_new_bias E F g : Linear.bias (fst (Linear.new E F false g)) = None.
Proof. reflexivity. Qed.

Lemma AA_init_ok hp v g :
  (0 <= HParams.dropout hp <= 1)%R ->
  exists a g', AdditiveAttention.init hp v g = (Ok a, g') /\
    aa_ready a (HParams.head_num hp * HParams.head_dim hp)
               (HParams.attention_hidden_dim hp) /\
    AdditiveAttention.verbose a = v /\
    AdditiveAttention.dropout a = Dropout.mk (HParams.dropout hp) true.
Proof.
  intros Hp. unfold AdditiveAttention.init.
  pose proof (Linear_new_dims (HParams.head_num hp * HParams.head_dim hp)
                (HParams.attention_hidden_dim hp) true g) as D1.
  destruct (Linear.new (HParams.head_num hp * HParams.head_dim hp)
              (HParams.attention_hidden_dim hp) true g) as [w g1].
  pose proof (Linear_new_dims (HParams.attention_hidden_dim hp) 1 false g1) as D2.
  pose proof (Linear_new_bias (HParams.attention_hidden_dim hp) 1 g1) as B2.
  destruct (Linear.new (HParams.attention_hidden_dim hp) 1 false g1) as [q g2].
  rewrite (Dropout_new_ok _ Hp). eexists. eexists. split; [reflexivity|].
  cbn in *. repeat split; try apply D1; try apply D2; exact B2.
Qed.

(** The constructor on a table of [V] rows of width [E] and a dropout
    probability inside [0, 1]: the model is ready for that table, holds it
    unchanged, and both self-attentions are still without projections. *)
Lemma NRMS_init_ok hp emb g V E :
  shape emb = [V; E] -> (0 <= HParams.dropout hp <= 1)%R ->
  exists m g', NRMSModel.init hp emb g = (Ok m, g') /\
    nrms_ready m V E (HParams.head_num hp) (HParams.head_dim hp)
               (HParams.attention_hidden_dim hp) /\
    NRMSModel.embedding m = emb /\
    SelfAttention.WQ (NRMSModel.news_self_att m) = None /\
    SelfAttention.WQ (NRMSModel.user_self_att m) = None.
Proof.
  intros Se Hp. unfold NRMSModel.init. rewrite Se. cbn [length Nat.eqb negb].
  rewrite (Dropout_new_ok _ Hp).
  destruct (SA_init_ok hp (HParams.verbose hp) E Hp) as (nsa & -> & Rn & Wn & _).
  destruct (AA_init_ok hp (HParams.verbose hp) g Hp) as (na & g1 & -> & Ra & _).
  destruct (SA_init_ok hp (HParams.verbose hp)
              (HParams.head_num hp * HParams.head_dim hp) Hp)
    as (usa & Eu & Ru & Wu & _).
  destruct (AA_init_ok hp (HParams.verbose hp) g1 Hp) as (ua & g2 & -> & Rua & _).
  assert (Rn' : sa_ready nsa (HParams.head_num hp * HParams.head_dim hp)
                  (HParams.head_num hp) (HParams.head_dim hp)).
  { destruct Rn as (? & ? & ? & _). repeat split; try assumption. now rewrite Wn. }
  eexists. eexists. split; [reflexivity|]. cbn.
  split; [|auto].
  unfold nrms_ready. cbn. repeat split; try assumption;
    try apply Rn; try apply Ra; try apply Rn'; try apply Rua.
Qed.

(** [encode_user] leaves a model in which both self-attentions hold their
    projections. *)
Lemma encode_user_creates his s N Hh L V E H D A :
  nrms_ready (self s) V E H D A ->
  shape his = [N; Hh; L] -> wf his -> ids_ok V his -> 0 < N * Hh ->
  exists u s1,
    NRMSModel.encode_user his s = (Ok u, s1) /\
    nrms_ready (self s1) V E H D A /\
    SelfAttention.WQ (NRMSModel.news_self_att (self s1)) <> None /\
    SelfAttention.WQ (NRMSModel.user_self_att (self s1)) <> None.
Proof.
  intros Hr Sh Wh Hok Hpos.
  unfold NRMSModel.encode_user.
  assert (U : unpack3 (torch.size his) = Ok (N, Hh, L))
    by (unfold torch.size; rewrite Sh; reflexivity).
  rewrite (bind_lift_ok _ _ U). cbv beta iota.
  destruct (view_flatten_ids his N Hh L Sh Wh) as (flat & Hv & Sf & Wf & Df).
  rewrite (bind_lift_ok _ _ Hv).
  destruct (encode_news_ok flat s (N * Hh) L V E H D A Hr Sf
              (ids_ok_same_data V his flat Df Hok))
    as (nv & s' & Hn & Snv & Wnv & Hr' & Hext & HWQ).
  rewrite (bind_ok _ Hn).
  destruct (view_infer_3 nv N Hh (H * D) _ (tensor2_self Snv Wnv) Hpos)
    as (nv3 & Hnv3 & (S3 & W3 & _)).
  rewrite (bind_lift_ok _ _ Hnv3).
  pose proof Hr' as (R1 & R2 & R3 & R4 & R5).
  destruct (forward_run nv3 nv3 nv3
              (mkState (NRMSModel.user_self_att (self s')) (world s'))
              N Hh (H * D) H D R4 S3 W3 S3 W3 S3 W3)
    as (wq & wk & wv & g0 & s2 & HP & Hf & Hs2 & Hg2 & Hr2).
  rewrite (bind_zoom NRMSModel.user_self_att NRMSModel.set_user_self_att _ _ _ _ s2)
    by exact Hf.
  cbn [self world] in *.
  destruct (shape_encode wq wk wv H D
              (SelfAttention.dropout (NRMSModel.user_self_att (self s'))) g0
              nv3 N Hh (H * D) S3) as [SY WY].
  destruct (AA_forward_run _
              (mkState (NRMSModel.user_att (self s')) (world s2))
              N Hh (H * D) A R5 SY WY) as (s4 & Ha & Hs4 & Hg4).
  rewrite (bind_zoom NRMSModel.user_att NRMSModel.set_user_att _ _ _ _ s4)
    by exact Ha.
  cbn [self world] in *.
  destruct (shape_pool (AdditiveAttention.W (NRMSModel.user_att (self s')))
              (AdditiveAttention.q (NRMSModel.user_att (self s'))) (H * D) A
              (AdditiveAttention.dropout (NRMSModel.user_att (self s')))
              (rng (world s2)) _ N Hh SY) as [SP WP].
  eexists. eexists. unfold ret. split; [reflexivity|]. cbn [self].
  rewrite Hs4, Hs2.
  assert (Hext2 : nrms_extends (self s')
                    (NRMSModel.set_user_att (NRMSModel.user_att (self s'))
                       (NRMSModel.set_user_self_att
                          (with_projections (NRMSModel.user_self_att (self s'))
                             wq wk wv) (self s')))).
  { repeat split; cbn; try apply sa_extends_refl.
    apply (projections_extends _ (H * D) _ wq wk wv g0 HP). }
  destruct (projections_dims _ (H * D) H D _ wq wk wv g0 R4 HP) as (Lq & Lk & Lv).
  split; [|split].
  - apply (nrms_ready_extends (self s') _ V E H D A Hr' Hext2); cbn.
    + now apply sa_ready_with_projections.
    + exact R2.
  - cbn. exact HWQ.
  - cbn. discriminate.
Qed.

Lemma permute_history_ok V sigma his N Hh L :
  shape his = [N; Hh; L] -> wf his -> ids_ok V his ->
  (forall n, n < N -> permutes Hh (sigma n)) ->
  shape (permute_history sigma his) = [N; Hh; L] /\
  wf (permute_history sigma his) /\
  ids_ok V (permute_history sigma his) /\
  forall n h l, n < N -> h < Hh -> l < L ->
    get 0%Z (permute_history sigma his) [n; h; l] = get 0%Z his [n; sigma n h; l].
Proof.
  intros Sh Wh Hok Hs. unfold permute_history. rewrite Sh.
  split; [reflexivity|]. split; [apply wf_tabulate|]. split.
  - apply ids_ok_tabulate. intros idx Hb.
    destruct (in_bounds3 _ _ _ _ Hb) as (n & h & l & -> & Hn & Hh0 & Hl). cbn [nth].
    apply ids_ok_get; try assumption. rewrite Sh. simpl.
    split; [assumption|]. split; [apply permutes_lt; auto|].
    split; [assumption|exact I].
  - intros n h l Hn Hh0 Hl. rewrite get_tabulate by (simpl; auto). reflexivity.
Qed.

(** One row of a batch of id sequences, as a batch of its own. *)
Lemma row_ok V (ids : Tensor Z) N K L (f : list nat -> list nat) K1 :
  shape ids = [N; K; L] -> wf ids -> ids_ok V ids ->
  (forall idx, in_bounds [1; K1; L] idx -> in_bounds [N; K; L] (f idx)) ->
  wf (tabulate [1; K1; L] (fun idx => get 0%Z ids (f idx))) /\
  ids_ok V (tabulate [1; K1; L] (fun idx => get 0%Z ids (f idx))).
Proof.
  intros Si Wi Hok Hf. split; [apply wf_tabulate|].
  apply ids_ok_tabulate. intros idx Hb.
  apply ids_ok_get; try assumption. rewrite Si. now apply Hf.
Qed.

(** ** What the verbose mode prints *)

Lemma attention_ready_out Q_seq K_seq V_seq s {N L E H D wq wk wv} :
  SelfAttention.WQ (self s) = Some wq ->
  SelfAttention.WK (self s) = Some wk ->
  SelfAttention.WV (self s) = Some wv ->
  linear_dims wq E (H * D) -> linear_dims wk E (H * D) -> linear_dims wv E (H * D) ->
  SelfAttention.head_num (self s) = H -> SelfAttention.head_dim (self s) = D ->
  shape Q_seq = [N; L; E] -> wf Q_seq ->
  shape K_seq = [N; L; E] -> wf K_seq ->
  shape V_seq = [N; L; E] -> wf V_seq ->
  exists r s1,
    SelfAttention.attention Q_seq K_seq V_seq s = (Ok r, s1) /\
    stdout (world s1)
    = stdout (world s) ++
      (if SelfAttention.verbose (self s)
       then firstn 3 (sa_lines N L H D) else []).
Proof.
  intros HWQ HWK HWV [Iq Oq] [Ik Ok_] [Iv Ov] HH HD SQ WfQ SK WfK SV WfV.
  unfold SelfAttention.attention.
  rewrite bind_get_self, HWQ, bind_ret, bind_get_self, HWQ, HWK, HWV.
  cbn [call]. rewrite HH, HD.
  run_op (Linear_forward_3 wq (tensor3_self SQ WfQ) Iq).
  run_op (Linear_forward_3 wk (tensor3_self SK WfK) Ik).
  run_op (Linear_forward_3 wv (tensor3_self SV WfV) Iv).
  rewrite Oq in Ty. rewrite Ok_ in Ty0. rewrite Ov in Ty1.
  assert (U : unpack3 (torch.size y) = Ok (N, L, H * D)).
  { unfold torch.size. destruct Ty as (-> & _). reflexivity. }
  rewrite (bind_lift_ok _ _ U).
  run_op (view_split Ty). run_op (transpose_1_2 Ty2).
  run_op (view_split Ty0). run_op (transpose_1_2 Ty4).
  run_op (view_split Ty1). run_op (transpose_1_2 Ty6).
  rewrite (proj1 Ty3), (proj1 Ty5), (proj1 Ty7).
  assert (P : exists s1,
    (if SelfAttention.verbose (self s)
     then print ("Q shape: " ++ show_Size [N; H; L; D]) ;;
          print ("K shape: " ++ show_Size [N; H; L; D]) ;;
          print ("V shape: " ++ show_Size [N; H; L; D])
     else ret tt) s = (Ok tt, s1) /\
    stdout (world s1)
    = stdout (world s) ++
      (if SelfAttention.verbose (self s)
       then firstn 3 (sa_lines N L H D) else [])).
  { destruct (SelfAttention.verbose (self s)).
    - eexists. rewrite !bind_print. unfold print. split; [reflexivity|].
      cbn [world stdout self rng firstn sa_lines]. rewrite <- !app_assoc. reflexivity.
    - eexists. unfold ret. split; [reflexivity|]. now rewrite app_nil_r. }
  destruct P as (s1 & Ps & Pout).
  rewrite (bind_ok _ Ps).
  run_op (transpose_m2_m1 Ty5).
  run_op (matmul_4 Ty3 Ty8).
  pose proof (div_scalar_4 (sqrt (INR D)) Ty9) as Tsc.
  run_op (softmax_last_4 Tsc).
  eexists. exists s1. unfold ret. split; [reflexivity|exact Pout].
Qed.

(** [forward] on an object that holds its projections: what it prints. *)
Lemma forward_ready_out Q_seq K_seq V_seq s {N L E H D wq wk wv} :
  SelfAttention.WQ (self s) = Some wq ->
  SelfAttention.WK (self s) = Some wk ->
  SelfAttention.WV (self s) = Some wv ->
  linear_dims wq E (H * D) -> linear_dims wk E (H * D) -> linear_dims wv E (H * D) ->
  SelfAttention.head_num (self s) = H -> SelfAttention.head_dim (self s) = D ->
  SelfAttention.output_dim (self s) = H * D ->
  shape Q_seq = [N; L; E] -> wf Q_seq ->
  shape K_seq = [N; L; E] -> wf K_seq ->
  shape V_seq = [N; L; E] -> wf V_seq ->
  stdout (world (snd (SelfAttention.forward Q_seq K_seq V_seq s)))
  = stdout (world s) ++
    (if SelfAttention.verbose (self s) then sa_lines N L H D else []).
Proof.
  intros HWQ HWK HWV Lq Lk Lv HH HD HO SQ WfQ SK WfK SV WfV.
  destruct (attention_ready Q_seq K_seq V_seq s HWQ HWK HWV Lq Lk Lv HH HD
              SQ WfQ SK WfK SV WfV) as (Vh & s1 & Hatt & TV & Hself & Hrng).
  destruct (attention_ready_out Q_seq K_seq V_seq s HWQ HWK HWV Lq Lk Lv HH HD
              SQ WfQ SK WfK SV WfV) as (r & s1' & Hatt' & Hout).
  rewrite Hatt in Hatt'. injection Hatt' as <- <-.
  unfold SelfAttention.forward.
  rewrite (bind_ok _ Hatt). cbv beta iota.
  rewrite bind_get_self, bind_with_rng. cbn [self world rng stdout].
  rewrite Hself, Hrng.
  set (attn := SpecSelfAttention.attn wq wk H D Q_seq K_seq).
  set (dr := SelfAttention.dropout (self s)).
  set (g := rng (world s)).
  destruct (Dropout_forward_shape dr attn g (wf_spec_attn _ _ _ _ _ _)) as [Sd Wd].
  assert (Sa : shape attn = [N; H; L; L]).
  { unfold attn, SpecSelfAttention.attn. rewrite SQ. reflexivity. }
  rewrite Sa in Sd.
  run_op (matmul_4 (tensor4_self Sd Wd) TV).
  run_op (transpose_1_2 Ty).
  rewrite HO.
  run_op (view_merge Ty0 eq_refl).
  rewrite Sd, (proj1 Ty1).
  destruct (SelfAttention.verbose (self s)); unfold bind, print, ret;
    cbn [fst snd world stdout self rng]; rewrite Hout.
  - cbn [firstn sa_lines]. rewrite <- !app_assoc. reflexivity.
  - reflexivity.
Qed.

Lemma permute_positions_ok pi X N L E :
  shape X = [N; L; E] ->
  shape (permute_positions pi X) = [N; L; E] /\ wf (permute_positions pi X) /\
  gathered3 (permute_positions pi X) X N L E (fun n => n) pi.
Proof.
  intros SX. unfold permute_positions. rewrite SX.
  split; [reflexivity|]. split; [apply wf_tabulate|].
  intros n l k Hn Hl Hk. rewrite get_tabulate by (simpl; auto). reflexivity.
Qed.

(** * Further properties of the code *)

(** ** What the methods may change *)

(** X1.  [AdditiveAttention.forward] never changes the object it is called
    on: whatever the input and whether it returns or raises, the object
    after the call is the object before it. *)
Theorem X1_additive_attention_reads_only x (s : State AdditiveAttention.t) :
  self (snd (AdditiveAttention.forward x s)) = self s.
Proof. symmetry. apply (AA_forward_grows x s). Qed.

(** X2.  [SelfAttention.forward] changes its object in one way only:
    whatever the inputs and whether it returns or raises, the object after
    the call is the object before it, or the object before it had no
    projections and the object after it is that object with the three
    projections stored.  Existing projections are never replaced and no
    other attribute is written. *)
Theorem X2_self_attention_only_adds_projections Q_seq K_seq V_seq
        (s : State SelfAttention.t) :
  self (snd (SelfAttention.forward Q_seq K_seq V_seq s)) = self s \/
  (SelfAttention.WQ (self s) = None /\
   exists wq wk wv,
     self (snd (SelfAttention.forward Q_seq K_seq V_seq s))
     = with_projections (self s) wq wk wv).
Proof.
  destruct (SA_forward_grows Q_seq K_seq V_seq s) as [E|[HW (wq & wk & wv & E)]].
  - left. now symmetry.
  - right. split; [exact HW|]. now exists wq, wk, wv.
Qed.

(** X3.  [NRMSModel.encode_user] and [NRMSModel.forward], on any inputs and
    whether they return or raise, leave the embedding table, the dropout
    and both additive attentions as they were; each self-attention is left
    as it was or receives its projections. *)
Theorem X3_model_only_adds_projections his_input pred_input (s : State NRMSModel.t) :
  nrms_extends (self s) (self (snd (NRMSModel.encode_user his_input s))) /\
  nrms_extends (self s) (self (snd (NRMSModel.forward his_input pred_input s))).
Proof.
  split; [apply encode_user_grows|apply NRMS_forward_grows].
Qed.

(** X4.  [NRMSModel.encode_news] never touches the user encoder: on any
    input, the user self-attention after the call is the one before it
    (its projections are not created by encoding items), and the rest of
    the model changes at most by the projections of the item
    self-attention. *)
Theorem X4_encode_news_leaves_user_encoder news_input (s : State NRMSModel.t) :
  nrms_extends (self s) (self (snd (NRMSModel.encode_news news_input s))) /\
  NRMSModel.user_self_att (self (snd (NRMSModel.encode_news news_input s)))
  = NRMSModel.user_self_att (self s).
Proof. apply (encode_news_grows news_input s). Qed.

(** X5.  Once the projections of both self-attentions exist and dropout is
    off, [NRMSModel.forward] has no side effect but printing: on any
    inputs it leaves the model as it is, draws nothing from the random
    generator, and its outcome (scores or exception) does not depend on the
    generator or on what was printed before. *)
Theorem X5_inference_is_pure his_input pred_input x w :
  nrms_settled x ->
  self (snd (NRMSModel.forward his_input pred_input (mkState x w))) = x /\
  rng (world (snd (NRMSModel.forward his_input pred_input (mkState x w)))) = rng w /\
  forall w', fst (NRMSModel.forward his_input pred_input (mkState x w'))
             = fst (NRMSModel.forward his_input pred_input (mkState x w)).
Proof.
  intros Hx. apply pure_at_spelled. now apply NRMS_forward_pure.
Qed.

Lemma X5_inference_is_pure_example :
  self (snd (NRMSModel.forward Example.history Example.candidates
               (mkState Settled.model Example.world0))) = Settled.model /\
  rng (world (snd (NRMSModel.forward Example.history Example.candidates
                     (mkState Settled.model Example.world0)))) = rng Example.world0 /\
  forall w', fst (NRMSModel.forward Example.history Example.candidates
                    (mkState Settled.model w'))
             = fst (NRMSModel.forward Example.history Example.candidates
                      (mkState Settled.model Example.world0)).
Proof.
  apply (X5_inference_is_pure Example.history Example.candidates
           Settled.model Example.world0).
  unfold nrms_settled, nrms_dropout_off, sa_dropout_off, aa_dropout_off, dropout_off.
  cbn. repeat split; try discriminate; left; reflexivity.
Defined.

(** ** Inputs the methods reject *)

(** X6.  A token id outside the embedding table (negative, or not below
    the number of rows) makes [NRMSModel.encode_news] raise [IndexError]
    before anything else happens: the model, the generator and the
    standard output are left as they were. *)
Theorem X6_unknown_token_raises ids (s : State NRMSModel.t) :
  ~ ids_ok (nth 0 (shape (NRMSModel.embedding (self s))) 0) ids ->
  NRMSModel.encode_news ids s = (Raise IndexError, s).
Proof. apply encode_news_oov. Qed.

Lemma X6_unknown_token_raises_example :
  NRMSModel.encode_news (mkTensor [1; 1] [5%Z]) (mkState Example.model Example.world0)
  = (Raise IndexError, mkState Example.model Example.world0).
Proof.
  apply (X6_unknown_token_raises (mkTensor [1; 1] [5%Z])
           (mkState Example.model Example.world0)).
  unfold ids_ok. cbn. intros H. inversion H as [|z l [_ Hlt] _]. lia.
Defined.

(** X7.  An unknown token id anywhere in the histories makes
    [NRMSModel.forward] raise [IndexError] with the state unchanged,
    whatever the candidates are: the candidates are not looked at. *)
Theorem X7_unknown_history_token his pred (s : State NRMSModel.t) N Hh L :
  shape his = [N; Hh; L] ->
  ~ ids_ok (nth 0 (shape (NRMSModel.embedding (self s))) 0) his ->
  NRMSModel.forward his pred s = (Raise IndexError, s).
Proof.
  intros Sh Hbad. unfold NRMSModel.forward.
  exact (bind_raise _ (encode_user_oov his s N Hh L Sh Hbad)).
Qed.

Lemma X7_unknown_history_token_example :
  NRMSModel.forward (mkTensor [1; 1; 1] [5%Z]) Example.candidates
    (mkState Example.model Example.world0)
  = (Raise IndexError, mkState Example.model Example.world0).
Proof.
  apply (X7_unknown_history_token (mkTensor [1; 1; 1] [5%Z]) Example.candidates
           (mkState Example.model Example.world0) 1 1 1).
  - reflexivity.
  - unfold ids_ok. cbn. intros H. inversion H as [|z l [_ Hlt] _]. lia.
Defined.

(** X8.  An unknown token id among the candidates, with valid histories,
    makes [NRMSModel.forward] raise [IndexError] only after the user
    vector was computed: the call fails, but the model it leaves holds the
    projections of both self-attentions. *)
Theorem X8_unknown_candidate_token his pred (s : State NRMSModel.t)
        N Hh L N2 M L' V E H D A :
  nrms_ready (self s) V E H D A ->
  shape his = [N; Hh; L] -> wf his -> ids_ok V his -> 0 < N -> 0 < Hh ->
  shape pred = [N2; M; L'] -> wf pred -> ~ ids_ok V pred ->
  fst (NRMSModel.forward his pred s) = Raise IndexError /\
  SelfAttention.WQ
    (NRMSModel.news_self_att (self (snd (NRMSModel.forward his pred s)))) <> None /\
  SelfAttention.WQ
    (NRMSModel.user_self_att (self (snd (NRMSModel.forward his pred s)))) <> None.
Proof.
  intros Hr Sh Wh Hokh HN HH Sp Wp Hbad.
  destruct (encode_user_creates his s N Hh L V E H D A Hr Sh Wh Hokh ltac:(nia))
    as (u & s1 & Hu & Hr1 & Hn & Hus).
  unfold NRMSModel.forward. rewrite (bind_ok _ Hu).
  assert (U : unpack3 (torch.size pred) = Ok (N2, M, L'))
    by (unfold torch.size; rewrite Sp; reflexivity).
  rewrite (bind_lift_ok _ _ U). cbv beta iota.
  destruct (view_flatten_ids pred N2 M L' Sp Wp) as (flat & Hv & Sf & Wf & Df).
  rewrite (bind_lift_ok _ _ Hv).
  assert (Hbad' : ~ ids_ok (nth 0 (shape (NRMSModel.embedding (self s1))) 0) flat).
  { destruct Hr1 as (-> & _). cbn [nth]. intros Hok. apply Hbad.
    now apply (ids_ok_view V pred flat _ Hv). }
  rewrite (bind_raise _ (encode_news_oov flat s1 Hbad')). cbn [fst snd].
  split; [reflexivity|]. split; assumption.
Qed.

Lemma X8_unknown_candidate_token_example :
  fst (NRMSModel.forward Example.history (mkTensor [1; 1; 1] [5%Z])
         (mkState Example.model Example.world0)) = Raise IndexError /\
  SelfAttention.WQ
    (NRMSModel.news_self_att
       (self (snd (NRMSModel.forward Example.history (mkTensor [1; 1; 1] [5%Z])
                     (mkState Example.model Example.world0))))) <> None /\
  SelfAttention.WQ
    (NRMSModel.user_self_att
       (self (snd (NRMSModel.forward Example.history (mkTensor [1; 1; 1] [5%Z])
                     (mkState Example.model Example.world0))))) <> None.
Proof.
  apply (X8_unknown_candidate_token Example.history (mkTensor [1; 1; 1] [5%Z])
           (mkState Example.model Example.world0) 1 1 2 1 1 1 2 1 1 1 1);
    first [reflexivity | lia | idtac].
  - repeat split.
  - repeat constructor; cbn; lia.
  - unfold ids_ok. cbn. intros H. inversion H as [|z l [_ Hlt] _]. lia.
Defined.

(** X9.  The input width is fixed by the first call.  Once the projections
    exist, a query whose last dimension differs from the width they were
    created for makes [SelfAttention.forward] raise [RuntimeError], with
    the object, the generator and the standard output unchanged: the
    projections are not re-created for the new width. *)
Theorem X9_width_is_fixed_by_first_call Q_seq K_seq V_seq
        (s : State SelfAttention.t) wq :
  SelfAttention.WQ (self s) = Some wq ->
  last (shape Q_seq) 0 <> Linear.in_features wq ->
  SelfAttention.forward Q_seq K_seq V_seq s = (Raise RuntimeError, s).
Proof.
  intros HW Hn. unfold SelfAttention.forward, SelfAttention.attention.
  unfold bind at 1. rewrite bind_get_self, HW, bind_ret, bind_get_self, HW.
  cbn [call]. unfold bind, lift. now rewrite (Linear_forward_raise wq Q_seq Hn).
Qed.

Lemma X9_width_is_fixed_by_first_call_example :
  SelfAttention.forward (mkTensor [1; 1; 2] [1%R; 1%R]) Example.x Example.x
    (mkState Settled.sa Example.world0)
  = (Raise RuntimeError, mkState Settled.sa Example.world0).
Proof.
  apply (X9_width_is_fixed_by_first_call (mkTensor [1; 1; 2] [1%R; 1%R])
           Example.x Example.x (mkState Settled.sa Example.world0) (Example.lin true)).
  - reflexivity.
  - cbn. lia.
Defined.

(** X10.  A first call that fails still initialises the object.  On an
    object without projections, when the key's last dimension differs from
    the query's, [SelfAttention.forward] raises [RuntimeError] after it has
    created and stored the three projections for the query's width, and
    after it has drawn their weights from the generator. *)
Theorem X10_failed_first_call_initialises Q_seq K_seq V_seq
        (s : State SelfAttention.t) E :
  SelfAttention.WQ (self s) = None ->
  torch.size_at Q_seq (-1) = Ok E ->
  last (shape K_seq) 0 <> E ->
  exists wq wk wv g,
    projections (self s) E (rng (world s)) = Some (wq, wk, wv, g) /\
    SelfAttention.forward Q_seq K_seq V_seq s
    = (Raise RuntimeError,
       mkState (with_projections (self s) wq wk wv) (mkWorld g (stdout (world s)))).
Proof.
  intros HW HS HK.
  destruct (projections_fresh (self s) E (rng (world s)) HW)
    as (wq & wk & wv & g & HP & [Iq _] & [Ik _] & _).
  exists wq, wk, wv, g. split; [exact HP|].
  rewrite (forward_lazy_init Q_seq K_seq V_seq s E wq wk wv g HW HS HP).
  destruct (size_at_last Q_seq E HS) as [Hne Hl].
  destruct (Linear_forward_any wq Q_seq Hne) as (y & Hy & _); [congruence|].
  unfold SelfAttention.forward, SelfAttention.attention.
  unfold bind at 1. rewrite bind_get_self. cbn [self with_projections
    SelfAttention.WQ SelfAttention.set_WV SelfAttention.set_WK SelfAttention.set_WQ].
  rewrite bind_ret, bind_get_self.
  cbn [self with_projections SelfAttention.WQ SelfAttention.WK SelfAttention.WV
    SelfAttention.set_WV SelfAttention.set_WK SelfAttention.set_WQ call].
  rewrite (bind_lift_ok _ _ Hy).
  unfold bind, lift. rewrite (Linear_forward_raise wk K_seq) by congruence.
  reflexivity.
Qed.

Lemma X10_failed_first_call_initialises_example :
  exists wq wk wv g,
    projections Example.sa 1 Example.gen = Some (wq, wk, wv, g) /\
    SelfAttention.forward Example.x (mkTensor [1; 1; 2] [1%R; 1%R]) Example.x
      (mkState Example.sa Example.world0)
    = (Raise RuntimeError,
       mkState (with_projections Example.sa wq wk wv) (mkWorld g [])).
Proof.
  apply (X10_failed_first_call_initialises Example.x (mkTensor [1; 1; 2] [1%R; 1%R])
           Example.x (mkState Example.sa Example.world0) 1).
  - reflexivity.
  - reflexivity.
  - cbn. lia.
Defined.

(** X11.  Inputs that are not three-dimensional are rejected: when the
    projections apply (every input has the expected last dimension) but
    the query does not have exactly three dimensions,
    [SelfAttention.forward] raises [ValueError], from unpacking the size
    into [N, L, _]. *)
Theorem X11_input_must_be_batched Q_seq K_seq V_seq (s : State SelfAttention.t) E H D :
  sa_ready (self s) E H D ->
  torch.size_at Q_seq (-1) = Ok E ->
  torch.size_at K_seq (-1) = Ok E ->
  torch.size_at V_seq (-1) = Ok E ->
  length (shape Q_seq) <> 3 ->
  fst (SelfAttention.forward Q_seq K_seq V_seq s) = Raise ValueError.
Proof.
  intros Hr HQ HK HV Hn.
  destruct (sa_ready_reduce Q_seq K_seq V_seq s E H D Hr HQ)
    as (wq & wk & wv & s0 & -> & EQ & EK & EV & [Iq Oq] & [Ik Ok_] & [Iv Ov] & _).
  destruct (size_at_last _ _ HQ) as [NQ LQ].
  destruct (size_at_last _ _ HK) as [NK LK].
  destruct (size_at_last _ _ HV) as [NV LV].
  destruct (Linear_forward_any wq Q_seq NQ) as (y & Hy & Sy & _); [congruence|].
  destruct (Linear_forward_any wk K_seq NK) as (yk & Hyk & _); [congruence|].
  destruct (Linear_forward_any wv V_seq NV) as (yv & Hyv & _); [congruence|].
  assert (U : unpack3 (torch.size y) = Raise ValueError).
  { unfold torch.size. rewrite Sy.
    assert (Hl : length (removelast (shape Q_seq) ++ [Linear.out_features wq]) <> 3).
    { rewrite length_app. cbn [length].
      destruct (shape Q_seq) as [|a sh] eqn:E0; [congruence|].
      rewrite (app_removelast_last 0 (l := a :: sh)) in Hn by discriminate.
      rewrite length_app in Hn. cbn [length] in Hn. exact Hn. }
    destruct (removelast (shape Q_seq) ++ [Linear.out_features wq])
      as [|a [|b [|c [|d r]]]]; try reflexivity. cbn in Hl. congruence. }
  erewrite forward_attention_raise; [reflexivity|].
  unfold SelfAttention.attention.
  rewrite bind_get_self, EQ, bind_ret, bind_get_self, EQ, EK, EV. cbn [call].
  rewrite (bind_lift_ok _ _ Hy), (bind_lift_ok _ _ Hyk), (bind_lift_ok _ _ Hyv).
  unfold bind, lift. rewrite U. reflexivity.
Qed.

Lemma X11_input_must_be_batched_example :
  fst (SelfAttention.forward (mkTensor [1; 1] [1%R]) (mkTensor [1; 1] [1%R])
         (mkTensor [1; 1] [1%R]) (mkState Example.sa Example.world0))
  = Raise ValueError.
Proof.
  apply (X11_input_must_be_batched (mkTensor [1; 1] [1%R]) (mkTensor [1; 1] [1%R])
           (mkTensor [1; 1] [1%R]) (mkState Example.sa Example.world0) 1 1 1);
    first [reflexivity | idtac].
  - repeat split.
  - cbn. lia.
Defined.

(** X12.  Keys must have as many positions as the queries.  With queries
    and values of shape [N x L x E] and keys of shape [N2 x L2 x E] whose
    projection does not have [N * L * head_num * head_dim] entries,
    [SelfAttention.forward] raises [RuntimeError]: the keys are viewed with
    the batch size and length of the queries. *)
Theorem X12_key_length_must_match Q_seq K_seq V_seq (s : State SelfAttention.t)
        N L N2 L2 E H D :
  sa_ready (self s) E H D ->
  shape Q_seq = [N; L; E] -> wf Q_seq ->
  shape K_seq = [N2; L2; E] -> wf K_seq ->
  shape V_seq = [N; L; E] -> wf V_seq ->
  N2 * L2 * (H * D) <> N * L * (H * D) ->
  fst (SelfAttention.forward Q_seq K_seq V_seq s) = Raise RuntimeError.
Proof.
  intros Hr SQ WQ SK WK SV WV Hne.
  destruct (sa_ready_reduce Q_seq K_seq V_seq s E H D Hr (size_at_last_3 Q_seq N L E SQ))
    as (wq & wk & wv & s0 & -> & EQ & EK & EV & [Iq Oq] & [Ik Ok_] & [Iv Ov] & HH & HD).
  erewrite forward_attention_raise; [reflexivity|].
  unfold SelfAttention.attention.
  rewrite bind_get_self, EQ, bind_ret, bind_get_self, EQ, EK, EV. cbn [call].
  rewrite HH, HD.
  run_op (Linear_forward_3 wq (tensor3_self SQ WQ) Iq).
  run_op (Linear_forward_3 wk (tensor3_self SK WK) Ik).
  run_op (Linear_forward_3 wv (tensor3_self SV WV) Iv).
  rewrite Oq in Ty. rewrite Ok_ in Ty0.
  assert (U : unpack3 (torch.size y) = Ok (N, L, H * D)).
  { unfold torch.size. destruct Ty as (-> & _). reflexivity. }
  rewrite (bind_lift_ok _ _ U). cbv beta iota.
  run_op (view_split Ty). run_op (transpose_1_2 Ty2).
  assert (Vk : torch.view y0 [N; L; H; D] = Raise RuntimeError).
  { unfold torch.view. destruct Ty0 as (-> & _).
    destruct (Nat.eqb_spec (numel [N; L; H; D]) (numel [N2; L2; H * D])) as [Eq|]; [|reflexivity].
    exfalso. apply Hne. simpl in Eq. nia. }
  unfold bind, lift. rewrite Vk. reflexivity.
Qed.

Lemma X12_key_length_must_match_example :
  fst (SelfAttention.forward Example.x (mkTensor [1; 2; 1] [1%R; 1%R]) Example.x
         (mkState Example.sa Example.world0))
  = Raise RuntimeError.
Proof.
  apply (X12_key_length_must_match Example.x (mkTensor [1; 2; 1] [1%R; 1%R]) Example.x
           (mkState Example.sa Example.world0) 1 1 1 2 1 1 1);
    first [reflexivity | idtac].
  - repeat split.
  - cbn. lia.
Defined.

(** X13.  An empty batch, or histories without items, make
    [NRMSModel.encode_user] raise [RuntimeError]: the item vectors are an
    empty tensor, and the size behind [-1] in [view(N, H, -1)] cannot be
    inferred. *)
Theorem X13_empty_history_raises his (s : State NRMSModel.t) N Hh L V E H D A :
  nrms_ready (self s) V E H D A ->
  shape his = [N; Hh; L] -> wf his -> N * Hh = 0 ->
  fst (NRMSModel.encode_user his s) = Raise RuntimeError.
Proof.
  intros Hr Sh Wh Hz.
  unfold NRMSModel.encode_user.
  assert (U : unpack3 (torch.size his) = Ok (N, Hh, L))
    by (unfold torch.size; rewrite Sh; reflexivity).
  rewrite (bind_lift_ok _ _ U). cbv beta iota.
  destruct (view_flatten_ids his N Hh L Sh Wh) as (flat & Hv & Sf & Wf & Df).
  rewrite (bind_lift_ok _ _ Hv).
  assert (Hok : ids_ok V flat).
  { apply wf_empty_ids; [exact Wf|]. rewrite Sf. simpl. nia. }
  destruct (encode_news_ok flat s (N * Hh) L V E H D A Hr Sf Hok)
    as (nv & s' & Hn & _).
  rewrite (bind_ok _ Hn).
  unfold bind, lift. rewrite view_infer_empty by (simpl; nia). reflexivity.
Qed.

Lemma X13_empty_history_raises_example :
  fst (NRMSModel.encode_user (mkTensor [1; 0; 2] [])
         (mkState Example.model Example.world0)) = Raise RuntimeError.
Proof.
  apply (X13_empty_history_raises (mkTensor [1; 0; 2] [])
           (mkState Example.model Example.world0) 1 0 2 2 1 1 1 1);
    first [reflexivity | idtac].
  repeat split.
Defined.

(** X14.  A batch without candidates makes [NRMSModel.forward] raise
    [RuntimeError] (from [view(N, M, -1)] on an empty tensor), after the
    user vectors were computed. *)
Theorem X14_no_candidates_raises his pred (s : State NRMSModel.t)
        N Hh L L' V E H D A :
  nrms_ready (self s) V E H D A ->
  shape his = [N; Hh; L] -> wf his -> ids_ok V his ->
  shape pred = [N; 0; L'] -> wf pred ->
  0 < N -> 0 < Hh ->
  fst (NRMSModel.forward his pred s) = Raise RuntimeError.
Proof.
  intros Hr Sh Wh Hokh Sp Wp HN HH.
  destruct (encode_user_run his s N Hh L V E H D A Hr Sh Wh Hokh ltac:(nia))
    as (u & s1 & Hu & Su & Wu & Hr1 & _).
  unfold NRMSModel.forward. rewrite (bind_ok _ Hu).
  assert (U : unpack3 (torch.size pred) = Ok (N, 0, L'))
    by (unfold torch.size; rewrite Sp; reflexivity).
  rewrite (bind_lift_ok _ _ U). cbv beta iota.
  destruct (view_flatten_ids pred N 0 L' Sp Wp) as (flat & Hv & Sf & Wf & Df).
  rewrite (bind_lift_ok _ _ Hv).
  assert (Hok : ids_ok V flat).
  { apply wf_empty_ids; [exact Wf|]. rewrite Sf. simpl. nia. }
  destruct (encode_news_ok flat s1 (N * 0) L' V E H D A Hr1 Sf Hok)
    as (nv & s' & Hn & _).
  rewrite (bind_ok _ Hn).
  unfold bind, lift. rewrite view_infer_empty by (simpl; nia). reflexivity.
Qed.

Lemma X14_no_candidates_raises_example :
  fst (NRMSModel.forward Example.history (mkTensor [1; 0; 2] [])
         (mkState Example.model Example.world0)) = Raise RuntimeError.
Proof.
  apply (X14_no_candidates_raises Example.history (mkTensor [1; 0; 2] [])
           (mkState Example.model Example.world0) 1 1 2 2 2 1 1 1 1);
    first [reflexivity | lia | idtac].
  - repeat split.
  - repeat constructor; cbn; lia.
Defined.

(** X15.  Histories and candidates must come in batches of the same size:
    with [N] users in the histories and [N2 <> N] in the candidates,
    [NRMSModel.forward] raises [RuntimeError] at the batched product; no
    broadcasting takes place. *)
Theorem X15_batch_sizes_must_match his pred (s : State NRMSModel.t)
        N N2 Hh L M L' V E H D A :
  nrms_ready (self s) V E H D A ->
  shape his = [N; Hh; L] -> wf his -> ids_ok V his ->
  shape pred = [N2; M; L'] -> wf pred -> ids_ok V pred ->
  0 < N -> 0 < Hh -> 0 < N2 -> 0 < M -> N2 <> N ->
  fst (NRMSModel.forward his pred s) = Raise RuntimeError.
Proof.
  intros Hr Sh Wh Hokh Sp Wp Hokp HN HH HN2 HM Hne.
  destruct (encode_user_run his s N Hh L V E H D A Hr Sh Wh Hokh ltac:(nia))
    as (u & s1 & Hu & Su & Wu & Hr1 & _).
  unfold NRMSModel.forward. rewrite (bind_ok _ Hu).
  assert (U : unpack3 (torch.size pred) = Ok (N2, M, L'))
    by (unfold torch.size; rewrite Sp; reflexivity).
  rewrite (bind_lift_ok _ _ U). cbv beta iota.
  destruct (view_flatten_ids pred N2 M L' Sp Wp) as (flat & Hv & Sf & Wf & Df).
  rewrite (bind_lift_ok _ _ Hv).
  destruct (encode_news_ok flat s1 (N2 * M) L' V E H D A Hr1 Sf
              (ids_ok_same_data V pred flat Df Hokp))
    as (cv & s2 & Hc & Scv & Wcv & _).
  rewrite (bind_ok _ Hc).
  destruct (view_infer_3 cv N2 M (H * D) _ (tensor2_self Scv Wcv) ltac:(nia))
    as (nv & Hnv & (Snv & _)).
  rewrite (bind_lift_ok _ _ Hnv).
  destruct (unsqueeze_2 u N (H * D) _ (tensor2_self Su Wu)) as (u2 & Hu2 & (Su2 & _)).
  rewrite (bind_lift_ok _ _ Hu2).
  assert (Hb : torch.bmm nv u2 = Raise RuntimeError).
  { unfold torch.bmm, torch.matmul. rewrite Snv, Su2. simpl.
    destruct (Nat.eqb_spec N N2) as [->|_]; [congruence|]. reflexivity. }
  unfold bind, lift. rewrite Hb. reflexivity.
Qed.

Lemma X15_batch_sizes_must_match_example :
  fst (NRMSModel.forward Example.history (mkTensor [2; 1; 1] [0%Z; 1%Z])
         (mkState Example.model Example.world0)) = Raise RuntimeError.
Proof.
  apply (X15_batch_sizes_must_match Example.history (mkTensor [2; 1; 1] [0%Z; 1%Z])
           (mkState Example.model Example.world0) 1 2 1 2 1 1 2 1 1 1 1);
    first [reflexivity | lia | idtac].
  - repeat split.
  - repeat constructor; cbn; lia.
  - repeat constructor; cbn; lia.
Defined.

(** X16.  On sequences of length 0 [AdditiveAttention.forward] returns the
    zero tensor of shape [batch x width]: the softmax and the weighted sum
    range over no position. *)
Theorem X16_pooling_nothing_gives_zeros x (s : State AdditiveAttention.t) N F A :
  aa_ready (self s) F A -> shape x = [N; 0; F] -> wf x ->
  fst (AdditiveAttention.forward x s) = Ok (zeros [N; F]).
Proof.
  intros Hr Sx Wx.
  destruct (AA_forward_run x s N 0 F A Hr Sx Wx) as (s' & Hf & _).
  rewrite Hf. cbn [fst]. f_equal.
  destruct (shape_pool (AdditiveAttention.W (self s)) (AdditiveAttention.q (self s))
              F A (AdditiveAttention.dropout (self s)) (rng (world s)) x N 0 Sx)
    as [SP WP].
  apply zeros_unique; [exact SP|exact WP|].
  unfold SpecAdditiveAttention.pool. apply Dropout_forward_zeros.
  unfold SpecAdditiveAttention.pooled. rewrite Sx. cbn [nth data tabulate].
  apply Forall_forall. intros v Hv. apply in_map_iff in Hv.
  now destruct Hv as (? & <- & _).
Qed.

Lemma X16_pooling_nothing_gives_zeros_example :
  fst (AdditiveAttention.forward (mkTensor [1; 0; 1] [])
         (mkState Example.aa Example.world0)) = Ok (zeros [1; 1]).
Proof.
  apply (X16_pooling_nothing_gives_zeros (mkTensor [1; 0; 1] [])
           (mkState Example.aa Example.world0) 1 1 1);
    first [reflexivity | idtac].
  repeat split.
Defined.

(** ** What the attention computes *)

(** X17.  No position is masked.  On every valid input of
    [SelfAttention.forward], every entry of the attention matrix produced
    by the softmax (line 44) is strictly positive and at most 1: each
    query position attends to every key position, padding included.
    (Entries are real numbers in this model, and [head_dim] is not 0.) *)
Theorem X17_attention_is_never_masked Q_seq K_seq V_seq (s : State SelfAttention.t)
        N L E H D :
  sa_ready (self s) E H D -> D <> 0 ->
  shape Q_seq = [N; L; E] -> wf Q_seq ->
  shape K_seq = [N; L; E] -> wf K_seq ->
  shape V_seq = [N; L; E] -> wf V_seq ->
  exists attn V s1,
    SelfAttention.attention Q_seq K_seq V_seq s = (Ok (attn, V, N, L), s1) /\
    forall n h i j, n < N -> h < H -> i < L -> j < L ->
      (0 < get 0%R attn [n; h; i; j] <= 1)%R.
Proof.
  intros Hr HD SQ WQ SK WK SV WV.
  destruct (attention_run Q_seq K_seq V_seq s N L E H D Hr SQ WQ SK WK SV WV)
    as (wq & wk & wv & g0 & Vh & s1 & _ & Hf).
  exists (SpecSelfAttention.attn wq wk H D Q_seq K_seq), Vh, s1.
  split; [exact Hf|].
  intros n h i j Hn Hh Hi Hj.
  rewrite (get_spec_attn wq wk H D Q_seq K_seq N L E) by assumption.
  unfold SpecSelfAttention.normalize. split.
  - now apply softmax_pos.
  - now apply softmax_le_1.
Qed.

Lemma X17_attention_is_never_masked_example :
  exists attn V s1,
    SelfAttention.attention Example.x Example.x Example.x
      (mkState Example.sa Example.world0) = (Ok (attn, V, 1, 1), s1) /\
    forall n h i j, n < 1 -> h < 1 -> i < 1 -> j < 1 ->
      (0 < get 0%R attn [n; h; i; j] <= 1)%R.
Proof.
  apply (X17_attention_is_never_masked Example.x Example.x Example.x
           (mkState Example.sa Example.world0) 1 1 1 1 1);
    first [reflexivity | lia | repeat split].
Defined.

(** X18.  With dropout off, self-attention averages.  On [forward(X, X, X)]
    every output entry [(n, i, c)] is a weighted average, over the
    positions [j], of column [c] of the projected values [WV(X)] of
    sequence [n]: it lies between any two bounds [a] and [b] that hold for
    those values.  (Entries are real numbers in this model.) *)
Theorem X18_self_attention_averages X (s : State SelfAttention.t) N L E H D :
  sa_ready (self s) E H D -> sa_dropout_off (self s) ->
  shape X = [N; L; E] -> wf X ->
  exists wq wk wv g0 out,
    projections (self s) E (rng (world s)) = Some (wq, wk, wv, g0) /\
    fst (SelfAttention.forward X X X s) = Ok out /\
    forall n i c a b, n < N -> i < L -> c < H * D ->
      (forall j, j < L -> (a <= SpecSelfAttention.project wv E X n j c <= b)%R) ->
      (a <= get 0%R out [n; i; c] <= b)%R.
Proof.
  intros Hr Hd SX WX.
  destruct (forward_run X X X s N L E H D Hr SX WX SX WX SX WX)
    as (wq & wk & wv & g0 & s' & HP & Hf & _).
  unfold SpecSelfAttention.encode in Hf.
  rewrite (Dropout_forward_off _ _ g0 Hd) in Hf. cbn [fst] in Hf.
  exists wq, wk, wv, g0, (attend wq wk wv H D X).
  split; [exact HP|]. split; [now rewrite Hf|].
  intros n i c a b Hn Hi Hc Hv.
  now apply (attend_bounds wq wk wv H D X N L E).
Qed.

Lemma X18_self_attention_averages_example :
  exists wq wk wv g0 out,
    projections Example.sa 1 Example.gen = Some (wq, wk, wv, g0) /\
    fst (SelfAttention.forward Example.x Example.x Example.x
           (mkState Example.sa Example.world0)) = Ok out /\
    forall n i c a b, n < 1 -> i < 1 -> c < 1 * 1 ->
      (forall j, j < 1 ->
         (a <= SpecSelfAttention.project wv 1 Example.x n j c <= b)%R) ->
      (a <= get 0%R out [n; i; c] <= b)%R.
Proof.
  apply (X18_self_attention_averages Example.x
           (mkState Example.sa Example.world0) 1 1 1 1 1);
    first [reflexivity | idtac].
  - repeat split.
  - left. reflexivity.
Defined.

(** X19.  With dropout off, additive attention averages.  Every entry
    [(n, f)] of the output of [AdditiveAttention.forward] on sequences of
    at least one position is a weighted average of feature [f] of the
    positions of sequence [n]: it lies between any two bounds that hold
    for that feature at every position.  (Entries are real numbers in this
    model.) *)
Theorem X19_additive_attention_averages x (s : State AdditiveAttention.t) N L F A :
  aa_ready (self s) F A -> aa_dropout_off (self s) ->
  shape x = [N; L; F] -> wf x -> 1 <= L ->
  exists out,
    fst (AdditiveAttention.forward x s) = Ok out /\
    forall n f a b, n < N -> f < F ->
      (forall l, l < L -> (a <= get 0%R x [n; l; f] <= b)%R) ->
      (a <= get 0%R out [n; f] <= b)%R.
Proof.
  intros Hr Hd Sx Wx HL.
  destruct (AA_forward_run x s N L F A Hr Sx Wx) as (s' & Hf & _).
  unfold SpecAdditiveAttention.pool in Hf.
  rewrite (Dropout_forward_off _ _ _ Hd) in Hf. cbn [fst] in Hf.
  eexists. split; [now rewrite Hf|].
  intros n f a b Hn Hf0 Hv.
  now apply (pooled_bounds _ _ F A x N L).
Qed.

Lemma X19_additive_attention_averages_example :
  exists out,
    fst (AdditiveAttention.forward Example.x (mkState Example.aa Example.world0))
    = Ok out /\
    forall n f a b, n < 1 -> f < 1 ->
      (forall l, l < 1 -> (a <= get 0%R Example.x [n; l; f] <= b)%R) ->
      (a <= get 0%R out [n; f] <= b)%R.
Proof.
  apply (X19_additive_attention_averages Example.x
           (mkState Example.aa Example.world0) 1 1 1 1);
    first [reflexivity | lia | idtac].
  - repeat split.
  - left. reflexivity.
Defined.

(** X20.  [NRMSModel.encode_news] maps [B] sequences of [L] in-vocabulary
    token ids to one vector per sequence: a tensor of shape
    [B x head_num*head_dim], for every [B] and [L], zero included, and
    whatever the dropout. *)
Theorem X20_encode_news_shape ids (s : State NRMSModel.t) B L V E H D A :
  nrms_ready (self s) V E H D A -> shape ids = [B; L] -> ids_ok V ids ->
  exists out,
    fst (NRMSModel.encode_news ids s) = Ok out /\
    shape out = [B; H * D] /\ wf out.
Proof.
  intros Hr Si Hok.
  destruct (encode_news_ok ids s B L V E H D A Hr Si Hok)
    as (out & s' & Hf & So & Wo & _).
  exists out. rewrite Hf. auto.
Qed.

Lemma X20_encode_news_shape_example :
  exists out,
    fst (NRMSModel.encode_news (mkTensor [1; 2] [0%Z; 1%Z])
           (mkState Example.model Example.world0)) = Ok out /\
    shape out = [1; 1 * 1] /\ wf out.
Proof.
  apply (X20_encode_news_shape (mkTensor [1; 2] [0%Z; 1%Z])
           (mkState Example.model Example.world0) 1 2 2 1 1 1 1);
    first [reflexivity | idtac].
  - repeat split.
  - repeat constructor; cbn; lia.
Defined.

(** X21.  [NRMSModel.encode_user] maps the histories of [N] users, [Hh]
    items of [L] in-vocabulary tokens each ([N] and [Hh] at least 1), to
    one vector per user: a tensor of shape [N x head_num*head_dim]. *)
Theorem X21_encode_user_shape his (s : State NRMSModel.t) N Hh L V E H D A :
  nrms_ready (self s) V E H D A ->
  shape his = [N; Hh; L] -> wf his -> ids_ok V his -> 0 < N -> 0 < Hh ->
  exists u,
    fst (NRMSModel.encode_user his s) = Ok u /\
    shape u = [N; H * D] /\ wf u.
Proof.
  intros Hr Sh Wh Hok HN HH.
  destruct (encode_user_run his s N Hh L V E H D A Hr Sh Wh Hok ltac:(nia))
    as (u & s1 & Hf & Su & Wu & _).
  exists u. rewrite Hf. auto.
Qed.

Lemma X21_encode_user_shape_example :
  exists u,
    fst (NRMSModel.encode_user Example.history
           (mkState Example.model Example.world0)) = Ok u /\
    shape u = [1; 1 * 1] /\ wf u.
Proof.
  apply (X21_encode_user_shape Example.history
           (mkState Example.model Example.world0) 1 1 2 2 1 1 1 1);
    first [reflexivity | lia | idtac].
  - repeat split.
  - repeat constructor; cbn; lia.
Defined.

(** ** What the scores depend on *)

(** X22.  With the weights fixed and dropout off, a score depends only on
    the history of its user and on the tokens of its candidate.  Take two
    calls of [NRMSModel.forward] from the same state, with any batch sizes
    and any numbers of candidates: if user [b'] of the second call has the
    history items of user [b] of the first, in any order, and candidate
    [c'] of user [b'] has the tokens of candidate [c] of user [b], then
    the two scores are equal.  The other users of the batch and the other
    candidates have no influence.  (Entries are real numbers in this
    model.) *)
Theorem X22_scores_are_local his pred his' pred' (s : State NRMSModel.t) sigma
        N N' Hh L M M' L' V E H D A b c b' c' :
  nrms_ready (self s) V E H D A -> nrms_dropout_off (self s) ->
  shape his = [N; Hh; L] -> wf his -> ids_ok V his ->
  shape pred = [N; M; L'] -> wf pred -> ids_ok V pred ->
  shape his' = [N'; Hh; L] -> wf his' -> ids_ok V his' ->
  shape pred' = [N'; M'; L'] -> wf pred' -> ids_ok V pred' ->
  0 < Hh -> b < N -> c < M -> b' < N' -> c' < M' ->
  permutes Hh sigma ->
  (forall h l, h < Hh -> l < L ->
     get 0%Z his' [b'; h; l] = get 0%Z his [b; sigma h; l]) ->
  (forall l, l < L' -> get 0%Z pred' [b'; c'; l] = get 0%Z pred [b; c; l]) ->
  exists sc sc',
    fst (NRMSModel.forward his pred s) = Ok sc /\
    fst (NRMSModel.forward his' pred' s) = Ok sc' /\
    get 0%R sc' [b'; c'] = get 0%R sc [b; c].
Proof.
  intros Hr Hd Sh Wh Hokh Sp Wp Hokp Sh' Wh' Hokh' Sp' Wp' Hokp'
         HH Hb Hc Hb' Hc' Hsig Ghis Gpred.
  set (his1 := tabulate [1; Hh; L]
                 (fun idx => get 0%Z his' [b'; nth 1 idx 0; nth 2 idx 0])).
  set (pred1 := tabulate [1; 1; L']
                  (fun idx => get 0%Z pred' [b'; c'; nth 2 idx 0])).
  destruct (row_ok V his' N' Hh L (fun idx => [b'; nth 1 idx 0; nth 2 idx 0]) Hh
              Sh' Wh' Hokh') as [Wh1 Hokh1].
  { intros idx Hi. destruct (in_bounds3 _ _ _ _ Hi) as (n & h & l & -> & Hn & Hh0 & Hl).
    simpl. auto. }
  destruct (row_ok V pred' N' M' L' (fun idx => [b'; c'; nth 2 idx 0]) 1
              Sp' Wp' Hokp') as [Wp1 Hokp1].
  { intros idx Hi. destruct (in_bounds3 _ _ _ _ Hi) as (n & h & l & -> & Hn & Hh0 & Hl).
    simpl. auto. }
  fold his1 in Wh1, Hokh1. fold pred1 in Wp1, Hokp1.
  assert (G1 : forall h l, h < Hh -> l < L ->
            get 0%Z his1 [0; h; l] = get 0%Z his' [b'; h; l]).
  { intros h l Hh0 Hl. unfold his1. rewrite get_tabulate by (simpl; auto).
    reflexivity. }
  assert (G2 : forall l, l < L' -> get 0%Z pred1 [0; 0; l] = get 0%Z pred' [b'; c'; l]).
  { intros l Hl. unfold pred1. rewrite get_tabulate by (simpl; auto). reflexivity. }
  destruct (forward_gather his pred his1 pred1 s N 1 Hh L M 1 L' V E H D A
              (fun _ => b) (fun _ => sigma) (fun _ _ => c))
    as (sc & sc1 & Hf & Hf1 & _ & _ & _ & _ & G);
    try assumption; try reflexivity; try lia; auto.
  { intros n h l Hn Hh0 Hl. assert (n = 0) as -> by lia.
    rewrite G1 by assumption. now apply Ghis. }
  { intros n k l Hn Hk Hl. assert (n = 0) as -> by lia. assert (k = 0) as -> by lia.
    rewrite G2 by assumption. now apply Gpred. }
  destruct (forward_gather his' pred' his1 pred1 s N' 1 Hh L M' 1 L' V E H D A
              (fun _ => b') (fun _ h => h) (fun _ _ => c'))
    as (sc' & sc1' & Hf' & Hf1' & _ & _ & _ & _ & G');
    try assumption; try reflexivity; try lia; auto.
  { intros n _. apply permutes_id. }
  { intros n h l Hn Hh0 Hl. assert (n = 0) as -> by lia. now apply G1. }
  { intros n k l Hn Hk Hl. assert (n = 0) as -> by lia. assert (k = 0) as -> by lia.
    now apply G2. }
  rewrite Hf1 in Hf1'. injection Hf1' as <-.
  exists sc, sc'. split; [exact Hf|]. split; [exact Hf'|].
  rewrite <- (G 0 0), <- (G' 0 0) by lia. reflexivity.
Qed.

Lemma X22_scores_are_local_example :
  exists sc sc',
    fst (NRMSModel.forward Example.history Example.candidates
           (mkState Example.model Example.world0)) = Ok sc /\
    fst (NRMSModel.forward (mkTensor [2; 1; 2] [1%Z; 1%Z; 0%Z; 1%Z])
           (mkTensor [2; 1; 2] [0%Z; 0%Z; 1%Z; 1%Z])
           (mkState Example.model Example.world0)) = Ok sc' /\
    get 0%R sc' [1; 0] = get 0%R sc [0; 1].
Proof.
  apply (X22_scores_are_local Example.history Example.candidates
           (mkTensor [2; 1; 2] [1%Z; 1%Z; 0%Z; 1%Z])
           (mkTensor [2; 1; 2] [0%Z; 0%Z; 1%Z; 1%Z])
           (mkState Example.model Example.world0) (fun h => h)
           1 2 1 2 2 1 2 2 1 1 1 1 0 1 1 0);
    first [reflexivity | lia | idtac].
  - repeat split.
  - unfold nrms_dropout_off, sa_dropout_off, aa_dropout_off, dropout_off; cbn;
      repeat split; left; reflexivity.
  - repeat constructor; cbn; lia.
  - repeat constructor; cbn; lia.
  - repeat constructor; cbn; lia.
  - repeat constructor; cbn; lia.
  - apply permutes_id.
Defined.

(** X23.  With the weights fixed and dropout off, the user vector does not
    depend on the order of the items in the history: rearranging the items
    of every user by a permutation of the history slots leaves the result
    of [NRMSModel.encode_user] unchanged.  The user encoder has no notion
    of position or recency.  (Entries are real numbers in this model.) *)
Theorem X23_history_order_is_ignored his (s : State NRMSModel.t) sigma
        N Hh L V E H D A :
  nrms_ready (self s) V E H D A -> nrms_dropout_off (self s) ->
  shape his = [N; Hh; L] -> wf his -> ids_ok V his -> 0 < N -> 0 < Hh ->
  (forall n, n < N -> permutes Hh (sigma n)) ->
  exists u,
    fst (NRMSModel.encode_user his s) = Ok u /\
    fst (NRMSModel.encode_user (permute_history sigma his) s) = Ok u.
Proof.
  intros Hr Hd Sh Wh Hok HN HH Hsig.
  destruct (permute_history_ok V sigma his N Hh L Sh Wh Hok Hsig)
    as (Sh' & Wh' & Hok' & Gh').
  destruct (encode_user_off his s N Hh L V E H D A Hr Hd Sh Wh Hok ltac:(nia))
    as (fh & wq & wk & wv & g0 & uq & uk & uv & g1 & s1 & Sfh & Dfh & HP & HPu
        & Hu & _).
  destruct (encode_user_off (permute_history sigma his) s N Hh L V E H D A
              Hr Hd Sh' Wh' Hok' ltac:(nia))
    as (fh' & wq' & wk' & wv' & g0' & uq' & uk' & uv' & g1' & s1' & Sfh' & Dfh'
        & HP' & HPu' & Hu' & _).
  rewrite HP in HP'. injection HP' as <- <- <- <-.
  rewrite HPu in HPu'. injection HPu' as <- <- <- <-.
  eexists. split; [now rewrite Hu|]. rewrite Hu'. cbn [fst]. f_equal.
  destruct Hr as (R1 & _).
  apply tensor_ext with (d := 0%R);
    [apply (shape_user_vectors (self s) uq uk uv H D A N Hh)
    |apply (shape_user_vectors (self s) uq uk uv H D A N Hh)
    |reflexivity|].
  - intros idx Hb.
    rewrite (proj1 (shape_user_vectors (self s) uq uk uv H D A N Hh _)) in Hb.
    destruct (in_bounds2 _ _ _ Hb) as (n & f & -> & Hn & Hf).
    apply (user_vectors_gather (self s) uq uk uv H D A N N Hh _ _ (fun n => n) sigma n f);
      try assumption; auto.
    intros n0 h k Hn0 Hh0 Hk.
    pose proof (permutes_lt Hh (sigma n0) h (Hsig n0 Hn0) Hh0) as Hs0.
    set (r := fun i => (i / Hh) * Hh + sigma (i / Hh) (i mod Hh)).
    rewrite (item_vectors_gather (self s) wq wk wv H D A V E fh' fh
               (N * Hh) (N * Hh) L r (fun _ l => l) (n0 * Hh + h) k R1 Sfh' Sfh).
    + unfold r. destruct (divmod_block Hh n0 h Hh0) as [-> ->]. reflexivity.
    + intros i Hi. unfold r.
      assert (Hq : i / Hh < N) by (apply Nat.Div0.div_lt_upper_bound; lia).
      assert (Hm : i mod Hh < Hh) by (apply Nat.mod_upper_bound; lia).
      pose proof (permutes_lt Hh (sigma (i / Hh)) _ (Hsig _ Hq) Hm). nia.
    + intros i Hi. apply permutes_id.
    + intros i l Hi Hl. unfold r.
      assert (Hq : i / Hh < N) by (apply Nat.Div0.div_lt_upper_bound; lia).
      assert (Hm : i mod Hh < Hh) by (apply Nat.mod_upper_bound; lia).
      rewrite (Nat.div_mod_eq i Hh) at 1. rewrite (Nat.mul_comm Hh (i / Hh)).
      rewrite (get_flatten_ids _ fh' N Hh L (i / Hh) (i mod Hh) l Sh' Sfh' Dfh').
      rewrite (get_flatten_ids _ fh N Hh L (i / Hh)
                 (sigma (i / Hh) (i mod Hh)) l Sh Sfh Dfh).
      now apply Gh'.
    + nia.
    + exact Hk.
Qed.

Lemma X23_history_order_is_ignored_example :
  exists u,
    fst (NRMSModel.encode_user (mkTensor [1; 2; 1] [0%Z; 1%Z])
           (mkState Example.model Example.world0)) = Ok u /\
    fst (NRMSModel.encode_user
           (permute_history (fun _ h => 1 - h) (mkTensor [1; 2; 1] [0%Z; 1%Z]))
           (mkState Example.model Example.world0)) = Ok u.
Proof.
  apply (X23_history_order_is_ignored (mkTensor [1; 2; 1] [0%Z; 1%Z])
           (mkState Example.model Example.world0) (fun _ h => 1 - h)
           1 2 1 2 1 1 1 1);
    first [reflexivity | lia | idtac].
  - repeat split.
  - unfold nrms_dropout_off, sa_dropout_off, aa_dropout_off, dropout_off; cbn;
      repeat split; left; reflexivity.
  - repeat constructor; cbn; lia.
  - intros n _. unfold permutes. cbn. apply perm_swap.
Defined.

(** ** The constructor *)

(** X24.  A model constructed from a two-dimensional table of [V] rows of
    width [E], with a dropout probability inside [0, 1], holds no
    self-attention projection yet, and is ready to score: [forward] on
    in-vocabulary histories and candidates of the same batch size (at
    least one user, item and candidate) returns scores of shape
    [N x M], in training mode as the constructor leaves it. *)
Theorem X24_constructed_model_scores hp emb g out his pred N Hh L M L' V E :
  shape emb = [V; E] -> (0 <= HParams.dropout hp <= 1)%R ->
  shape his = [N; Hh; L] -> wf his -> ids_ok V his ->
  shape pred = [N; M; L'] -> wf pred -> ids_ok V pred ->
  0 < N -> 0 < Hh -> 0 < M ->
  exists m g',
    NRMSModel.init hp emb g = (Ok m, g') /\
    SelfAttention.WQ (NRMSModel.news_self_att m) = None /\
    SelfAttention.WQ (NRMSModel.user_self_att m) = None /\
    exists sc,
      fst (NRMSModel.forward his pred (mkState m (mkWorld g' out))) = Ok sc /\
      shape sc = [N; M].
Proof.
  intros Se Hp Sh Wh Hokh Sp Wp Hokp HN HH HM.
  destruct (NRMS_init_ok hp emb g V E Se Hp) as (m & g' & Hi & Hr & _ & W1 & W2).
  exists m, g'. split; [exact Hi|]. split; [exact W1|]. split; [exact W2|].
  destruct (NRMS_forward_run his pred (mkState m (mkWorld g' out)) N Hh L M L' V E
              (HParams.head_num hp) (HParams.head_dim hp)
              (HParams.attention_hidden_dim hp) Hr Sh Wh Hokh Sp Wp Hokp HN HH HM)
    as (u & s1 & flat & cv & s2 & sc & _ & _ & _ & _ & _ & _ & _ & _ & _ & _ & _
        & Hf & (Ssc & _)).
  exists sc. split; [now rewrite Hf|exact Ssc].
Qed.

Lemma X24_constructed_model_scores_example :
  exists m g',
    NRMSModel.init (HParams.mk 1 1 1 0%R false) Example.table Example.gen = (Ok m, g') /\
    SelfAttention.WQ (NRMSModel.news_self_att m) = None /\
    SelfAttention.WQ (NRMSModel.user_self_att m) = None /\
    exists sc,
      fst (NRMSModel.forward Example.history Example.candidates
             (mkState m (mkWorld g' []))) = Ok sc /\
      shape sc = [1; 2].
Proof.
  apply (X24_constructed_model_scores (HParams.mk 1 1 1 0%R false) Example.table
           Example.gen [] Example.history Example.candidates 1 1 2 2 2 2 1);
    first [reflexivity | lia | idtac].
  - cbn. lra.
  - repeat constructor; cbn; lia.
  - repeat constructor; cbn; lia.
Defined.

(** X25.  The dropout probability is checked at construction: with
    [hparams.dropout] below 0 or above 1, the three constructors raise
    [ValueError].  [NRMSModel] fails before any weight is drawn from the
    generator (the table being two-dimensional). *)
Theorem X25_dropout_probability_is_checked hp v emb g :
  (HParams.dropout hp < 0 \/ 1 < HParams.dropout hp)%R ->
  length (shape emb) = 2 ->
  SelfAttention.init hp v = Raise ValueError /\
  fst (AdditiveAttention.init hp v g) = Raise ValueError /\
  NRMSModel.init hp emb g = (Raise ValueError, g).
Proof.
  intros Hp He.
  unfold SelfAttention.init, AdditiveAttention.init, NRMSModel.init.
  rewrite He, (Dropout_new_bad _ Hp). cbn [Nat.eqb negb].
  split; [reflexivity|]. split; [|reflexivity].
  destruct (Linear.new _ _ true g) as [w g1].
  destruct (Linear.new _ 1 false g1) as [q g2]. reflexivity.
Qed.

Lemma X25_dropout_probability_is_checked_example :
  SelfAttention.init (HParams.mk 1 1 1 2%R false) false = Raise ValueError /\
  fst (AdditiveAttention.init (HParams.mk 1 1 1 2%R false) false Example.gen)
  = Raise ValueError /\
  NRMSModel.init (HParams.mk 1 1 1 2%R false) Example.table Example.gen
  = (Raise ValueError, Example.gen).
Proof.
  apply (X25_dropout_probability_is_checked (HParams.mk 1 1 1 2%R false) false
           Example.table Example.gen).
  - right. cbn. lra.
  - reflexivity.
Defined.

(** ** What the verbose mode prints *)

(** X26.  What [SelfAttention.forward] prints.  On a valid input of [N]
    sequences of length [L], an object built with [verbose] on appends
    exactly five lines to the standard output, in this order: the shapes
    of Q, K and V after the split into heads, [N, head_num, L, head_dim]
    each, the shape of the attention matrix, [N, head_num, L, L], and the
    shape of the output, [N, L, head_num*head_dim].  With [verbose] off it
    prints nothing.  Creating the projections prints nothing. *)
Theorem X26_self_attention_prints Q_seq K_seq V_seq (s : State SelfAttention.t)
        N L E H D :
  sa_ready (self s) E H D ->
  shape Q_seq = [N; L; E] -> wf Q_seq ->
  shape K_seq = [N; L; E] -> wf K_seq ->
  shape V_seq = [N; L; E] -> wf V_seq ->
  stdout (world (snd (SelfAttention.forward Q_seq K_seq V_seq s)))
  = stdout (world s) ++
    (if SelfAttention.verbose (self s) then sa_lines N L H D else []).
Proof.
  intros Hr SQ WfQ SK WfK SV WfV.
  pose proof Hr as (HH & HD & HO & HW).
  destruct (SelfAttention.WQ (self s)) as [wq|] eqn:EWQ.
  - destruct HW as (wk & wv & EWK & EWV & Lq & Lk & Lv).
    now apply (forward_ready_out Q_seq K_seq V_seq s EWQ EWK EWV Lq Lk Lv HH HD HO).
  - destruct (projections_fresh (self s) E (rng (world s)) EWQ)
      as (wq & wk & wv & g3 & HP & Lq & Lk & Lv).
    rewrite HO in Lq, Lk, Lv.
    rewrite (forward_lazy_init Q_seq K_seq V_seq s E wq wk wv g3 EWQ
               (size_at_last_3 Q_seq N L E SQ) HP).
    set (s0 := mkState (with_projections (self s) wq wk wv)
                       (mkWorld g3 (stdout (world s)))).
    assert (V0 : SelfAttention.verbose (self s0) = SelfAttention.verbose (self s))
      by (destruct s as [[] ?]; reflexivity).
    rewrite <- V0.
    change (stdout (world s)) with (stdout (world s0)).
    apply (forward_ready_out Q_seq K_seq V_seq s0 (wq := wq) (wk := wk) (wv := wv)
             (E := E));
      try assumption; try (destruct s as [[] ?]; cbn in *; first [reflexivity|assumption]).
Qed.

Lemma X26_self_attention_prints_example :
  stdout (world (snd (SelfAttention.forward Example.scenario_x Example.scenario_x
                        Example.scenario_x
                        (mkState Example.scenario_sa Example.world0))))
  = [ "Q shape: torch.Size([2, 2, 5, 4])";
      "K shape: torch.Size([2, 2, 5, 4])";
      "V shape: torch.Size([2, 2, 5, 4])";
      "Attention shape: torch.Size([2, 2, 5, 5])";
      "Output shape: torch.Size([2, 5, 8])" ]%string.
Proof.
  apply (X26_self_attention_prints Example.scenario_x Example.scenario_x
           Example.scenario_x (mkState Example.scenario_sa Example.world0) 2 5 8 2 4);
    first [reflexivity | repeat split].
Defined.

(** X27.  What [AdditiveAttention.forward] prints.  On a valid input of
    shape [N x L x F], an object built with [verbose] on appends exactly
    three lines to the standard output: the shape of the attention
    weights, [N, L, 1], the shape of the input, and the shape of the
    output, [N, F].  With [verbose] off it prints nothing. *)
Theorem X27_additive_attention_prints x (s : State AdditiveAttention.t) N L F A :
  aa_ready (self s) F A -> shape x = [N; L; F] -> wf x ->
  stdout (world (snd (AdditiveAttention.forward x s)))
  = stdout (world s) ++
    (if AdditiveAttention.verbose (self s) then aa_lines N L F else []).
Proof.
  intros Hr Sx Wx.
  destruct (weights_run x s N L F A Hr Sx Wx) as (w & Hw & Tw).
  unfold AdditiveAttention.forward.
  rewrite (bind_ok _ Hw), bind_get_self.
  destruct (mul_bcast_3 (tensor3_self Sx Wx) Tw) as (xa & Hxa & Txa).
  destruct (sum_dim1_3 Txa) as (o & Ho & To).
  destruct (Dropout_forward_shape (AdditiveAttention.dropout (self s)) o
              (rng (world s)) (proj1 (proj2 To))) as [Sd _].
  rewrite (proj1 To) in Sd.
  rewrite (proj1 Tw), Sx.
  destruct (AdditiveAttention.verbose (self s));
    unfold bind, print, ret, lift, with_rng; cbn; rewrite Hxa, Ho;
    destruct (Dropout.forward _ _ _) as [o' g'] eqn:ED; cbn in *.
  - rewrite Sd. unfold aa_lines. rewrite <- !app_assoc. reflexivity.
  - now rewrite app_nil_r.
Qed.

Lemma X27_additive_attention_prints_example :
  stdout (world (snd (AdditiveAttention.forward Example.scenario_x
                        (mkState Example.scenario_aa Example.world0))))
  = [ "Attention weights shape: torch.Size([2, 5, 1])";
      "Input shape: torch.Size([2, 5, 8])";
      "Output shape: torch.Size([2, 8])" ]%string.
Proof.
  apply (X27_additive_attention_prints Example.scenario_x
           (mkState Example.scenario_aa Example.world0) 2 5 8 16);
    first [reflexivity | repeat split].
Defined.

(** ** The attentions and the order of the positions *)

(** X28.  Self-attention has no notion of position.  With dropout off,
    rearranging the positions of every input sequence by a permutation
    rearranges the rows of the output of [forward(X, X, X)] in the same
    way and changes nothing else, from the same state (so with the same
    projections).  (Entries are real numbers in this model.) *)
Theorem X28_self_attention_is_position_equivariant X (s : State SelfAttention.t) pi
        N L E H D :
  sa_ready (self s) E H D -> sa_dropout_off (self s) ->
  shape X = [N; L; E] -> wf X ->
  (forall n, n < N -> permutes L (pi n)) ->
  exists out out',
    fst (SelfAttention.forward X X X s) = Ok out /\
    fst (SelfAttention.forward (permute_positions pi X) (permute_positions pi X)
           (permute_positions pi X) s) = Ok out' /\
    shape out' = shape out /\
    forall n i c, n < N -> i < L -> c < H * D ->
      get 0%R out' [n; i; c] = get 0%R out [n; pi n i; c].
Proof.
  intros Hr Hd SX WX Hpi.
  destruct (permute_positions_ok pi X N L E SX) as (SX' & WX' & G).
  destruct (forward_run X X X s N L E H D Hr SX WX SX WX SX WX)
    as (wq & wk & wv & g0 & s1 & HP & Hf & _).
  destruct (forward_run _ _ _ s N L E H D Hr SX' WX' SX' WX' SX' WX')
    as (wq' & wk' & wv' & g0' & s1' & HP' & Hf' & _).
  rewrite HP in HP'. injection HP' as <- <- <- <-.
  unfold SpecSelfAttention.encode in Hf, Hf'.
  rewrite (Dropout_forward_off _ _ g0 Hd) in Hf.
  rewrite (Dropout_forward_off _ _ g0 Hd) in Hf'. cbn [fst] in Hf, Hf'.
  exists (attend wq wk wv H D X), (attend wq wk wv H D (permute_positions pi X)).
  split; [now rewrite Hf|]. split; [now rewrite Hf'|]. split.
  - now rewrite (shape_attend _ _ _ _ _ _ N L E SX'), (shape_attend _ _ _ _ _ _ N L E SX).
  - intros n i c Hn Hi Hc.
    apply (attend_gather N N L (fun n => n) pi (fun n Hn => Hn) Hpi
             wq wk wv H D E _ _ SX' SX G n i c Hn Hi Hc).
Qed.

Lemma X28_self_attention_is_position_equivariant_example :
  exists out out',
    fst (SelfAttention.forward (mkTensor [1; 2; 1] [1%R; 2%R])
           (mkTensor [1; 2; 1] [1%R; 2%R]) (mkTensor [1; 2; 1] [1%R; 2%R])
           (mkState Example.sa Example.world0)) = Ok out /\
    fst (SelfAttention.forward
           (permute_positions (fun _ l => 1 - l) (mkTensor [1; 2; 1] [1%R; 2%R]))
           (permute_positions (fun _ l => 1 - l) (mkTensor [1; 2; 1] [1%R; 2%R]))
           (permute_positions (fun _ l => 1 - l) (mkTensor [1; 2; 1] [1%R; 2%R]))
           (mkState Example.sa Example.world0)) = Ok out' /\
    shape out' = shape out /\
    forall n i c, n < 1 -> i < 2 -> c < 1 * 1 ->
      get 0%R out' [n; i; c] = get 0%R out [n; 1 - i; c].
Proof.
  apply (X28_self_attention_is_position_equivariant (mkTensor [1; 2; 1] [1%R; 2%R])
           (mkState Example.sa Example.world0) (fun _ l => 1 - l) 1 2 1 1 1);
    first [reflexivity | idtac].
  - repeat split.
  - left. reflexivity.
  - intros n _. unfold permutes. cbn. apply perm_swap.
Defined.

(** X29.  Additive attention ignores the order of the positions.  With
    dropout off, rearranging the positions of every input sequence by a
    permutation leaves the output of [AdditiveAttention.forward]
    unchanged.  (Entries are real numbers in this model.) *)
Theorem X29_additive_attention_ignores_order x (s : State AdditiveAttention.t) pi
        N L F A :
  aa_ready (self s) F A -> aa_dropout_off (self s) ->
  shape x = [N; L; F] -> wf x ->
  (forall n, n < N -> permutes L (pi n)) ->
  exists out,
    fst (AdditiveAttention.forward x s) = Ok out /\
    fst (AdditiveAttention.forward (permute_positions pi x) s) = Ok out.
Proof.
  intros Hr Hd Sx Wx Hpi.
  destruct (permute_positions_ok pi x N L F Sx) as (Sx' & Wx' & G).
  destruct (AA_forward_run x s N L F A Hr Sx Wx) as (s1 & Hf & _).
  destruct (AA_forward_run _ s N L F A Hr Sx' Wx') as (s1' & Hf' & _).
  unfold SpecAdditiveAttention.pool in Hf, Hf'.
  rewrite (Dropout_forward_off _ _ _ Hd) in Hf.
  rewrite (Dropout_forward_off _ _ _ Hd) in Hf'. cbn [fst] in Hf, Hf'.
  eexists. split; [now rewrite Hf|]. rewrite Hf'. cbn [fst]. f_equal.
  apply tensor_ext with (d := 0%R); try apply wf_tabulate.
  - unfold SpecAdditiveAttention.pooled. now rewrite Sx, Sx'.
  - intros idx Hb. unfold SpecAdditiveAttention.pooled in Hb at 1.
    rewrite Sx' in Hb. cbn [nth shape tabulate] in Hb.
    destruct (in_bounds2 _ _ _ Hb) as (n & f & -> & Hn & Hf0).
    apply (pooled_gather N N L (fun n => n) pi (fun n Hn => Hn) Hpi _ _ F A _ _ n f
             Sx' Sx G Hn Hf0).
Qed.

Lemma X29_additive_attention_ignores_order_example :
  exists out,
    fst (AdditiveAttention.forward (mkTensor [1; 2; 1] [1%R; 2%R])
           (mkState Example.aa Example.world0)) = Ok out /\
    fst (AdditiveAttention.forward
           (permute_positions (fun _ l => 1 - l) (mkTensor [1; 2; 1] [1%R; 2%R]))
           (mkState Example.aa Example.world0)) = Ok out.
Proof.
  apply (X29_additive_attention_ignores_order (mkTensor [1; 2; 1] [1%R; 2%R])
           (mkState Example.aa Example.world0) (fun _ l => 1 - l) 1 2 1 1);
    first [reflexivity | idtac].
  - repeat split.
  - left. reflexivity.
  - intros n _. unfold permutes. cbn. apply perm_swap.
Defined.

(** * Repeated calls and the random generator *)

Lemma sa_up_to_verbose_refl a : sa_up_to_verbose a a.
Proof. repeat split. Qed.

Lemma aa_up_to_verbose_refl a : aa_up_to_verbose a a.
Proof. repeat split. Qed.

Lemma nrms_up_to_verbose_refl a : nrms_up_to_verbose a a.
Proof. repeat split. Qed.

(** Two runs of a method on the same object with the same generator return
    the same outcome and leave the same generator; what was printed before
    does not matter. *)
Lemma agree_seeded {T A} (R : T -> T -> Prop) (m : M T A) :
  (forall x, R x x) -> agree R same_rng m m ->
  forall x w1 w2, rng w1 = rng w2 ->
    fst (m (mkState x w1)) = fst (m (mkState x w2)) /\
    rng (world (snd (m (mkState x w1)))) = rng (world (snd (m (mkState x w2)))).
Proof.
  intros Hrefl Hm x w1 w2 Hg.
  destruct (Hm (mkState x w1) (mkState x w2) (Hrefl x) Hg) as (E & _ & G).
  split; [exact E|exact G].
Qed.

(** A method that leaves the object [self s] as it is, called a second
    time after the generator was put back to where the first call found it:
    same outcome, same object, same generator afterwards. *)
Lemma reseeded_call {T A} (R : T -> T -> Prop) (m : M T A) (s : State T) :
  (forall x, R x x) -> agree R same_rng m m -> keeps_at (self s) m ->
  forall out,
    let s2 := mkState (self (snd (m s))) (mkWorld (rng (world s)) out) in
    fst (m s2) = fst (m s) /\
    self (snd (m s2)) = self (snd (m s)) /\
    rng (world (snd (m s2))) = rng (world (snd (m s))).
Proof.
  intros Hrefl Hm Hk out s2.
  assert (E1 : self (snd (m s)) = self s).
  { rewrite <- (state_eta s) at 1. apply Hk. }
  unfold s2. rewrite E1.
  destruct (agree_seeded R m Hrefl Hm (self s) (mkWorld (rng (world s)) out) (world s)
              eq_refl) as [F G].
  rewrite (state_eta s) in F, G.
  split; [exact F|]. split; [apply Hk|exact G].
Qed.

Lemma nrms_extends_settled a b :
  SelfAttention.WQ (NRMSModel.news_self_att a) <> None ->
  SelfAttention.WQ (NRMSModel.user_self_att a) <> None ->
  nrms_extends a b -> b = a.
Proof.
  intros W1 W2 (A1 & A2 & A3 & A4 & A5 & A6).
  pose proof (sa_extends_settled _ _ W1 A3) as E3.
  pose proof (sa_extends_settled _ _ W2 A5) as E5.
  destruct a, b; cbn in *. congruence.
Qed.

Lemma news_extends_settled a b :
  SelfAttention.WQ (NRMSModel.news_self_att a) <> None ->
  news_extends a b -> b = a.
Proof.
  intros W1 [(A1 & A2 & A3 & A4 & A5 & A6) A7].
  pose proof (sa_extends_settled _ _ W1 A3) as E3.
  destruct a, b; cbn in *. congruence.
Qed.

Lemma encode_news_keeps news_input x :
  SelfAttention.WQ (NRMSModel.news_self_att x) <> None ->
  keeps_at x (NRMSModel.encode_news news_input).
Proof.
  intros W1 w. apply (news_extends_settled x _ W1).
  apply (encode_news_grows news_input (mkState x w)).
Qed.

Lemma encode_user_keeps history_input x :
  SelfAttention.WQ (NRMSModel.news_self_att x) <> None ->
  SelfAttention.WQ (NRMSModel.user_self_att x) <> None ->
  keeps_at x (NRMSModel.encode_user history_input).
Proof.
  intros W1 W2 w. apply (nrms_extends_settled x _ W1 W2).
  apply (encode_user_grows history_input (mkState x w)).
Qed.

Lemma NRMS_forward_keeps his_input pred_input x :
  SelfAttention.WQ (NRMSModel.news_self_att x) <> None ->
  SelfAttention.WQ (NRMSModel.user_self_att x) <> None ->
  keeps_at x (NRMSModel.forward his_input pred_input).
Proof.
  intros W1 W2 w. apply (nrms_extends_settled x _ W1 W2).
  apply (NRMS_forward_grows his_input pred_input (mkState x w)).
Qed.

(** ** Re-seeding before the first call *)

Lemma Dropout_forward_one p (t : Tensor R) g v :
  p <> 0%R -> p <> 1%R -> numel (shape t) = 1 -> data t = [v] ->
  fst (Dropout.forward (Dropout.mk p true) t g)
  = mkTensor (shape t)
      [if Rlt_dec (torch.draws g (torch.cursor g)) (1 - p)
       then (v / (1 - p))%R else 0%R].
Proof.
  intros H0 H1 Hn Hd. unfold Dropout.forward. cbn [Dropout.training Dropout.p].
  destruct (Req_EM_T p 0) as [E|_]; [contradiction|].
  rewrite Hn. cbn [Nat.eqb].
  destruct (Req_EM_T p 1) as [E|_]; [contradiction|].
  rewrite Hd. cbn [length torch.take seq map combine fst snd].
  rewrite Nat.add_0_r. reflexivity.
Qed.

(** The one entry of the self-attention of [Example.x] with the three
    projections of weight and bias 1/4, under dropout one half with the
    generator [g]: 2 * 1/2 when the next draw keeps the attention weight,
    0 when it drops it. *)
Lemma training_entry (w : Linear.t) g :
  w = Linear.mk 1 1 (mkTensor [1; 1] [(1 / 4)%R]) (Some (mkTensor [1] [(1 / 4)%R])) ->
  get 0%R (SpecSelfAttention.encode w w w 1 1 Training.drop g
             Example.x Example.x Example.x) [0; 0; 0]
  = if Rlt_dec (torch.draws g (torch.cursor g)) (1 / 2) then 1%R else 0%R.
Proof.
  intros ->.
  unfold SpecSelfAttention.encode, SpecSelfAttention.combine.
  change (shape Example.x) with [1; 1; 1]. cbn [nth].
  rewrite get_tabulate by (simpl; auto).
  cbn [nth torch.rsum].
  change (0 / 1) with 0. change (0 mod 1) with 0.
  set (wq := Linear.mk 1 1 _ _).
  set (A := SpecSelfAttention.attn wq wq 1 1 Example.x Example.x).
  assert (DA : exists v, data A = [v] /\ v = 1%R).
  { eexists. split; [reflexivity|].
    unfold SpecSelfAttention.normalize.
    change (shape Example.x) with [1; 1; 1]. cbn [nth torch.rsum].
    rewrite Rplus_0_l. apply Rdiv_diag. apply Rgt_not_eq, exp_pos. }
  destruct DA as (v & DA & Hv).
  unfold Training.drop.
  rewrite (Dropout_forward_one (1 / 2) A g v)
    by first [lra | reflexivity | exact DA].
  change (shape A) with [1; 1; 1; 1].
  unfold get. cbn [shape data ravel numel Nat.mul Nat.add nth].
  unfold SpecSelfAttention.head, SpecSelfAttention.project, w_at, b_at, get.
  cbn [torch.rsum Example.x wq Linear.weight Linear.bias shape data ravel numel
       Nat.mul Nat.add nth].
  destruct (Rlt_dec (torch.draws g (torch.cursor g)) (1 - 1 / 2)) as [Y|N];
    destruct (Rlt_dec (torch.draws g (torch.cursor g)) (1 / 2)) as [Y'|N'];
    try lra; subst v; lra.
Qed.

(** The generator has to be put back to where the first call's dropout
    found it.  Put back to where the first call itself started, before it
    created the projections, it hands the second call's dropout the draws
    the first call spent on the weights: on a fresh object with dropout
    one half and the generator [Training.gen], the first call returns 0
    and the second call, on identical inputs, returns 1. *)
Lemma reseeding_before_the_first_call :
  let s := mkState Training.sa (mkWorld Training.gen []) in
  let s1 := snd (SelfAttention.forward Example.x Example.x Example.x s) in
  exists first second,
    fst (SelfAttention.forward Example.x Example.x Example.x s) = Ok first /\
    fst (SelfAttention.forward Example.x Example.x Example.x
           (mkState (self s1) (mkWorld Training.gen []))) = Ok second /\
    get 0%R first [0; 0; 0] = 0%R /\ get 0%R second [0; 0; 0] = 1%R.
Proof.
  intros s s1.
  assert (Hr : sa_ready Training.sa 1 1 1) by (repeat split).
  destruct (forward_run Example.x Example.x Example.x s 1 1 1 1 1 Hr)
    as (wq & wk & wv & g0 & s' & HP & Hf & Hs & _); try reflexivity.
  assert (E1 : self s1 = with_projections Training.sa wq wk wv).
  { unfold s1. rewrite Hf. exact Hs. }
  rewrite E1.
  destruct (projections_dims _ 1 1 1 _ wq wk wv g0 Hr HP) as (Lq & Lk & Lv).
  destruct (forward_run Example.x Example.x Example.x
              (mkState (with_projections Training.sa wq wk wv)
                       (mkWorld Training.gen []))
              1 1 1 1 1 (sa_ready_with_projections _ 1 1 1 wq wk wv Hr Lq Lk Lv))
    as (wq' & wk' & wv' & g0' & s'' & HP' & Hf' & _); try reflexivity.
  cbn [self world rng] in HP', Hf'. rewrite projections_stored in HP'.
  injection HP' as <- <- <- <-.
  unfold projections in HP. cbn in HP. injection HP as <- <- <- <-.
  rewrite Hf, Hf'. cbn [fst self].
  eexists. eexists. split; [reflexivity|]. split; [reflexivity|].
  change (SelfAttention.dropout Training.sa) with Training.drop.
  change (SelfAttention.dropout (with_projections Training.sa _ _ _))
    with Training.drop.
  rewrite !training_entry by reflexivity.
  cbn [torch.draws torch.cursor Training.gen Nat.eqb].
  destruct (Rlt_dec 1 (1 / 2)) as [Y|_]; [lra|].
  destruct (Rlt_dec (1 / 4) (1 / 2)) as [_|N]; [|lra].
  split; reflexivity.
Qed.

(** ** Lazy initialisation and repeated calls *)



(** C8.  Two calls of the same operation (self-attention, additive
    attention, item encoding, user encoding, scoring) on identical inputs
    return identical outcomes.  With dropout off: the second of two calls
    in a row returns the outcome of the first and leaves the object as the
    first one left it.  With dropout seeded and the weights fixed (the
    projections exist, so no call changes the object), whatever the
    dropout probability and mode: the second call, made after the
    generator was put back to where the first call found it, returns the
    outcome of the first, leaves the same object and the same generator. *)
Theorem C8_repeated_calls
    (sa : State SelfAttention.t) (aa : State AdditiveAttention.t)
    (m : State NRMSModel.t)
    (Q_seq K_seq V_seq x : Tensor R) (news his pred : Tensor Z) :
  let twice {T A} (op : M T A) (s : State T) :=
    fst (op (snd (op s))) = fst (op s) /\
    self (snd (op (snd (op s)))) = self (snd (op s)) in
  let reseeded {T A} (op : M T A) (s : State T) :=
    forall out,
      let s2 := mkState (self (snd (op s))) (mkWorld (rng (world s)) out) in
      fst (op s2) = fst (op s) /\
      self (snd (op s2)) = self (snd (op s)) /\
      rng (world (snd (op s2))) = rng (world (snd (op s))) in
  (sa_dropout_off (self sa) -> aa_dropout_off (self aa) ->
   nrms_dropout_off (self m) ->
   twice (SelfAttention.forward Q_seq K_seq V_seq) sa /\
   twice (AdditiveAttention.forward x) aa /\
   twice (NRMSModel.encode_news news) m /\
   twice (NRMSModel.encode_user his) m /\
   twice (NRMSModel.forward his pred) m) /\
  (SelfAttention.WQ (self sa) <> None ->
   reseeded (SelfAttention.forward Q_seq K_seq V_seq) sa) /\
  reseeded (AdditiveAttention.forward x) aa /\
  (SelfAttention.WQ (NRMSModel.news_self_att (self m)) <> None ->
   reseeded (NRMSModel.encode_news news) m) /\
  (SelfAttention.WQ (NRMSModel.news_self_att (self m)) <> None ->
   SelfAttention.WQ (NRMSModel.user_self_att (self m)) <> None ->
   reseeded (NRMSModel.encode_user his) m /\
   reseeded (NRMSModel.forward his pred) m).
Proof.
  intros twice reseeded. unfold twice, reseeded.
  split; [|split; [|split; [|split]]].
  - intros Hsa Haa Hm.
    split; [|split; [|split; [|split]]].
    + apply (settles_twice sa_dropout_off sa_extends _ sa sa_extends_refl
               (SA_forward_settles Q_seq K_seq V_seq) Hsa).
    + apply (settles_twice aa_dropout_off eq _ aa (@eq_refl _)
               (AA_forward_settles x) Haa).
    + apply (settles_twice nrms_dropout_off nrms_extends _ m nrms_extends_refl
               (encode_news_settles news) Hm).
    + apply (settles_twice nrms_dropout_off nrms_extends _ m nrms_extends_refl
               (encode_user_settles his) Hm).
    + apply (settles_twice nrms_dropout_off nrms_extends _ m nrms_extends_refl
               (NRMS_forward_settles his pred) Hm).
  - intros Wsa.
    apply (reseeded_call sa_up_to_verbose _ sa sa_up_to_verbose_refl
             (SA_forward_verbose Q_seq K_seq V_seq)
             (SA_forward_keeps Q_seq K_seq V_seq (self sa) Wsa)).
  - apply (reseeded_call aa_up_to_verbose _ aa aa_up_to_verbose_refl
             (AA_forward_verbose x) (AA_forward_keeps x (self aa))).
  - intros Wn.
    apply (reseeded_call nrms_up_to_verbose _ m nrms_up_to_verbose_refl
             (encode_news_verbose news) (encode_news_keeps news (self m) Wn)).
  - intros Wn Wu. split.
    + apply (reseeded_call nrms_up_to_verbose _ m nrms_up_to_verbose_refl
               (encode_user_verbose his) (encode_user_keeps his (self m) Wn Wu)).
    + apply (reseeded_call nrms_up_to_verbose _ m nrms_up_to_verbose_refl
               (NRMS_forward_verbose his pred)
               (NRMS_forward_keeps his pred (self m) Wn Wu)).
Qed.

Lemma C8_repeated_calls_example :
  let twice {T A} (op : M T A) (s : State T) :=
    fst (op (snd (op s))) = fst (op s) /\
    self (snd (op (snd (op s)))) = self (snd (op s)) in
  let reseeded {T A} (op : M T A) (s : State T) :=
    forall out,
      let s2 := mkState (self (snd (op s))) (mkWorld (rng (world s)) out) in
      fst (op s2) = fst (op s) /\
      self (snd (op s2)) = self (snd (op s)) /\
      rng (world (snd (op s2))) = rng (world (snd (op s))) in
  (twice (SelfAttention.forward Example.x Example.x Example.x)
         (mkState Example.sa Example.world0) /\
   twice (AdditiveAttention.forward Example.x) (mkState Example.aa Example.world0) /\
   twice (NRMSModel.encode_news Example.history)
         (mkState Example.model Example.world0) /\
   twice (NRMSModel.encode_user Example.history)
         (mkState Example.model Example.world0) /\
   twice (NRMSModel.forward Example.history Example.candidates)
         (mkState Example.model Example.world0)) /\
  (reseeded (SelfAttention.forward Example.x Example.x Example.x)
            (mkState Training.sa_settled Example.world0) /\
   reseeded (AdditiveAttention.forward Example.x)
            (mkState Training.aa Example.world0) /\
   reseeded (NRMSModel.encode_news Example.history)
            (mkState Training.model Example.world0) /\
   reseeded (NRMSModel.encode_user Example.history)
            (mkState Training.model Example.world0) /\
   reseeded (NRMSModel.forward Example.history Example.candidates)
            (mkState Training.model Example.world0)).
Proof.
  split.
  - apply (C8_repeated_calls (mkState Example.sa Example.world0)
             (mkState Example.aa Example.world0)
             (mkState Example.model Example.world0)
             Example.x Example.x Example.x Example.x
             Example.history Example.history Example.candidates);
      unfold nrms_dropout_off, sa_dropout_off, aa_dropout_off, dropout_off; cbn;
      repeat split; left; reflexivity.
  - destruct (C8_repeated_calls (mkState Training.sa_settled Example.world0)
                (mkState Training.aa Example.world0)
                (mkState Training.model Example.world0)
                Example.x Example.x Example.x Example.x
                Example.history Example.history Example.candidates)
      as (_ & Hsa & Haa & Hnews & Hrest).
    split; [apply Hsa; discriminate|]. split; [exact Haa|].
    split; [apply Hnews; discriminate|]. apply Hrest; discriminate.
Defined.
